(** * Task Tracker (Python CLI): a shallow embedding and its properties

    The program is one module, [task_tracker.py]: a menu loop over an
    in-memory list of task dictionaries that is loaded from and saved to
    [tasks.json].  The embedding follows the file top-down, after what it
    takes from Python:

    - text: a [str] as a list of code points, with [strip] and [repr];
    - the [json] module: the values it builds, [json.dump(.., indent=2)]
      and [json.load];
    - the file [tasks.json] and the UTF-8 codec it is opened with;
    - the Unicode character database behind [str.isdigit] and [int];
    - [datetime.strptime] and [strftime] for the format [%Y-%m-%d];
    - the terminal (lines typed, text printed) and the file as an explicit
      world, threaded through a state-and-exception monad;
    - the functions of the program, under their own names.

    Characters are written by their codes.  The ones that matter: 9 the
    tab, 10 the line feed, 13 the carriage return, 32 the space, 34 the
    double quote, 44 the comma, 45 the minus sign, 46 the dot, 47 the
    slash, 48 to 57 the digits, 58 the colon, 61 the equals sign, 91 and
    93 the square brackets, 92 the backslash, 117 the letter u, 123 and
    125 the braces, 178 the superscript two. *)

From Stdlib Require Import ZArith NArith List String Ascii Bool Lia Sorted.
From Stdlib Require Import Decimal.
From Stdlib Require DecimalFacts DecimalPos DecimalN.
Import ListNotations.

Set Warnings "-register-all".

(* ================================================================= *)
(** ** Text *)

(** A Python [str] is a sequence of code points (0 .. 0x10FFFF, lone
    surrogates included).  [u] reads a literal of this file as such a
    sequence, one code point per character. *)
Definition str := list N.

Fixpoint u (s : string) : str :=
  match s with
  | EmptyString => []
  | String a r => N_of_ascii a :: u r
  end.

Fixpoint str_eqb (a b : str) : bool :=
  match a, b with
  | [], [] => true
  | x :: a', y :: b' => N.eqb x y && str_eqb a' b'
  | _, _ => false
  end.

Local Open Scope N_scope.

Definition in_range (lo hi c : N) : bool := (lo <=? c) && (c <=? hi).

(** [str.isspace] for one code point: the characters [str.strip()] removes. *)
Definition py_isspace (c : N) : bool :=
  in_range 9 13 c || in_range 28 32 c || (c =? 133) || (c =? 160)
  || (c =? 5760) || in_range 8192 8202 c || (c =? 8232) || (c =? 8233)
  || (c =? 8239) || (c =? 8287) || (c =? 12288).

Fixpoint lstrip (s : str) : str :=
  match s with
  | c :: r => if py_isspace c then lstrip r else s
  | [] => []
  end.

Definition rstrip (s : str) : str := List.rev (lstrip (List.rev s)).
Definition strip (s : str) : str := rstrip (lstrip s).

Definition is_some {A} (o : option A) : bool :=
  match o with Some _ => true | None => false end.

(** Decimal numerals, through the digit lists of the standard library. *)
Definition digit_char (d : N) : N := 48 + d.

Fixpoint chars_of_uint (d : uint) : str :=
  match d with
  | Nil => []
  | D0 r => digit_char 0 :: chars_of_uint r
  | D1 r => digit_char 1 :: chars_of_uint r
  | D2 r => digit_char 2 :: chars_of_uint r
  | D3 r => digit_char 3 :: chars_of_uint r
  | D4 r => digit_char 4 :: chars_of_uint r
  | D5 r => digit_char 5 :: chars_of_uint r
  | D6 r => digit_char 6 :: chars_of_uint r
  | D7 r => digit_char 7 :: chars_of_uint r
  | D8 r => digit_char 8 :: chars_of_uint r
  | D9 r => digit_char 9 :: chars_of_uint r
  end.

(** [repr] of a non-negative and of an arbitrary Python [int]. *)
Definition repr_nat (n : N) : str := chars_of_uint (N.to_uint n).

Definition repr_int (z : Z) : str :=
  match z with
  | Z0 => repr_nat 0
  | Zpos p => repr_nat (Npos p)
  | Zneg p => 45 :: repr_nat (Npos p)
  end.

(** The value of a run of ASCII digits, most significant first. *)
Fixpoint ascii_value (acc : N) (s : str) : N :=
  match s with
  | [] => acc
  | c :: r => ascii_value (10 * acc + (c - 48)) r
  end.

(* ================================================================= *)
(** ** The [json] module *)

(** What [json.load] can build.  A [float] is kept as the literal that
    denotes it ([float(lit)]); nothing below computes with floats. *)
Inductive value : Type :=
| VNone
| VBool (b : bool)
| VInt (z : Z)
| VFloat (lit : str)
| VStr (s : str)
| VList (l : list value)
| VDict (d : list (str * value)).

(** *** Encoding: [json.dump(obj, f, indent=2)] *)

Definition hex_digit (n : N) : N := if n <? 10 then 48 + n else 87 + n.

Definition hex4 (n : N) : str :=
  [hex_digit ((n / 4096) mod 16); hex_digit ((n / 256) mod 16);
   hex_digit ((n / 16) mod 16); hex_digit (n mod 16)].

Definition u_escape (n : N) : str := 92 :: 117 :: hex4 n.

(** [py_encode_basestring_ascii], one character ([ensure_ascii] is on). *)
Definition encode_char (c : N) : str :=
  if c =? 34 then [92; 34]
  else if c =? 92 then [92; 92]
  else if c =? 10 then [92; 110]
  else if c =? 13 then [92; 114]
  else if c =? 9 then [92; 116]
  else if c =? 12 then [92; 102]
  else if c =? 8 then [92; 98]
  else if in_range 32 126 c then [c]
  else if c <? 65536 then u_escape c
  else
    let n := c - 65536 in
    u_escape (N.lor 55296 (N.land (N.shiftr n 10) 1023))
    ++ u_escape (N.lor 56320 (N.land n 1023)).

Definition encode_string (s : str) : str :=
  34 :: flat_map encode_char s ++ [34].

Definition newline_indent (lvl : nat) : str := 10 :: repeat 32 (2 * lvl)%nat.

Fixpoint join (sep : str) (l : list str) : str :=
  match l with
  | [] => []
  | x :: r => x ++ match r with [] => [] | _ => sep ++ join sep r end
  end.

Fixpoint dump (lvl : nat) (v : value) : str :=
  match v with
  | VNone => u "null"
  | VBool true => u "true"
  | VBool false => u "false"
  | VInt z => repr_int z
  | VFloat lit => lit
  | VStr s => encode_string s
  | VList [] => u "[]"
  | VList l =>
      91 :: newline_indent (S lvl)
      ++ join (44 :: newline_indent (S lvl)) (map (dump (S lvl)) l)
      ++ newline_indent lvl ++ [93]
  | VDict [] => u "{}"
  | VDict d =>
      123 :: newline_indent (S lvl)
      ++ join (44 :: newline_indent (S lvl))
           (map (fun kv => encode_string (fst kv) ++ [58; 32]
                           ++ dump (S lvl) (snd kv)) d)
      ++ newline_indent lvl ++ [125]
  end.

Definition json_dumps (v : value) : str := dump 0 v.

(** *** Decoding: [json.load], the C scanner

    The limits of the interpreter on the depth of nesting and on the
    number of digits of an integer are not part of the model: the scanner
    raises [RecursionError] on brackets nested about a thousand deep, and
    [int] raises [ValueError] on more than 4300 digits.  What is stated of
    all the texts a file may hold carries [within_json_limits], which keeps
    the text away from both. *)

Definition json_ws (c : N) : bool :=
  (c =? 32) || (c =? 9) || (c =? 10) || (c =? 13).

Fixpoint skip_ws (s : str) : str :=
  match s with
  | c :: r => if json_ws c then skip_ws r else s
  | [] => []
  end.

Definition hex_val (c : N) : option N :=
  if in_range 48 57 c then Some (c - 48)
  else if in_range 97 102 c then Some (c - 87)
  else if in_range 65 70 c then Some (c - 55)
  else None.

Definition hex4_val (a b c d : N) : option N :=
  match hex_val a, hex_val b, hex_val c, hex_val d with
  | Some x, Some y, Some z, Some w => Some (((x * 16 + y) * 16 + z) * 16 + w)
  | _, _, _, _ => None
  end.

Definition is_high_surrogate (c : N) : bool := in_range 55296 56319 c.
Definition is_low_surrogate (c : N) : bool := in_range 56320 57343 c.

Definition join_surrogates (h l : N) : N :=
  65536 + N.lor (N.shiftl (h - 55296) 10) (l - 56320).

Definition unescape (e : N) : option N :=
  if e =? 34 then Some 34
  else if e =? 92 then Some 92
  else if e =? 47 then Some 47
  else if e =? 98 then Some 8
  else if e =? 102 then Some 12
  else if e =? 110 then Some 10
  else if e =? 114 then Some 13
  else if e =? 116 then Some 9
  else None.

Definition cons_fst {A B} (x : A) (o : option (list A * B)) :
  option (list A * B) :=
  match o with
  | Some (t, r) => Some (x :: t, r)
  | None => None
  end.

(** [scanstring] (strict): the input starts just after the opening quote;
    the result is the string and what follows the closing quote. *)
Fixpoint scanstring (s : str) : option (str * str) :=
  match s with
  | [] => None
  | c :: r =>
      if c =? 34 then Some ([], r)
      else if c =? 92 then
        match r with
        | [] => None
        | e :: r1 =>
            if e =? 117 then
              match r1 with
              | a :: b :: c' :: d :: r2 =>
                  match hex4_val a b c' d with
                  | None => None
                  | Some h =>
                      if is_high_surrogate h then
                        match r2 with
                        | b1 :: b2 :: x1 :: x2 :: x3 :: x4 :: r3 =>
                            if (b1 =? 92) && (b2 =? 117) then
                              match hex4_val x1 x2 x3 x4 with
                              | None => None
                              | Some l =>
                                  if is_low_surrogate l
                                  then cons_fst (join_surrogates h l)
                                         (scanstring r3)
                                  else cons_fst h (scanstring r2)
                              end
                            else cons_fst h (scanstring r2)
                        | _ => cons_fst h (scanstring r2)
                        end
                      else cons_fst h (scanstring r2)
                  end
              | _ => None
              end
            else
              match unescape e with
              | Some x => cons_fst x (scanstring r1)
              | None => None
              end
        end
      else if c <=? 31 then None
      else cons_fst c (scanstring r)
  end.

Definition is_digit09 (c : N) : bool := in_range 48 57 c.

Fixpoint take_digits (s : str) : str * str :=
  match s with
  | c :: r =>
      if is_digit09 c
      then let (d, r') := take_digits r in (c :: d, r')
      else ([], s)
  | [] => ([], [])
  end.

Fixpoint strip_prefix (p s : str) : option str :=
  match p, s with
  | [], _ => Some s
  | x :: p', y :: s' => if x =? y then strip_prefix p' s' else None
  | _ :: _, [] => None
  end.

(** The fraction and the exponent of a number, each possibly empty. *)
Definition take_frac (s : str) : str * str :=
  match s with
  | dot :: d :: r =>
      if (dot =? 46) && is_digit09 d
      then let (ds, r') := take_digits r in (dot :: d :: ds, r')
      else ([], s)
  | _ => ([], s)
  end.

Definition take_exp (s : str) : str * str :=
  match s with
  | e :: r =>
      if (e =? 101) || (e =? 69) then
        let (sign, r1) :=
          match r with
          | sg :: t => if (sg =? 45) || (sg =? 43) then ([sg], t) else ([], r)
          | [] => ([], r)
          end in
        let (ds, r2) := take_digits r1 in
        match ds with
        | [] => ([], s)
        | _ => (e :: sign ++ ds, r2)
        end
      else ([], s)
  | [] => ([], s)
  end.

Definition int_of_digits (neg : bool) (ds : str) : Z :=
  if neg then (- Z.of_N (ascii_value 0 ds))%Z else Z.of_N (ascii_value 0 ds).

(** [_match_number_unicode]: an optional minus sign, then a zero or a run
    of ASCII digits that starts with a non-zero one, then an optional
    fraction (a dot and digits) and an optional exponent (e or E, a sign,
    digits).  An [int] without fraction and exponent, a [float] otherwise. *)
Definition match_number (s : str) : option (value * str) :=
  let (neg, r) :=
    match s with
    | c :: r => if c =? 45 then (true, r) else (false, s)
    | [] => (false, s)
    end in
  let sign := if neg then [45] else [] in
  match r with
  | [] => None
  | c :: r1 =>
      let ipart :=
        if in_range 49 57 c
        then let (ds, r2) := take_digits r1 in Some (c :: ds, r2)
        else if c =? 48 then Some ([c], r1)
        else None in
      match ipart with
      | None => None
      | Some (ids, r2) =>
          let (frac, r3) := take_frac r2 in
          let (ex, r4) := take_exp r3 in
          match frac, ex with
          | [], [] => Some (VInt (int_of_digits neg ids), r4)
          | _, _ => Some (VFloat (sign ++ ids ++ frac ++ ex), r4)
          end
      end
  end.

Definition try_literal (lit : string) (v : value) (s : str) :
  option (value * str) :=
  match strip_prefix (u lit) s with
  | Some r => Some (v, r)
  | None => None
  end.

(** Item assignment [d[k] = v] on a dictionary kept in insertion order. *)
Fixpoint dict_set (k : str) (v : value) (d : list (str * value)) :
  list (str * value) :=
  match d with
  | [] => [(k, v)]
  | (k', v') :: r =>
      if str_eqb k k' then (k', v) :: r else (k', v') :: dict_set k v r
  end.

Definition dict_of_pairs (ps : list (str * value)) : list (str * value) :=
  fold_left (fun d kv => dict_set (fst kv) (snd kv) d) ps [].

(** [scan_once] with its two loops, [_parse_array] and [_parse_object].
    The recursion is on a counter; [json_loads] starts it high enough for
    the whole input (see [parse_value_fuel]). *)
Fixpoint parse_value (fuel : nat) (s : str) {struct fuel} :
  option (value * str) :=
  match fuel with
  | O => None
  | S f =>
      match s with
      | [] => None
      | c :: r =>
          if c =? 34 then
            match scanstring r with
            | Some (t, r') => Some (VStr t, r')
            | None => None
            end
          else if c =? 123 then
            match skip_ws r with
            | c1 :: r1 =>
                if c1 =? 125 then Some (VDict [], r1)
                else if c1 =? 34 then
                  match parse_members f r1 with
                  | Some (ps, r2) => Some (VDict (dict_of_pairs ps), r2)
                  | None => None
                  end
                else None
            | [] => None
            end
          else if c =? 91 then
            match skip_ws r with
            | c1 :: r1 =>
                if c1 =? 93 then Some (VList [], r1)
                else
                  match parse_elements f (c1 :: r1) with
                  | Some (vs, r2) => Some (VList vs, r2)
                  | None => None
                  end
            | [] => None
            end
          else if c =? 110 then try_literal "null" VNone s
          else if c =? 116 then try_literal "true" (VBool true) s
          else if c =? 102 then try_literal "false" (VBool false) s
          else if c =? 78 then try_literal "NaN" (VFloat (u "NaN")) s
          else if c =? 73 then
            try_literal "Infinity" (VFloat (u "Infinity")) s
          else
            match try_literal "-Infinity" (VFloat (u "-Infinity")) s with
            | Some x => Some x
            | None => match_number s
            end
      end
  end

with parse_elements (fuel : nat) (s : str) {struct fuel} :
  option (list value * str) :=
  match fuel with
  | O => None
  | S f =>
      match parse_value f s with
      | None => None
      | Some (v, r) =>
          match skip_ws r with
          | c :: r1 =>
              if c =? 93 then Some ([v], r1)
              else if c =? 44 then cons_fst v (parse_elements f (skip_ws r1))
              else None
          | [] => None
          end
      end
  end

with parse_members (fuel : nat) (s : str) {struct fuel} :
  option (list (str * value) * str) :=
  match fuel with
  | O => None
  | S f =>
      match scanstring s with
      | None => None
      | Some (k, r) =>
          match skip_ws r with
          | c :: r1 =>
              if c =? 58 then
                match parse_value f (skip_ws r1) with
                | None => None
                | Some (v, r2) =>
                    match skip_ws r2 with
                    | c2 :: r3 =>
                        if c2 =? 125 then Some ([(k, v)], r3)
                        else if c2 =? 44 then
                          match skip_ws r3 with
                          | q :: r4 =>
                              if q =? 34
                              then cons_fst (k, v) (parse_members f r4)
                              else None
                          | [] => None
                          end
                        else None
                    | [] => None
                    end
                end
              else None
          | [] => None
          end
      end
  end.

Definition parse_fuel (s : str) : nat := (2 * List.length s + 2)%nat.

(** [json.loads]: one value between optional white space, nothing after;
    [None] stands for [JSONDecodeError]. *)
Definition json_loads (s : str) : option value :=
  match parse_value (parse_fuel s) (skip_ws s) with
  | Some (v, r) =>
      match skip_ws r with
      | [] => Some v
      | _ :: _ => None
      end
  | None => None
  end.

(* ================================================================= *)
(** ** The file [tasks.json] and its codec *)

(** The bytes of a file are numbers below 256.  [utf8_decode] is the strict
    decoder ([None] stands for [UnicodeDecodeError]): shortest forms only,
    no surrogates, nothing above U+10FFFF. *)
Definition is_cont (b : N) : bool := in_range 128 191 b.

Fixpoint utf8_decode (bs : list N) : option str :=
  match bs with
  | [] => Some []
  | b0 :: r0 =>
      if b0 <? 128 then option_map (cons b0) (utf8_decode r0)
      else if in_range 194 223 b0 then
        match r0 with
        | b1 :: r1 =>
            if is_cont b1
            then option_map (cons ((b0 - 192) * 64 + (b1 - 128)))
                   (utf8_decode r1)
            else None
        | _ => None
        end
      else if in_range 224 239 b0 then
        match r0 with
        | b1 :: b2 :: r2 =>
            let c := (b0 - 224) * 4096 + (b1 - 128) * 64 + (b2 - 128) in
            if is_cont b1 && is_cont b2 && (2048 <=? c)
               && negb (in_range 55296 57343 c)
            then option_map (cons c) (utf8_decode r2)
            else None
        | _ => None
        end
      else if in_range 240 244 b0 then
        match r0 with
        | b1 :: b2 :: b3 :: r3 =>
            let c := (b0 - 240) * 262144 + (b1 - 128) * 4096
                     + (b2 - 128) * 64 + (b3 - 128) in
            if is_cont b1 && is_cont b2 && is_cont b3
               && in_range 65536 1114111 c
            then option_map (cons c) (utf8_decode r3)
            else None
        | _ => None
        end
      else None
  end.

(** The encoder; [None] stands for [UnicodeEncodeError] (a surrogate, or
    no code point at all). *)
Definition utf8_encode_char (c : N) : option (list N) :=
  if c <? 128 then Some [c]
  else if c <? 2048 then Some [192 + c / 64; 128 + c mod 64]
  else if in_range 55296 57343 c then None
  else if c <? 65536 then
    Some [224 + c / 4096; 128 + (c / 64) mod 64; 128 + c mod 64]
  else if c <=? 1114111 then
    Some [240 + c / 262144; 128 + (c / 4096) mod 64;
          128 + (c / 64) mod 64; 128 + c mod 64]
  else None.

Fixpoint utf8_encode (s : str) : option (list N) :=
  match s with
  | [] => Some []
  | c :: r =>
      match utf8_encode_char c, utf8_encode r with
      | Some x, Some y => Some (x ++ y)
      | _, _ => None
      end
  end.

(** Reading in text mode translates the line ends [\r\n] and [\r] into
    [\n]; writing leaves [\n] as it is (POSIX). *)
Fixpoint universal_newlines (s : str) : str :=
  match s with
  | [] => []
  | c :: r =>
      if c =? 13 then
        10 :: match r with
              | c' :: r' => if c' =? 10 then universal_newlines r'
                            else universal_newlines r
              | [] => []
              end
      else c :: universal_newlines r
  end.

(** [DATA_FILE] on disk: not there, there but impossible to open (a
    directory, a file without permission), or there with its bytes. *)
Inductive file : Type :=
| Absent
| Unreadable
| Content (bytes : list N).

(* ================================================================= *)
(** ** The Unicode character database *)

(** [str.isdigit], [int] and the [\d] of [re] look characters up in the
    Unicode character database of the interpreter.  Its rows for the Basic
    Latin and Latin-1 blocks are the same in every version and are written
    out below: the ASCII digits are decimal, and the superscripts U+00B2,
    U+00B3 and U+00B9 are digits without being decimal.  The rows of the
    other blocks change with the version of Unicode; they are a parameter
    of what follows: the decimal value of a character of category Nd, and
    the value of a character that has the digit property without being
    decimal. *)
Class unicode_db : Type := {
  other_decimal : N -> option N;
  other_digit : N -> option N
}.

(** The database without other rows, for the examples. *)
Definition latin1_only : unicode_db :=
  {| other_decimal := fun _ => None; other_digit := fun _ => None |}.

(** [Py_UNICODE_TODECIMAL]: what [int()] and [\d] accept. *)
Definition unicode_decimal {db : unicode_db} (c : N) : option N :=
  if c <? 256 then (if in_range 48 57 c then Some (c - 48) else None)
  else other_decimal c.

(** [Py_UNICODE_TODIGIT]: what [str.isdigit] accepts. *)
Definition unicode_digit {db : unicode_db} (c : N) : option N :=
  match unicode_decimal c with
  | Some d => Some d
  | None =>
      if c <? 256 then
        (if c =? 178 then Some 2
         else if c =? 179 then Some 3
         else if c =? 185 then Some 1
         else None)
      else other_digit c
  end.

(** [str.isdigit]: at least one character, and all of them digits. *)
Definition isdigit {db : unicode_db} (s : str) : bool :=
  match s with
  | [] => false
  | _ => forallb (fun c => is_some (unicode_digit c)) s
  end.

(** The value of a run of decimal characters, most significant first;
    [None] when a character is not decimal. *)
Fixpoint decimal_value {db : unicode_db} (acc : N) (s : str) : option N :=
  match s with
  | [] => Some acc
  | c :: r =>
      match unicode_decimal c with
      | Some d => decimal_value (10 * acc + d) r
      | None => None
      end
  end.

(* ================================================================= *)
(** ** [datetime] for the format [%Y-%m-%d] *)

Record date : Type := mkdate { year : N; month : N; day : N }.

Definition is_leap (y : N) : bool :=
  (y mod 4 =? 0) && (negb (y mod 100 =? 0) || (y mod 400 =? 0)).

Definition days_in_month (y m : N) : N :=
  if m =? 2 then (if is_leap y then 29 else 28)
  else if (m =? 4) || (m =? 6) || (m =? 9) || (m =? 11) then 30
  else 31.

(** The month of the compiled format: [1[0-2]|0[1-9]|[1-9]], then the dash.
    The alternatives are tried in this order; the result is the month and
    what follows the dash. *)
Definition scan_month (s : str) : option (N * str) :=
  let two :=
    match s with
    | m1 :: m2 :: dash :: r =>
        if (((m1 =? 49) && in_range 48 50 m2)
            || ((m1 =? 48) && in_range 49 57 m2)) && (dash =? 45)
        then Some ((m1 - 48) * 10 + (m2 - 48), r)
        else None
    | _ => None
    end in
  match two with
  | Some x => Some x
  | None =>
      match s with
      | m1 :: dash :: r =>
          if in_range 49 57 m1 && (dash =? 45) then Some (m1 - 48, r)
          else None
      | _ => None
      end
  end.

(** The day: [3[01]|[12]\d|0[1-9]|[1-9]| [1-9]], the first alternative that
    matches; the result is the day and the unconverted rest. *)
Definition scan_day {db : unicode_db} (s : str) : option (N * str) :=
  let two :=
    match s with
    | d1 :: d2 :: r =>
        if (d1 =? 51) && in_range 48 49 d2 then Some (30 + (d2 - 48), r)
        else if in_range 49 50 d1 then
          match unicode_decimal d2 with
          | Some v => Some ((d1 - 48) * 10 + v, r)
          | None => None
          end
        else if (d1 =? 48) && in_range 49 57 d2 then Some (d2 - 48, r)
        else None
    | _ => None
    end in
  match two with
  | Some x => Some x
  | None =>
      match s with
      | d1 :: r =>
          if in_range 49 57 d1 then Some (d1 - 48, r)
          else
            match r with
            | d2 :: r' =>
                if (d1 =? 32) && in_range 49 57 d2 then Some (d2 - 48, r')
                else None
            | [] => None
            end
      | [] => None
      end
  end.

(** [datetime.strptime(raw, "%Y-%m-%d")]; [None] stands for [ValueError]:
    no match, unconverted data, or a date that does not exist. *)
Definition strptime {db : unicode_db} (raw : str) : option date :=
  match raw with
  | y1 :: y2 :: y3 :: y4 :: dash :: r =>
      match decimal_value 0 [y1; y2; y3; y4] with
      | Some y =>
          if dash =? 45 then
            match scan_month r with
            | Some (m, r1) =>
                match scan_day r1 with
                | Some (d, []) =>
                    if (1 <=? y) && (d <=? days_in_month y m)
                    then Some (mkdate y m d)
                    else None
                | _ => None
                end
            | None => None
            end
          else None
      | None => None
      end
  | _ => None
  end.

(** Two and four digits with leading zeros, for a month or day below 100
    and a year below 10000. *)
Definition pad2 (n : N) : str := [48 + n / 10; 48 + n mod 10].

Definition pad4 (n : N) : str :=
  [48 + n / 1000; 48 + (n / 100) mod 10; 48 + (n / 10) mod 10; 48 + n mod 10].

(** [dt.strftime("%Y-%m-%d")].  The year is written on four digits, as the
    library documents it; the C library of some platforms leaves out the
    leading zeros of a year below 1000 (999-01-01 for the year 999).  From
    the year 1000 on all platforms write the same text: what is stated of
    the text [read_optional_date] returns is stated for these years. *)
Definition strftime (dt : date) : str :=
  pad4 (year dt) ++ [45] ++ pad2 (month dt) ++ [45] ++ pad2 (day dt).

(* ================================================================= *)
(** ** The terminal and the monad of the program *)

Inductive exn : Type :=
| EOFError
| ValueError
| OSError
| IndexError
| UnicodeDecodeError
| UnicodeEncodeError
| Untyped.

Inductive event : Type :=
| EvPrompt (s : str)
| EvPrint (s : str)
| EvWrite (bytes : list N).

(** The lines still to be typed, what the run has done so far (prompts
    shown, lines printed, writes of the file: oldest first), and the file. *)
Record world : Type := mkworld {
  stdin : list str;
  trace : list event;
  disk : file
}.

Inductive res (A : Type) : Type :=
| Ok (a : A)
| Raise (e : exn).
Arguments Ok {A} a.
Arguments Raise {A} e.

Definition M (A : Type) : Type := world -> res A * world.

Definition ret {A} (a : A) : M A := fun w => (Ok a, w).

Definition bind {A B} (m : M A) (k : A -> M B) : M B :=
  fun w =>
    match m w with
    | (Ok a, w') => k a w'
    | (Raise e, w') => (Raise e, w')
    end.

Definition raise {A} (e : exn) : M A := fun w => (Raise e, w).

Notation "x <- m ;; k" := (bind m (fun x => k))
  (at level 61, m at next level, right associativity).
Notation "m ;;; k" := (bind m (fun _ => k))
  (at level 61, right associativity).

Definition emit (e : event) (w : world) : world :=
  mkworld (stdin w) (trace w ++ [e]) (disk w).

(** [print(s)] *)
Definition print (s : str) : M unit := fun w => (Ok tt, emit (EvPrint s) w).

(** [input(prompt)]: shows the prompt and takes the next line; at the end
    of the input it raises [EOFError]. *)
Definition input (prompt : str) : M str :=
  fun w =>
    let w1 := emit (EvPrompt prompt) w in
    match stdin w1 with
    | [] => (Raise EOFError, w1)
    | l :: r => (Ok l, mkworld r (trace w1) (disk w1))
    end.

(** One turn of a [while True:] loop around an [input]: return a value,
    print a message and go round again, or let an exception out. *)
Inductive verdict (A : Type) : Type :=
| Accept (a : A)
| Reject (msg : str)
| Fail (e : exn).
Arguments Accept {A} a.
Arguments Reject {A} msg.
Arguments Fail {A} e.

(** [while True: raw = input(prompt) ...], by recursion on the lines to
    come: the result, the lines left and the events of the loop. *)
Fixpoint while_input {A} (prompt : str) (body : str -> verdict A)
  (lines : list str) : res A * list str * list event :=
  match lines with
  | [] => (Raise EOFError, [], [EvPrompt prompt])
  | l :: r =>
      match body l with
      | Accept a => (Ok a, r, [EvPrompt prompt])
      | Fail e => (Raise e, r, [EvPrompt prompt])
      | Reject msg =>
          let '(x, r', evs) := while_input prompt body r in
          (x, r', EvPrompt prompt :: EvPrint msg :: evs)
      end
  end.

Definition loop_input {A} (prompt : str) (body : str -> verdict A) : M A :=
  fun w =>
    let '(x, r, evs) := while_input prompt body (stdin w) in
    (x, mkworld r (trace w ++ evs) (disk w)).

(* ================================================================= *)
(** ** The program *)

(** A task dictionary, with the four keys [add_task] gives it. *)
Record task : Type := mktask {
  id : Z;
  title : str;
  due_date : option str;
  is_complete : bool
}.

Definition value_of_task (t : task) : value :=
  VDict [(u "id", VInt (id t));
         (u "title", VStr (title t));
         (u "due_date", match due_date t with
                        | Some d => VStr d
                        | None => VNone
                        end);
         (u "is_complete", VBool (is_complete t))].

Definition value_of_tasks (tasks : list task) : value :=
  VList (map value_of_task tasks).

(** The way back, for the values that are lists of such dictionaries. *)
Definition task_of_value (v : value) : option task :=
  match v with
  | VDict [(k1, VInt i); (k2, VStr t); (k3, d); (k4, VBool b)] =>
      if str_eqb k1 (u "id") && str_eqb k2 (u "title")
         && str_eqb k3 (u "due_date") && str_eqb k4 (u "is_complete")
      then
        match d with
        | VNone => Some (mktask i t None b)
        | VStr s => Some (mktask i t (Some s) b)
        | _ => None
        end
      else None
  | _ => None
  end.

Fixpoint tasks_of_values (l : list value) : option (list task) :=
  match l with
  | [] => Some []
  | v :: r =>
      match task_of_value v, tasks_of_values r with
      | Some t, Some ts => Some (t :: ts)
      | _, _ => None
      end
  end.

Definition tasks_of_value (v : value) : option (list task) :=
  match v with
  | VList l => tasks_of_values l
  | _ => None
  end.

(** *** Data helpers *)

(** [load_tasks]: what it returns is whatever [json.load] built. *)
Definition load_tasks : M value :=
  fun w =>
    match disk w with
    | Absent => (Ok (VList []), w)
    | Unreadable => (Ok (VList []), w)
    | Content bs =>
        match utf8_decode bs with
        | None => (Raise UnicodeDecodeError, w)
        | Some text =>
            match json_loads (universal_newlines text) with
            | Some v => (Ok v, w)
            | None => (Ok (VList []), w)
            end
        end
    end.

(** [save_tasks].  The one failure that is modelled is the file that
    cannot be opened.  [json.dump] itself raises [ValueError] on an id of
    more than 4300 digits, after the file has been emptied: what is stated
    of a save that is not assumed to have returned carries
    [ids_within_limit]. *)
Definition save_tasks (tasks : list task) : M unit :=
  fun w =>
    match disk w with
    | Unreadable => (Raise OSError, w)
    | _ =>
        match utf8_encode (json_dumps (value_of_tasks tasks)) with
        | Some bs =>
            (Ok tt, mkworld (stdin w) (trace w ++ [EvWrite bs]) (Content bs))
        | None =>
            (Raise UnicodeEncodeError, mkworld (stdin w) (trace w) (Content []))
        end
    end.

Definition next_task_id (tasks : list task) : Z :=
  match tasks with
  | [] => 1%Z
  | t :: r => (fold_left Z.max (map id r) (id t) + 1)%Z
  end.

(** *** Input helpers *)

(** [int(raw)] for a [raw] that passed [isdigit], and that is within the
    limit of [int] on the number of digits (see [within_limit]). *)
Definition py_int {db : unicode_db} (raw : str) : option Z :=
  option_map Z.of_N (decimal_value 0 raw).

Definition read_int {db : unicode_db} (prompt : str) (min_value max_value : Z) : M Z :=
  loop_input prompt (fun line =>
    let raw := strip line in
    let again := Reject (u "Please enter a number between "
                         ++ repr_int min_value ++ u " and "
                         ++ repr_int max_value ++ u ".") in
    if isdigit raw then
      match py_int raw with
      | None => Fail ValueError
      | Some value =>
          if (min_value <=? value)%Z && (value <=? max_value)%Z
          then Accept value
          else again
      end
    else again).

Definition read_non_empty (prompt : str) : M str :=
  loop_input prompt (fun line =>
    let text := strip line in
    match text with
    | _ :: _ => Accept text
    | [] => Reject (u "This field cannot be blank. Try again.")
    end).

Definition read_optional_date {db : unicode_db} (prompt : str) : M (option str) :=
  loop_input prompt (fun line =>
    let raw := strip line in
    match raw with
    | [] => Accept None
    | _ :: _ =>
        match strptime raw with
        | Some dt => Accept (Some (strftime dt))
        | None =>
            Reject (u "Invalid date. Use YYYY-MM-DD (example: 2026-01-16) or press Enter to skip.")
        end
    end).

Definition pause_message : str := u "Press Enter to continue...".

Definition pause (message : str) : M unit :=
  input (10 :: message) ;;; ret tt.

(** *** Display helpers *)

Definition print_header (title : str) : M unit :=
  print (10 :: repeat 61 40) ;;;
  print title ;;;
  print (repeat 61 40 ++ [10]).

Definition task_line (index : nat) (t : task) : str :=
  let status := if is_complete t then u "[X]" else u "[ ]" in
  let due := match due_date t with
             | Some (c :: d) => u " (Due: " ++ (c :: d) ++ u ")"
             | _ => []
             end in
  repr_nat (N.of_nat index) ++ u ". " ++ status ++ u " " ++ title t ++ due.

Fixpoint print_lines (index : nat) (tasks : list task) : M unit :=
  match tasks with
  | [] => ret tt
  | t :: r => print (task_line index t) ;;; print_lines (S index) r
  end.

Definition list_tasks (tasks : list task) : M unit :=
  print_header (u "YOUR TASKS") ;;;
  match tasks with
  | [] => print (u "No tasks yet. Add one from the menu!")
  | _ => print_lines 1 tasks
  end.

(** *** Menu actions *)

(** The list is the one object all actions work on; each action returns
    it as it has left it. *)
Definition add_task {db : unicode_db} (tasks : list task) : M (list task) :=
  print_header (u "ADD A TASK") ;;;
  title <- read_non_empty (u "Task title: ") ;;
  due_date <- read_optional_date
                (u "Due date (YYYY-MM-DD) or press Enter to skip: ") ;;
  let task := mktask (next_task_id tasks) title due_date false in
  let tasks := tasks ++ [task] in
  save_tasks tasks ;;;
  print (u "Task added and saved!") ;;;
  ret tasks.

(** [tasks[i]["is_complete"] = True] *)
Fixpoint set_complete (i : nat) (tasks : list task) : option (list task) :=
  match tasks, i with
  | [], _ => None
  | t :: r, O => Some (mktask (id t) (title t) (due_date t) true :: r)
  | t :: r, S j => option_map (cons t) (set_complete j r)
  end.

(** [tasks.pop(i)]: the element taken out and the list left. *)
Fixpoint pop (i : nat) (tasks : list task) : option (task * list task) :=
  match tasks, i with
  | [], _ => None
  | t :: r, O => Some (t, r)
  | t :: r, S j =>
      match pop j r with
      | Some (x, r') => Some (x, t :: r')
      | None => None
      end
  end.

Definition index_of (choice : Z) : nat := Z.to_nat (choice - 1).

Definition mark_complete {db : unicode_db} (tasks : list task) : M (list task) :=
  print_header (u "MARK TASK COMPLETE") ;;;
  match tasks with
  | [] => print (u "No tasks to mark complete.") ;;; ret tasks
  | _ =>
      list_tasks tasks ;;;
      choice <- read_int (10 :: u "Enter the task number to mark complete: ")
                  1 (Z.of_nat (List.length tasks)) ;;
      match set_complete (index_of choice) tasks with
      | None => raise IndexError
      | Some tasks =>
          save_tasks tasks ;;;
          print (u "Task marked complete and saved!") ;;;
          ret tasks
      end
  end.

Definition delete_task {db : unicode_db} (tasks : list task) : M (list task) :=
  print_header (u "DELETE A TASK") ;;;
  match tasks with
  | [] => print (u "No tasks to delete.") ;;; ret tasks
  | _ =>
      list_tasks tasks ;;;
      choice <- read_int (10 :: u "Enter the task number to delete: ")
                  1 (Z.of_nat (List.length tasks)) ;;
      match pop (index_of choice) tasks with
      | None => raise IndexError
      | Some (deleted, tasks) =>
          save_tasks tasks ;;;
          print (u "Deleted: " ++ title deleted) ;;;
          ret tasks
      end
  end.

(** *** Main program *)

Definition print_menu : M unit :=
  print_header (u "TASK TRACKER (PYTHON)") ;;;
  print (u "1) List tasks") ;;;
  print (u "2) Add a task") ;;;
  print (u "3) Mark task as complete") ;;;
  print (u "4) Delete a task") ;;;
  print (u "5) Save") ;;;
  print (u "6) Exit").

(** The [if]/[elif] chain of [main] on the option chosen: [Some tasks] to
    go round the loop again, [None] after the [break]. *)
Definition dispatch {db : unicode_db} (tasks : list task) (choice : Z) :
  M (option (list task)) :=
  if (choice =? 1)%Z then
    list_tasks tasks ;;; pause pause_message ;;; ret (Some tasks)
  else if (choice =? 2)%Z then
    tasks <- add_task tasks ;; pause pause_message ;;; ret (Some tasks)
  else if (choice =? 3)%Z then
    tasks <- mark_complete tasks ;; pause pause_message ;;; ret (Some tasks)
  else if (choice =? 4)%Z then
    tasks <- delete_task tasks ;; pause pause_message ;;; ret (Some tasks)
  else if (choice =? 5)%Z then
    save_tasks tasks ;;; print (u "Saved!") ;;;
    pause pause_message ;;; ret (Some tasks)
  else if (choice =? 6)%Z then
    save_tasks tasks ;;; print (u "Goodbye!") ;;; ret None
  else ret (Some tasks).

(** One turn of the [while True:] of [main]. *)
Definition iteration {db : unicode_db} (tasks : list task) : M (option (list task)) :=
  print_menu ;;;
  choice <- read_int (10 :: u "Choose an option (1-6): ") 1 6 ;;
  dispatch tasks choice.

(** At most [n] turns of the loop. *)
Fixpoint iterate {db : unicode_db} (n : nat) (tasks : list task) : M (option (list task)) :=
  match n with
  | O => ret (Some tasks)
  | S k =>
      r <- iteration tasks ;;
      match r with
      | Some tasks' => iterate k tasks'
      | None => ret None
      end
  end.

(** The loop of [main].  Every turn takes at least one line, so one turn
    more than there are lines is enough for it to end, by [break] or by an
    exception (see [main_loop_ends]). *)
Definition main_loop {db : unicode_db} (tasks : list task) : M unit :=
  fun w =>
    match iterate (S (List.length (stdin w))) tasks w with
    | (Ok _, w') => (Ok tt, w')
    | (Raise e, w') => (Raise e, w')
    end.

(** [main].  The functions above are written for a list of task
    dictionaries, as their annotations say; when [load_tasks] returns
    anything else the run is outside what is modelled, which [Untyped]
    marks. *)
Definition main {db : unicode_db} : M unit :=
  loaded <- load_tasks ;;
  match tasks_of_value loaded with
  | Some tasks => main_loop tasks
  | None => raise Untyped
  end.

(** *** Sequences of menu actions *)

(** What the three actions do to the list, without the terminal: the
    arguments are what the prompts of the action return, [i] being the
    number typed (from 1).  A number that [read_int] would not let through
    changes nothing. *)
Definition add (t : str) (due : option str) (tasks : list task) : list task :=
  tasks ++ [mktask (next_task_id tasks) t due false].

Definition complete (i : nat) (tasks : list task) : list task :=
  match i with
  | O => tasks
  | S j =>
      match set_complete j tasks with
      | Some tasks' => tasks'
      | None => tasks
      end
  end.

Definition delete (i : nat) (tasks : list task) : list task :=
  match i with
  | O => tasks
  | S j =>
      match pop j tasks with
      | Some (_, tasks') => tasks'
      | None => tasks
      end
  end.

Inductive op : Type :=
| DoAdd (t : str) (due : option str)
| DoComplete (i : nat)
| DoDelete (i : nat).

Definition apply_op (o : op) (tasks : list task) : list task :=
  match o with
  | DoAdd t due => add t due tasks
  | DoComplete i => complete i tasks
  | DoDelete i => delete i tasks
  end.

Definition run (ops : list op) (tasks : list task) : list task :=
  fold_left (fun ts o => apply_op o ts) ops tasks.

(** The ids handed out along a sequence of actions, oldest first. *)
Fixpoint assigned_ids (ops : list op) (tasks : list task) : list Z :=
  match ops with
  | [] => []
  | o :: r =>
      match o with
      | DoAdd _ _ => next_task_id tasks :: assigned_ids r (apply_op o tasks)
      | _ => assigned_ids r (apply_op o tasks)
      end
  end.

(* ================================================================= *)
(** ** Notions used in the statements *)

(** *** Worlds and events *)

(** The world a computation leaves, and its result. *)
Definition after {A} (m : M A) (w : world) : world := snd (m w).
Definition result {A} (m : M A) (w : world) : res A := fst (m w).

(** The world after some more events. *)
Definition emits (evs : list event) (w : world) : world :=
  mkworld (stdin w) (trace w ++ evs) (disk w).

Definition is_write (e : event) : bool :=
  match e with EvWrite _ => true | _ => false end.

Definition is_prompt (e : event) : bool :=
  match e with EvPrompt _ => true | _ => false end.

(** What [print_header], [list_tasks] and the menu print. *)
Definition header_events (title : str) : list event :=
  [EvPrint (10 :: repeat 61 40); EvPrint title; EvPrint (repeat 61 40 ++ [10])].

Fixpoint lines_events (index : nat) (tasks : list task) : list event :=
  match tasks with
  | [] => []
  | t :: r => EvPrint (task_line index t) :: lines_events (S index) r
  end.

Definition list_events (tasks : list task) : list event :=
  header_events (u "YOUR TASKS")
  ++ match tasks with
     | [] => [EvPrint (u "No tasks yet. Add one from the menu!")]
     | _ => lines_events 1 tasks
     end.

Definition menu_events : list event :=
  header_events (u "TASK TRACKER (PYTHON)")
  ++ map EvPrint [u "1) List tasks"; u "2) Add a task";
                  u "3) Mark task as complete"; u "4) Delete a task";
                  u "5) Save"; u "6) Exit"].

(** The world in which the number of a task is asked for: after the
    header of the action and the list. *)
Definition asking (header : string) (tasks : list task) (w : world) : world :=
  emits (header_events (u header) ++ list_events tasks) w.

(** A computation that leaves the file alone, and one that never gives
    lines back to the input. *)
Definition quiet {A} (m : M A) : Prop :=
  forall w, disk (snd (m w)) = disk w
            /\ (List.length (stdin (snd (m w))) <= List.length (stdin w))%nat
            /\ exists evs, trace (snd (m w)) = trace w ++ evs
                           /\ forallb (fun e => negb (is_write e)) evs = true.

Definition steady {A} (m : M A) : Prop :=
  forall w, (List.length (stdin (snd (m w))) <= List.length (stdin w))%nat.

(** *** The prompts *)

Definition date_message : str :=
  u "Invalid date. Use YYYY-MM-DD (example: 2026-01-16) or press Enter to skip.".

Definition range_message (min_value max_value : Z) : str :=
  u "Please enter a number between " ++ repr_int min_value ++ u " and "
  ++ repr_int max_value ++ u ".".

(** A calendar date, as [datetime] accepts them. *)
Definition valid_date (dt : date) : bool :=
  in_range 1 9999 (year dt) && in_range 1 12 (month dt)
  && in_range 1 (days_in_month (year dt) (month dt)) (day dt).


(** Lines [read_int] answers with its message: not made of digits, or a
    decimal numeral out of the bounds. *)
Definition cleanly_rejected {db : unicode_db} (lo hi : Z) (line : str) : bool :=
  negb (isdigit (strip line))
  || match py_int (strip line) with
     | Some v => negb ((lo <=? v)%Z && (v <=? hi)%Z)
     | None => false
     end.

(** *** The file in step with the list *)

(** The bytes [save_tasks] writes for a list. *)
Definition saved (tasks : list task) : list N :=
  json_dumps (value_of_tasks tasks).

(** The bytes of the last write among some events. *)
Fixpoint last_write_from (last : option (list N)) (tr : list event) :
  option (list N) :=
  match tr with
  | [] => last
  | EvWrite bs :: r => last_write_from (Some bs) r
  | _ :: r => last_write_from last r
  end.

Definition last_write (tr : list event) : option (list N) :=
  last_write_from None tr.

(** [save_tasks] has written [tasks], and nothing has been written since:
    the file holds exactly the text of [tasks], from the last write of the
    run. *)
Definition synced (tasks : list task) (w : world) : Prop :=
  disk w = Content (saved tasks) /\ last_write (trace w) = Some (saved tasks).

(** Nothing has been written between two worlds. *)
Definition same_file (w w' : world) : Prop :=
  disk w' = disk w /\ last_write (trace w') = last_write (trace w).

(** The file keeps up with the list: since the loop started either
    nothing has changed, in the list or in the file, or the last thing
    written is the list as it is now. *)
Definition in_step (tasks0 : list task) (w0 : world)
  (tasks : list task) (w : world) : Prop :=
  (tasks = tasks0 /\ same_file w0 w) \/ synced tasks w.

(** *** Runs of actions *)

(** The tasks a run of [add] alone builds from the empty list. *)
Definition added (adds : list (str * option str)) : list task :=
  map (fun x => mktask (Z.of_nat (fst x)) (fst (snd x)) (snd (snd x)) false)
    (combine (seq 1 (List.length adds)) adds).

(** What every run keeps true of the list: the ids are positive and no two
    tasks have the same. *)
Definition ids_ok (tasks : list task) : Prop :=
  NoDup (map id tasks) /\ Forall (fun t => (1 <= id t)%Z) tasks.

(** Two tasks, for the examples. *)
Definition two_tasks : list task :=
  [mktask 1 (u "Buy milk") None false;
   mktask 2 (u "Call Ann") (Some (u "2026-01-16")) true].

(** *** Text and values that are read back *)

(** Text whose escaped form [json.load] reads back as it was: code points
    only, and no high surrogate directly followed by a low one (the two
    escapes of such a pair are read as one character). *)
Definition is_code_point (c : N) : bool := c <? 1114112.

Fixpoint no_surrogate_pair (s : str) : bool :=
  match s with
  | c :: r =>
      match r with
      | c' :: _ =>
          negb (is_high_surrogate c && is_low_surrogate c')
          && no_surrogate_pair r
      | [] => true
      end
  | [] => true
  end.

Definition text_ok (s : str) : bool :=
  forallb is_code_point s && no_surrogate_pair s.

Fixpoint distinct (ks : list str) : bool :=
  match ks with
  | [] => true
  | k :: r => negb (existsb (str_eqb k) r) && distinct r
  end.

(** The values [json.dump] and [json.load] take to and from text without
    change: no float, such text only, and dictionaries as Python has them,
    with no key twice. *)
Fixpoint plain (v : value) : bool :=
  match v with
  | VFloat _ => false
  | VStr s => text_ok s
  | VList l => forallb plain l
  | VDict d =>
      distinct (map fst d)
      && forallb (fun kv => text_ok (fst kv) && plain (snd kv)) d
  | _ => true
  end.

Definition task_ok (t : task) : bool :=
  text_ok (title t)
  && match due_date t with Some d => text_ok d | None => true end.

(** Characters of the text [json.dump] produces: printable ASCII and the
    line feed. *)
Definition printable (c : N) : bool := (c =? 10) || in_range 32 126 c.

Fixpoint float_free (v : value) : bool :=
  match v with
  | VFloat _ => false
  | VList l => forallb float_free l
  | VDict d => forallb (fun kv => float_free (snd kv)) d
  | _ => true
  end.

(** What a value costs [parse_value] on its counter. *)
Fixpoint weight (v : value) : nat :=
  match v with
  | VList l => S (list_sum (map (fun x => S (weight x)) l))
  | VDict d => S (list_sum (map (fun kv => S (weight (snd kv))) d))
  | _ => 1
  end.

(** What may follow an escaped high surrogate for [scanstring] to leave
    it alone: anything but the escape of a low surrogate (or a broken
    escape). *)
Definition low_escape_free (tail : str) : bool :=
  match tail with
  | b1 :: b2 :: x1 :: x2 :: x3 :: x4 :: _ =>
      if (b1 =? 92) && (b2 =? 117) then
        match hex4_val x1 x2 x3 x4 with
        | Some l => negb (is_low_surrogate l)
        | None => false
        end
      else true
  | _ => true
  end.

(** What follows a value in the text [json.dump] writes: a comma, a line
    feed, or nothing. *)
Definition follow_ok (rest : str) : bool :=
  match rest with
  | [] => true
  | c :: _ => (c =? 44) || (c =? 10)
  end.

(** The text between the brackets of a list and between the braces of a
    dictionary. *)
Definition elements_text (lvl : nat) (l : list value) : str :=
  join (44 :: newline_indent (S lvl)) (map (dump (S lvl)) l).

Definition member_text (lvl : nat) (kv : str * value) : str :=
  encode_string (fst kv) ++ [58; 32] ++ dump (S lvl) (snd kv).

Definition members_text (lvl : nat) (d : list (str * value)) : str :=
  join (44 :: newline_indent (S lvl)) (map (member_text lvl) d).

(** A value that [parse_value] reads back from its text, whatever the
    indentation and whatever follows. *)
Definition reads_back (v : value) : Prop :=
  forall lvl rest f,
    plain v = true -> (weight v <= f)%nat -> follow_ok rest = true ->
    parse_value f (dump lvl v ++ rest) = Some (v, rest).

(** *** Lines as they are typed *)

(** A line that [strip] leaves empty. *)
Definition blank (line : str) : bool :=
  match strip line with [] => true | _ :: _ => false end.

Definition blank_message : str := u "This field cannot be blank. Try again.".

(** A line of ASCII characters. *)
Definition ascii_only (line : str) : bool := forallb (fun c => c <? 128) line.

(** [int] refuses a numeral of more than 4300 digits (the default of
    [sys.set_int_max_str_digits]) with [ValueError].  [py_int] has no such
    limit: what is stated of all the lines that may reach [int] is stated
    for lines within it. *)
Definition int_max_str_digits : nat := 4300.

Definition within_limit (line : str) : bool :=
  (List.length (strip line) <=? int_max_str_digits)%nat.

(** The same limit holds of the way back: [json.dump] writes an [int] with
    [int.__repr__], which raises [ValueError] beyond 4300 digits, after the
    file has been opened and emptied.  [save_tasks] has no such path: what
    is stated of a save that is not assumed to have returned is stated for
    ids within the limit. *)
Definition int_within_limit (z : Z) : bool :=
  (List.length (repr_int z) <=? int_max_str_digits)%nat.

Definition ids_within_limit (tasks : list task) : bool :=
  forallb (fun t => int_within_limit (id t)) tasks.

(** Ids that stay within the limit however many of [n] lines are used to
    add tasks: each add takes lines and hands out one more than the
    greatest id. *)
Definition ids_leave_room (tasks : list task) (n : nat) : bool :=
  int_within_limit (Z.of_nat n)
  && forallb (fun t => int_within_limit (id t)
                       && int_within_limit (id t + Z.of_nat n)) tasks.

(** A task whose title and due date are ASCII. *)
Definition task_ascii (t : task) : bool :=
  ascii_only (title t)
  && match due_date t with Some d => ascii_only d | None => true end.

(** A numeral as it may be typed: white space around it and zeros in
    front of it. *)
Definition padded_numeral (a : str) (zeros : nat) (n : N) (b : str) : str :=
  a ++ (repeat 48 zeros ++ repr_nat n) ++ b.

(** What holds of every version of the database: the value of a decimal
    character is a digit. *)
Definition decimal_rows_ok (db : unicode_db) : Prop :=
  forall c d, other_decimal c = Some d -> d <= 9.


(** A date written without the leading zeros of the month and the day. *)
Definition unpadded (dt : date) : str :=
  pad4 (year dt) ++ [45] ++ repr_nat (month dt) ++ [45] ++ repr_nat (day dt).

Definition menu_prompt : str := 10 :: u "Choose an option (1-6): ".

(** What the menu loop shows for the lines it does not accept. *)
Definition menu_rejections (lines : list str) : list event :=
  flat_map (fun _ => [EvPrompt menu_prompt; EvPrint (range_message 1 6)]) lines.

(** *** The file as it is found *)


(** The bytes that no UTF-8 text holds. *)
Definition never_in_utf8 (b : N) : bool :=
  (b =? 192) || (b =? 193) || (245 <=? b).

(** The interpreter has limits that [json_loads] has not: the scanner
    raises [RecursionError] on brackets nested too deep (about a thousand
    with the default recursion limit), and [int] raises [ValueError] on an
    integer of more than 4300 digits; neither is a [JSONDecodeError].  What
    is stated of all the texts a file may hold is stated for texts within
    these limits: brackets, outside the strings, nested no deeper than
    [json_max_depth], far below what any interpreter allows, and no run of
    more than 4300 digits. *)
Definition json_max_depth : nat := 100.

(** The deepest nesting of the brackets of a text, [depth] being the
    number of brackets open so far; inside a string a backslash hides the
    character after it. *)
Fixpoint deepest (in_string : bool) (hidden : bool) (depth : nat) (s : str) :
  nat :=
  match s with
  | [] => depth
  | c :: r =>
      if in_string then
        if hidden then deepest true false depth r
        else if c =? 92 then deepest true true depth r
        else if c =? 34 then deepest false false depth r
        else deepest true false depth r
      else if c =? 34 then deepest true false depth r
      else if (c =? 91) || (c =? 123)
      then Nat.max depth (deepest false false (S depth) r)
      else if (c =? 93) || (c =? 125)
      then Nat.max depth (deepest false false (Nat.pred depth) r)
      else deepest false false depth r
  end.

(** No more than 4300 digits in a row, [run] being the digits just seen. *)
Fixpoint digit_runs_ok (run : nat) (s : str) : bool :=
  match s with
  | [] => true
  | c :: r =>
      if is_digit09 c
      then (S run <=? int_max_str_digits)%nat && digit_runs_ok (S run) r
      else digit_runs_ok 0 r
  end.

Definition within_json_limits (text : str) : bool :=
  (deepest false false 0 text <=? json_max_depth)%nat && digit_runs_ok 0 text.

(** The file is missing or does not hold JSON. *)
Definition nothing_to_load (w : world) : Prop :=
  disk w = Absent
  \/ exists bs text,
       disk w = Content bs /\ utf8_decode bs = Some text
       /\ within_json_limits (universal_newlines text) = true
       /\ json_loads (universal_newlines text) = None.

(** *** Text as it is decoded and parsed *)

(** What the strict UTF-8 decoder gives: code points, none of them a
    surrogate. *)
Definition scalar (c : N) : bool :=
  is_code_point c && negb (in_range 55296 57343 c).

Definition clean_text (s : str) : bool := forallb scalar s.

(** A value all of whose strings, the keys of its dictionaries included,
    are free of surrogate pairs. *)
Fixpoint strings_ok (v : value) : bool :=
  match v with
  | VStr s => text_ok s
  | VList l => forallb strings_ok l
  | VDict d => forallb (fun kv => text_ok (fst kv) && strings_ok (snd kv)) d
  | _ => true
  end.

(** [r] is what is left of [s] after some of its characters. *)
Definition tail_of (r s : str) : Prop := exists pre, s = pre ++ r.

(** A text that begins with the escape of a low surrogate, and a string
    that begins with a low surrogate. *)
Definition escaped_low (s : str) : bool :=
  match s with
  | b1 :: b2 :: x1 :: x2 :: x3 :: x4 :: _ =>
      (b1 =? 92) && (b2 =? 117)
      && match hex4_val x1 x2 x3 x4 with
         | Some l => is_low_surrogate l
         | None => false
         end
  | _ => false
  end.

Definition low_head (t : str) : bool :=
  match t with
  | c :: _ => is_low_surrogate c
  | [] => false
  end.

(** *** Whole runs *)

(** What a run of [add] alone puts behind a list: the ids go on from the
    next id of that list. *)
Definition appended (tasks : list task) (adds : list (str * option str)) :
  list task :=
  map (fun x => mktask (next_task_id tasks + Z.of_nat (fst x))
                  (fst (snd x)) (snd (snd x)) false)
    (combine (seq 0 (List.length adds)) adds).

(** A world whose lines to come all pass a test, and whose file can be
    written. *)
Definition tidy (ok : str -> bool) (w : world) : Prop :=
  forallb ok (stdin w) = true /\ disk w <> Unreadable.

(** A computation that takes tidy worlds to tidy worlds, returns only what
    [Q] allows and raises only what [E] allows. *)
Definition keeps {A} (ok : str -> bool) (E : exn -> Prop) (m : M A)
  (Q : A -> world -> Prop) : Prop :=
  forall w, tidy ok w ->
    match m w with
    | (Ok a, w') => tidy ok w' /\ Q a w'
    | (Raise e, _) => E e
    end.

(** What [read_optional_date] can return. *)
Definition dated {db : unicode_db} (due : option str) : Prop :=
  match due with
  | None => True
  | Some s => exists raw dt, strptime raw = Some dt /\ s = strftime dt
  end.

(** What one action can make of the list, [ok] being what holds of the
    lines typed. *)
Definition next_list {db : unicode_db} (ok : str -> bool)
  (tasks tasks' : list task) : Prop :=
  tasks' = tasks
  \/ (exists l due,
        ok l = true /\ dated due
        /\ tasks' = tasks ++ [mktask (next_task_id tasks) (strip l) due false])
  \/ (exists i, set_complete i tasks = Some tasks')
  \/ (exists i x, pop i tasks = Some (x, tasks')).

(** The exceptions of a run on such lines: the end of the input, and the
    [ValueError] of [int] when a line that passes the test is not ASCII. *)
Definition input_error (ok : str -> bool) (e : exn) : Prop :=
  e = EOFError
  \/ (e = ValueError /\ exists l, ok l = true /\ ascii_only l = false).

(* ================================================================= *)
(** * Properties *)

(** Linear arithmetic with divisions and remainders by constants. *)
Ltac divlia := zify; Z.to_euclidean_division_equations; lia.

(* ================================================================= *)
(** ** Text and numerals *)

Lemma str_eqb_refl (a : str) : str_eqb a a = true.
Proof.
  induction a as [|x a IH]; simpl; [reflexivity|].
  now rewrite N.eqb_refl, IH.
Qed.

Lemma str_eqb_eq (a b : str) : str_eqb a b = true <-> a = b.
Proof.
  split; [|intros ->; apply str_eqb_refl].
  revert b; induction a as [|x a IH]; intros [|y b]; simpl; try discriminate;
    [reflexivity|].
  intros H. apply andb_true_iff in H as [H1 H2].
  apply N.eqb_eq in H1. now rewrite H1, (IH b H2).
Qed.

Lemma in_range_spec lo hi c : in_range lo hi c = true <-> lo <= c <= hi.
Proof. unfold in_range. rewrite andb_true_iff, !N.leb_le. tauto. Qed.

Lemma in_range_false lo hi c :
  in_range lo hi c = false <-> c < lo \/ hi < c.
Proof.
  unfold in_range. rewrite andb_false_iff, !N.leb_gt. tauto.
Qed.

(** The characters of a numeral are ASCII digits. *)
Lemma chars_of_uint_digits (d : uint) :
  forallb is_digit09 (chars_of_uint d) = true.
Proof. induction d; simpl; auto. Qed.

Lemma ascii_value_cons (acc k : N) (r : str) :
  ascii_value acc (digit_char k :: r) = ascii_value (10 * acc + k) r.
Proof.
  cbn [ascii_value]. unfold digit_char.
  now replace (48 + k - 48) with k by lia.
Qed.

Lemma ascii_value_acc (d : uint) (acc : positive) :
  ascii_value (Npos acc) (chars_of_uint d) = Npos (Pos.of_uint_acc d acc).
Proof.
  revert acc; induction d; intros acc;
    cbn [chars_of_uint Pos.of_uint_acc]; [reflexivity|..];
    rewrite ascii_value_cons, <- IHd; f_equal; lia.
Qed.

Lemma ascii_value_uint (d : uint) :
  ascii_value 0 (chars_of_uint d) = N.of_uint d.
Proof.
  unfold N.of_uint.
  induction d; cbn [chars_of_uint Pos.of_uint]; [reflexivity|..];
    rewrite ascii_value_cons; cbn [N.mul N.add];
    [assumption|apply ascii_value_acc..].
Qed.

(** [int(repr(n)) = n]. *)
Lemma ascii_value_repr (n : N) : ascii_value 0 (repr_nat n) = n.
Proof.
  unfold repr_nat. rewrite ascii_value_uint.
  apply DecimalN.Unsigned.of_to.
Qed.

(** An ASCII digit is decimal in every version of the database. *)
Lemma decimal_value_cons {db : unicode_db} (acc k : N) (r : str) :
  k < 10 ->
  decimal_value acc (digit_char k :: r) = decimal_value (10 * acc + k) r.
Proof.
  intros Hk. cbn [decimal_value]. unfold unicode_decimal, digit_char.
  replace (48 + k <? 256) with true by (symmetry; apply N.ltb_lt; lia).
  replace (in_range 48 57 (48 + k)) with true
    by (symmetry; apply in_range_spec; lia).
  now replace (48 + k - 48) with k by lia.
Qed.

Lemma take_digits_app (ds rest : str) :
  forallb is_digit09 ds = true ->
  match rest with c :: _ => is_digit09 c = false | [] => True end ->
  take_digits (ds ++ rest) = (ds, rest).
Proof.
  intros Hd Hr. induction ds as [|c ds IH]; simpl in *.
  - destruct rest as [|c r]; [reflexivity|]. simpl. now rewrite Hr.
  - apply andb_true_iff in Hd as [Hc Hd]. now rewrite Hc, (IH Hd).
Qed.

(** The numeral of a positive number starts with a digit from 1 to 9. *)
Lemma pos_to_uint_head (p : positive) :
  exists c r, repr_nat (Npos p) = c :: r /\ in_range 49 57 c = true
              /\ forallb is_digit09 r = true.
Proof.
  unfold repr_nat. simpl N.to_uint.
  assert (Hn : Pos.to_uint p = unorm (Pos.to_uint p)).
  { rewrite <- DecimalPos.Unsigned.to_of.
    now rewrite DecimalPos.Unsigned.of_to. }
  pose proof (DecimalPos.Unsigned.to_uint_nonzero p) as Hz.
  unfold unorm in Hn.
  pose proof (DecimalFacts.nzhead_nonzero (Pos.to_uint p)) as Hh.
  pose proof (chars_of_uint_digits (Pos.to_uint p)) as Hd.
  destruct (nzhead (Pos.to_uint p)) eqn:E.
  - now rewrite Hn in Hz.
  - exfalso. eapply Hh. reflexivity.
  - rewrite Hn in *. simpl in *. eexists _, _. repeat split; auto.
  - rewrite Hn in *. simpl in *. eexists _, _. repeat split; auto.
  - rewrite Hn in *. simpl in *. eexists _, _. repeat split; auto.
  - rewrite Hn in *. simpl in *. eexists _, _. repeat split; auto.
  - rewrite Hn in *. simpl in *. eexists _, _. repeat split; auto.
  - rewrite Hn in *. simpl in *. eexists _, _. repeat split; auto.
  - rewrite Hn in *. simpl in *. eexists _, _. repeat split; auto.
  - rewrite Hn in *. simpl in *. eexists _, _. repeat split; auto.
  - rewrite Hn in *. simpl in *. eexists _, _. repeat split; auto.
Qed.

(* ================================================================= *)
(** ** Induction on values *)

Lemma value_rect' (P : value -> Prop)
  (HNone : P VNone) (HBool : forall b, P (VBool b))
  (HInt : forall z, P (VInt z)) (HFloat : forall l, P (VFloat l))
  (HStr : forall s, P (VStr s))
  (HList : forall l, Forall P l -> P (VList l))
  (HDict : forall d, Forall (fun kv => P (snd kv)) d -> P (VDict d)) :
  forall v, P v.
Proof.
  fix IH 1. intros [| b | z | l | s | l | d].
  - exact HNone.
  - apply HBool.
  - apply HInt.
  - apply HFloat.
  - apply HStr.
  - apply HList. induction l as [|x l IHl]; constructor;
      [apply IH | exact IHl].
  - apply HDict. induction d as [|[k x] d IHd]; constructor;
      [apply IH | exact IHd].
Qed.

(* ================================================================= *)
(** ** The text [json.dump] writes is printable ASCII *)

Lemma printable_spec c : printable c = true <-> c = 10 \/ 32 <= c <= 126.
Proof.
  unfold printable. rewrite orb_true_iff, N.eqb_eq, in_range_spec. tauto.
Qed.

Lemma digits_printable (s : str) :
  forallb is_digit09 s = true -> forallb printable s = true.
Proof.
  induction s as [|c s IH]; simpl; [reflexivity|].
  intros H. apply andb_true_iff in H as [Hc Hs].
  apply in_range_spec in Hc.
  rewrite (IH Hs), andb_true_r. apply printable_spec. lia.
Qed.

Lemma repr_nat_printable n : forallb printable (repr_nat n) = true.
Proof. apply digits_printable, chars_of_uint_digits. Qed.

Lemma repr_int_printable z : forallb printable (repr_int z) = true.
Proof.
  destruct z; cbn [repr_int]; [apply repr_nat_printable..|].
  cbn [forallb]. now rewrite repr_nat_printable.
Qed.

Lemma hex_digit_printable n : n < 16 -> printable (hex_digit n) = true.
Proof.
  intros H. unfold hex_digit. apply printable_spec.
  destruct (n <? 10) eqn:E; [apply N.ltb_lt in E | apply N.ltb_ge in E]; lia.
Qed.

Lemma hex4_printable n : forallb printable (hex4 n) = true.
Proof.
  unfold hex4. cbn [forallb].
  rewrite !hex_digit_printable; [reflexivity|..];
    apply N.mod_upper_bound; discriminate.
Qed.

Lemma u_escape_printable n : forallb printable (u_escape n) = true.
Proof. unfold u_escape. cbn [forallb]. now rewrite hex4_printable. Qed.

Lemma encode_char_printable c : forallb printable (encode_char c) = true.
Proof.
  unfold encode_char.
  repeat match goal with
         | |- context [if ?b then _ else _] => destruct b eqn:?
         end; try reflexivity.
  - cbn [forallb]. unfold printable. now rewrite Heqb6, orb_true_r.
  - apply u_escape_printable.
  - rewrite forallb_app, !u_escape_printable. reflexivity.
Qed.

Lemma encode_string_printable s : forallb printable (encode_string s) = true.
Proof.
  unfold encode_string. cbn [forallb]. rewrite forallb_app. cbn.
  rewrite andb_true_r.
  induction s as [|c s IH]; cbn [flat_map forallb]; [reflexivity|].
  now rewrite forallb_app, encode_char_printable, IH.
Qed.

Lemma newline_indent_printable lvl :
  forallb printable (newline_indent lvl) = true.
Proof.
  unfold newline_indent. cbn [forallb].
  induction (2 * lvl)%nat; simpl; auto.
Qed.

Lemma join_printable sep l :
  forallb printable sep = true ->
  Forall (fun x => forallb printable x = true) l ->
  forallb printable (join sep l) = true.
Proof.
  intros Hs Hl. induction Hl as [|x l Hx Hl IH]; [reflexivity|].
  cbn [join]. rewrite forallb_app, Hx. destruct l; [reflexivity|].
  rewrite forallb_app, Hs. exact IH.
Qed.

Lemma dump_list_cons lvl x l :
  dump lvl (VList (x :: l))
  = 91 :: newline_indent (S lvl)
    ++ join (44 :: newline_indent (S lvl)) (map (dump (S lvl)) (x :: l))
    ++ newline_indent lvl ++ [93].
Proof. reflexivity. Qed.

Lemma dump_dict_cons lvl x d :
  dump lvl (VDict (x :: d))
  = 123 :: newline_indent (S lvl)
    ++ join (44 :: newline_indent (S lvl))
         (map (fun kv => encode_string (fst kv) ++ [58; 32]
                         ++ dump (S lvl) (snd kv)) (x :: d))
    ++ newline_indent lvl ++ [125].
Proof. reflexivity. Qed.

Lemma forallb_cons {A} (f : A -> bool) x l :
  forallb f (x :: l) = f x && forallb f l.
Proof. reflexivity. Qed.

Lemma dump_printable v :
  forall lvl, float_free v = true -> forallb printable (dump lvl v) = true.
Proof.
  induction v as [| b | z | l | s | l IH | d IH] using value_rect';
    intros lvl Hf.
  - reflexivity.
  - destruct b; reflexivity.
  - apply repr_int_printable.
  - discriminate.
  - apply encode_string_printable.
  - destruct l as [|x l]; [reflexivity|].
    rewrite dump_list_cons. set (l' := x :: l) in *.
    rewrite forallb_cons, !forallb_app, !newline_indent_printable.
    rewrite join_printable; [reflexivity| |].
    + rewrite forallb_cons. now rewrite newline_indent_printable.
    + cbn [float_free] in Hf. rewrite forallb_forall in Hf.
      rewrite Forall_forall in *. intros y Hy.
      apply in_map_iff in Hy as [v [<- Hv]]. apply IH; auto.
  - destruct d as [|x d]; [reflexivity|].
    rewrite dump_dict_cons. set (d' := x :: d) in *.
    rewrite forallb_cons, !forallb_app, !newline_indent_printable.
    rewrite join_printable; [reflexivity| |].
    + rewrite forallb_cons. now rewrite newline_indent_printable.
    + cbn [float_free] in Hf. rewrite forallb_forall in Hf.
      rewrite Forall_forall in *. intros y Hy.
      apply in_map_iff in Hy as [kv [<- Hv]].
      rewrite !forallb_app, encode_string_printable.
      rewrite (IH kv Hv) by auto. reflexivity.
Qed.

Lemma value_of_tasks_float_free tasks :
  float_free (value_of_tasks tasks) = true.
Proof.
  unfold value_of_tasks. cbn [float_free].
  induction tasks as [|t ts IH]; [reflexivity|].
  cbn [map forallb]. rewrite IH, andb_true_r.
  unfold value_of_task. cbn. destruct (due_date t); reflexivity.
Qed.

(** *** Printable text and the codec *)

Lemma printable_lt_128 c : printable c = true -> (c <? 128) = true.
Proof. intros H. apply printable_spec in H. apply N.ltb_lt. lia. Qed.

Lemma utf8_encode_printable s :
  forallb printable s = true -> utf8_encode s = Some s.
Proof.
  induction s as [|c s IH]; cbn [utf8_encode forallb]; [reflexivity|].
  intros H. apply andb_true_iff in H as [Hc Hs].
  rewrite (IH Hs). unfold utf8_encode_char.
  now rewrite (printable_lt_128 _ Hc).
Qed.

Lemma utf8_decode_printable s :
  forallb printable s = true -> utf8_decode s = Some s.
Proof.
  induction s as [|c s IH]; cbn [utf8_decode forallb]; [reflexivity|].
  intros H. apply andb_true_iff in H as [Hc Hs].
  now rewrite (printable_lt_128 _ Hc), (IH Hs).
Qed.

Lemma universal_newlines_printable s :
  forallb printable s = true -> universal_newlines s = s.
Proof.
  induction s as [|c s IH]; cbn [universal_newlines forallb]; [reflexivity|].
  intros H. apply andb_true_iff in H as [Hc Hs].
  apply printable_spec in Hc.
  replace (c =? 13) with false by (symmetry; apply N.eqb_neq; lia).
  now rewrite (IH Hs).
Qed.

(** [save_tasks] succeeds wherever the file can be opened, and the bytes
    it writes are the characters of the JSON text. *)
Lemma save_tasks_ok tasks w :
  disk w <> Unreadable ->
  save_tasks tasks w
  = (Ok tt, mkworld (stdin w)
              (trace w ++ [EvWrite (json_dumps (value_of_tasks tasks))])
              (Content (json_dumps (value_of_tasks tasks)))).
Proof.
  intros Hd. unfold save_tasks.
  rewrite utf8_encode_printable
    by (apply dump_printable, value_of_tasks_float_free).
  destruct (disk w); congruence.
Qed.

(* ================================================================= *)
(** ** The monad and the terminal *)

Lemma emits_emits a b w : emits b (emits a w) = emits (a ++ b) w.
Proof. unfold emits. cbn. now rewrite app_assoc. Qed.

Lemma emits_nil w : emits [] w = w.
Proof. destruct w. unfold emits. cbn. now rewrite app_nil_r. Qed.

Lemma print_emits s w : print s w = (Ok tt, emits [EvPrint s] w).
Proof. reflexivity. Qed.

Lemma print_header_emits t w :
  print_header t w = (Ok tt, emits (header_events t) w).
Proof.
  unfold print_header, bind, print, emit, emits, header_events. cbn.
  now rewrite <- !app_assoc.
Qed.

Lemma print_lines_emits tasks : forall i w,
  print_lines i tasks w = (Ok tt, emits (lines_events i tasks) w).
Proof.
  induction tasks as [|t r IH]; intros i w; cbn [print_lines lines_events].
  - unfold ret. now rewrite emits_nil.
  - unfold bind. rewrite print_emits, IH, emits_emits. reflexivity.
Qed.

Lemma list_tasks_emits tasks w :
  list_tasks tasks w = (Ok tt, emits (list_events tasks) w).
Proof.
  unfold list_tasks, list_events, bind. rewrite print_header_emits.
  destruct tasks as [|t r].
  - now rewrite print_emits, emits_emits.
  - now rewrite print_lines_emits, emits_emits.
Qed.

Lemma print_menu_emits w : print_menu w = (Ok tt, emits menu_events w).
Proof.
  unfold print_menu, bind. rewrite print_header_emits.
  rewrite !print_emits, !emits_emits. reflexivity.
Qed.

(** *** The prompt loops *)

Lemma loop_input_eof {A} p (body : str -> verdict A) tr d :
  loop_input p body (mkworld [] tr d)
  = (Raise EOFError, mkworld [] (tr ++ [EvPrompt p]) d).
Proof. reflexivity. Qed.

Lemma loop_input_accept {A} p (body : str -> verdict A) l r tr d a :
  body l = Accept a ->
  loop_input p body (mkworld (l :: r) tr d)
  = (Ok a, mkworld r (tr ++ [EvPrompt p]) d).
Proof. intros H. unfold loop_input. cbn. now rewrite H. Qed.

Lemma loop_input_reject {A} p (body : str -> verdict A) l r tr d msg :
  body l = Reject msg ->
  loop_input p body (mkworld (l :: r) tr d)
  = loop_input p body (mkworld r (tr ++ [EvPrompt p; EvPrint msg]) d).
Proof.
  intros H. unfold loop_input. cbn. rewrite H.
  destruct (while_input p body r) as [[x r'] evs].
  now rewrite <- app_assoc.
Qed.

(** A value the loop returns is one its body accepted, on the first line
    that was not rejected; the lines before it each cost a prompt and a
    message. *)
Lemma while_input_ok {A} p (body : str -> verdict A) lines a r evs :
  while_input p body lines = (Ok a, r, evs) ->
  exists pre l,
    lines = pre ++ l :: r /\ body l = Accept a
    /\ Forall (fun x => exists msg, body x = Reject msg) pre
    /\ List.length evs = (2 * List.length pre + 1)%nat.
Proof.
  revert a r evs. induction lines as [|l ls IH]; intros a r evs H.
  - discriminate.
  - cbn in H. destruct (body l) as [a' | msg | e] eqn:E.
    + injection H as <- <- <-. exists [], l. repeat split; auto.
    + destruct (while_input p body ls) as [[x r'] evs'] eqn:W.
      injection H as -> -> <-.
      destruct (IH _ _ _ eq_refl) as (pre & l' & -> & Hb & Hpre & Hlen).
      exists (l :: pre), l'. repeat split; auto.
      * constructor; eauto.
      * cbn. lia.
    + discriminate.
Qed.

Lemma while_input_events {A} p (body : str -> verdict A) lines :
  let '(x, r, evs) := while_input p body lines in
  forallb (fun e => negb (is_write e)) evs = true
  /\ (List.length r <= List.length lines)%nat
  /\ (match x with Ok _ => List.length r < List.length lines | _ => True end)%nat.
Proof.
  induction lines as [|l ls IH]; cbn.
  - repeat split; auto.
  - destruct (body l); cbn; try (repeat split; auto; lia).
    destruct (while_input p body ls) as [[x r'] evs].
    destruct IH as (H1 & H2 & H3). repeat split; auto.
    destruct x; auto.
Qed.

Lemma loop_input_quiet {A} p (body : str -> verdict A) :
  quiet (loop_input p body).
Proof.
  intros w. unfold loop_input.
  pose proof (while_input_events p body (stdin w)) as H.
  destruct (while_input p body (stdin w)) as [[x r] evs]. cbn.
  destruct H as (H1 & H2 & H3). repeat split; eauto.
Qed.

Lemma loop_input_consumes {A} p (body : str -> verdict A) w a w' :
  loop_input p body w = (Ok a, w') ->
  (List.length (stdin w') < List.length (stdin w))%nat
  /\ disk w' = disk w.
Proof.
  unfold loop_input.
  pose proof (while_input_events p body (stdin w)) as H.
  destruct (while_input p body (stdin w)) as [[x r] evs].
  intros E. injection E as -> <-. cbn. tauto.
Qed.

Lemma loop_input_accepted {A} p (body : str -> verdict A) w a w' :
  loop_input p body w = (Ok a, w') ->
  exists l, In l (stdin w) /\ body l = Accept a.
Proof.
  unfold loop_input.
  destruct (while_input p body (stdin w)) as [[x r] evs] eqn:W.
  intros E. injection E as -> <-.
  apply while_input_ok in W as (pre & l & Hl & Hb & _).
  exists l. split; auto. rewrite Hl. apply in_or_app. right. now left.
Qed.

(** *** [read_int] *)

(** [read_int] never returns a value outside the bounds. *)
Lemma read_int_range {db : unicode_db} p lo hi w v w' :
  read_int p lo hi w = (Ok v, w') -> (lo <= v <= hi)%Z.
Proof.
  intros H. apply loop_input_accepted in H as (l & _ & Hb).
  cbv zeta in Hb.
  destruct (isdigit (strip l)); [|discriminate].
  destruct (py_int (strip l)) as [x|]; [|discriminate].
  destruct ((lo <=? x)%Z && (x <=? hi)%Z) eqn:E; [|discriminate].
  injection Hb as <-. apply andb_true_iff in E. lia.
Qed.

(* ================================================================= *)
(** ** [strip] *)

Lemma py_isspace_spec c :
  py_isspace c = true <->
  9 <= c <= 13 \/ 28 <= c <= 32 \/ c = 133 \/ c = 160 \/ c = 5760
  \/ 8192 <= c <= 8202 \/ c = 8232 \/ c = 8233 \/ c = 8239 \/ c = 8287
  \/ c = 12288.
Proof.
  unfold py_isspace.
  rewrite !orb_true_iff, !in_range_spec, !N.eqb_eq. tauto.
Qed.

Lemma not_space c : 33 <= c <= 126 -> py_isspace c = false.
Proof.
  intros H. destruct (py_isspace c) eqn:E; [|reflexivity].
  apply py_isspace_spec in E. lia.
Qed.

Lemma strip_id (s : str) c r c' r' :
  s = c :: r -> List.rev s = c' :: r' ->
  py_isspace c = false -> py_isspace c' = false -> strip s = s.
Proof.
  intros Hs Hr Hc Hc'. unfold strip, rstrip.
  assert (L : lstrip s = s) by (rewrite Hs; cbn; now rewrite Hc).
  rewrite L, Hr. cbn [lstrip]. rewrite Hc', <- Hr. apply rev_involutive.
Qed.

(* ================================================================= *)
(** ** [strptime] reads what [strftime] writes *)

Lemma decimal_value_pad4 {db : unicode_db} y : y <= 9999 -> decimal_value 0 (pad4 y) = Some y.
Proof.
  intros H. unfold pad4.
  change (decimal_value 0
            [digit_char (y / 1000); digit_char ((y / 100) mod 10);
             digit_char ((y / 10) mod 10); digit_char (y mod 10)] = Some y).
  rewrite !decimal_value_cons by divlia. cbn [decimal_value].
  f_equal. divlia.
Qed.

Lemma scan_month_pad2 m r :
  1 <= m <= 12 -> scan_month (pad2 m ++ 45 :: r) = Some (m, r).
Proof.
  intros H.
  assert (C : m = 1 \/ m = 2 \/ m = 3 \/ m = 4 \/ m = 5 \/ m = 6 \/ m = 7
              \/ m = 8 \/ m = 9 \/ m = 10 \/ m = 11 \/ m = 12) by lia.
  repeat destruct C as [-> | C]; try subst m; reflexivity.
Qed.

Lemma scan_day_pad2 {db : unicode_db} d : 1 <= d <= 31 -> scan_day (pad2 d) = Some (d, []).
Proof.
  intros H.
  assert (C : exists k, (k < 31)%nat /\ d = 1 + N.of_nat k).
  { exists (N.to_nat (d - 1)). lia. }
  destruct C as (k & Hk & ->).
  do 31 (destruct k as [|k]; [reflexivity|]). lia.
Qed.

Lemma days_in_month_le y m : days_in_month y m <= 31.
Proof.
  unfold days_in_month.
  repeat match goal with
         | |- context [if ?b then _ else _] => destruct b
         end; lia.
Qed.

Lemma valid_date_spec dt :
  valid_date dt = true <->
  1 <= year dt <= 9999 /\ 1 <= month dt <= 12
  /\ 1 <= day dt <= days_in_month (year dt) (month dt).
Proof.
  unfold valid_date. rewrite !andb_true_iff, !in_range_spec. tauto.
Qed.



(* ================================================================= *)
(** ** [read_optional_date] *)

Lemma read_optional_date_step {db : unicode_db} p line rest tr d :
  read_optional_date p (mkworld (line :: rest) tr d)
  = match strip line with
    | [] => (Ok None, mkworld rest (tr ++ [EvPrompt p]) d)
    | _ :: _ =>
        match strptime (strip line) with
        | Some dt =>
            (Ok (Some (strftime dt)), mkworld rest (tr ++ [EvPrompt p]) d)
        | None =>
            read_optional_date p
              (mkworld rest (tr ++ [EvPrompt p; EvPrint date_message]) d)
        end
    end.
Proof.
  unfold read_optional_date.
  destruct (strip line) as [|c s] eqn:E.
  - apply loop_input_accept. now rewrite E.
  - destruct (strptime (c :: s)) as [dt|] eqn:P.
    + apply loop_input_accept. now rewrite E, P.
    + apply loop_input_reject. now rewrite E, P.
Qed.


(* ================================================================= *)
(** ** [scanstring] reads what [encode_string] writes *)

Lemma lor_shiftl_add a b n : b < 2 ^ n -> N.lor (N.shiftl a n) b = a * 2 ^ n + b.
Proof.
  intros Hb.
  assert (Z : N.land (N.shiftl a n) b = 0).
  { apply N.bits_inj. intros i. rewrite N.land_spec, N.bits_0.
    destruct (N.lt_ge_cases i n) as [Hi | Hi].
    - now rewrite N.shiftl_spec_low.
    - rewrite <- (N.mod_small b (2 ^ n)) by exact Hb.
      rewrite N.mod_pow2_bits_high by exact Hi. apply andb_false_r. }
  rewrite <- N.lxor_lor by exact Z.
  rewrite <- N.add_nocarry_lxor by exact Z.
  now rewrite N.shiftl_mul_pow2.
Qed.

Lemma lor_high x : x < 1024 -> N.lor 55296 x = 55296 + x.
Proof. intros H. apply (lor_shiftl_add 54 x 10 H). Qed.

Lemma lor_low x : x < 1024 -> N.lor 56320 x = 56320 + x.
Proof. intros H. apply (lor_shiftl_add 55 x 10 H). Qed.

(** The two halves of a character above U+FFFF, and the way back. *)
Lemma surrogates_of c :
  65536 <= c -> c < 1114112 ->
  let n := c - 65536 in
  let h := N.lor 55296 (N.land (N.shiftr n 10) 1023) in
  let l := N.lor 56320 (N.land n 1023) in
  is_high_surrogate h = true /\ is_low_surrogate l = true
  /\ h < 65536 /\ l < 65536 /\ join_surrogates h l = c.
Proof.
  intros H1 H2 n h l.
  assert (Hn : n < 1048576) by (unfold n; lia).
  assert (E1 : N.land (N.shiftr n 10) 1023 = n / 1024).
  { change 1023 with (N.ones 10). rewrite N.land_ones, N.shiftr_div_pow2.
    change (2 ^ 10) with 1024. apply N.mod_small. divlia. }
  assert (E2 : N.land n 1023 = n mod 1024).
  { change 1023 with (N.ones 10). now rewrite N.land_ones. }
  assert (Hh : h = 55296 + n / 1024).
  { unfold h. rewrite E1. apply lor_high. divlia. }
  assert (Hl : l = 56320 + n mod 1024).
  { unfold l. rewrite E2. apply lor_low. divlia. }
  unfold is_high_surrogate, is_low_surrogate, join_surrogates.
  rewrite !in_range_spec, Hh, Hl.
  split; [divlia|]. split; [divlia|]. split; [divlia|]. split; [divlia|].
  replace (55296 + n / 1024 - 55296) with (n / 1024) by lia.
  replace (56320 + n mod 1024 - 56320) with (n mod 1024) by lia.
  rewrite (lor_shiftl_add (n / 1024) (n mod 1024) 10) by divlia.
  change (2 ^ 10) with 1024. unfold n. divlia.
Qed.

Lemma hex_val_digit x : x < 16 -> hex_val (hex_digit x) = Some x.
Proof.
  intros H. unfold hex_digit, hex_val.
  destruct (x <? 10) eqn:E; [apply N.ltb_lt in E | apply N.ltb_ge in E].
  - replace (in_range 48 57 (48 + x)) with true
      by (symmetry; apply in_range_spec; lia).
    f_equal. lia.
  - replace (in_range 48 57 (87 + x)) with false
      by (symmetry; apply in_range_false; lia).
    replace (in_range 97 102 (87 + x)) with true
      by (symmetry; apply in_range_spec; lia).
    f_equal. lia.
Qed.

Lemma u_escape_cons n tail :
  u_escape n ++ tail
  = 92 :: 117 :: hex_digit ((n / 4096) mod 16) :: hex_digit ((n / 256) mod 16)
    :: hex_digit ((n / 16) mod 16) :: hex_digit (n mod 16) :: tail.
Proof. reflexivity. Qed.

Lemma hex4_val_hex4 n :
  n < 65536 ->
  hex4_val (hex_digit ((n / 4096) mod 16)) (hex_digit ((n / 256) mod 16))
    (hex_digit ((n / 16) mod 16)) (hex_digit (n mod 16)) = Some n.
Proof.
  intros H. unfold hex4_val.
  rewrite !hex_val_digit by (apply N.mod_upper_bound; discriminate).
  f_equal. divlia.
Qed.

(** One step of [scanstring], by the head of the input. *)
Lemma scanstring_plain c tail :
  c <> 34 -> c <> 92 -> 31 < c ->
  scanstring (c :: tail) = cons_fst c (scanstring tail).
Proof.
  intros H1 H2 H3. cbn [scanstring].
  apply N.eqb_neq in H1, H2. rewrite H1, H2.
  now replace (c <=? 31) with false by (symmetry; apply N.leb_gt; lia).
Qed.

Lemma scanstring_simple e x tail :
  e <> 117 -> unescape e = Some x ->
  scanstring (92 :: e :: tail) = cons_fst x (scanstring tail).
Proof.
  intros H1 H2. cbn [scanstring N.eqb Pos.eqb].
  apply N.eqb_neq in H1. now rewrite H1, H2.
Qed.

Lemma scanstring_u n tail :
  n < 65536 ->
  (is_high_surrogate n = true -> low_escape_free tail = true) ->
  scanstring (u_escape n ++ tail) = cons_fst n (scanstring tail).
Proof.
  intros Hn Hf. rewrite u_escape_cons. cbn [scanstring N.eqb Pos.eqb].
  rewrite (hex4_val_hex4 n Hn).
  destruct (is_high_surrogate n); [|reflexivity].
  specialize (Hf eq_refl). unfold low_escape_free in Hf.
  destruct tail as [|b1 [|b2 [|x1 [|x2 [|x3 [|x4 r3]]]]]]; try reflexivity.
  destruct ((b1 =? 92) && (b2 =? 117)); [|reflexivity].
  destruct (hex4_val x1 x2 x3 x4) as [l|]; [|discriminate].
  now destruct (is_low_surrogate l).
Qed.

Lemma scanstring_pair h l tail :
  h < 65536 -> l < 65536 ->
  is_high_surrogate h = true -> is_low_surrogate l = true ->
  scanstring (u_escape h ++ u_escape l ++ tail)
  = cons_fst (join_surrogates h l) (scanstring tail).
Proof.
  intros Hh Hl Ih Il. rewrite !u_escape_cons.
  cbn [scanstring N.eqb Pos.eqb andb].
  now rewrite (hex4_val_hex4 h Hh), Ih, (hex4_val_hex4 l Hl), Il.
Qed.

(** What [encode_char] writes does not read as the escape of a low
    surrogate, unless the character is one. *)
Lemma low_escape_free_encode c tail :
  is_code_point c = true -> is_low_surrogate c = false ->
  low_escape_free (encode_char c ++ tail) = true.
Proof.
  intros Hc Hl. unfold encode_char.
  repeat match goal with
         | |- context [if ?b then _ else _] => destruct b eqn:?
         end;
    try (cbn [List.app low_escape_free];
         destruct tail as [|? [|? [|? [|? [|? ?]]]]]; reflexivity).
  - (* a printable character *)
    cbn [List.app low_escape_free].
    apply N.eqb_neq in Heqb0.
    destruct tail as [|? [|? [|? [|? [|? ?]]]]]; try reflexivity.
    replace (c =? 92) with false by (symmetry; now apply N.eqb_neq).
    reflexivity.
  - (* one escape *)
    rewrite u_escape_cons. cbn [low_escape_free N.eqb Pos.eqb andb].
    apply N.ltb_lt in Heqb7. now rewrite (hex4_val_hex4 c Heqb7), Hl.
  - (* two escapes *)
    apply N.ltb_ge in Heqb7. unfold is_code_point in Hc.
    apply N.ltb_lt in Hc.
    destruct (surrogates_of c Heqb7 Hc) as (Ih & Il & Hh & _).
    rewrite <- app_assoc, u_escape_cons.
    cbn [low_escape_free N.eqb Pos.eqb andb].
    rewrite (hex4_val_hex4 _ Hh).
    unfold is_high_surrogate, is_low_surrogate in *.
    apply in_range_spec in Ih.
    apply negb_true_iff, in_range_false. lia.
Qed.

Lemma scanstring_encode_char c tail :
  is_code_point c = true ->
  (is_high_surrogate c = true -> low_escape_free tail = true) ->
  scanstring (encode_char c ++ tail) = cons_fst c (scanstring tail).
Proof.
  intros Hc Hf. unfold encode_char.
  destruct (c =? 34) eqn:E1;
    [apply N.eqb_eq in E1; subst; now apply scanstring_simple|].
  destruct (c =? 92) eqn:E2;
    [apply N.eqb_eq in E2; subst; now apply scanstring_simple|].
  destruct (c =? 10) eqn:E3;
    [apply N.eqb_eq in E3; subst; now apply scanstring_simple|].
  destruct (c =? 13) eqn:E4;
    [apply N.eqb_eq in E4; subst; now apply scanstring_simple|].
  destruct (c =? 9) eqn:E5;
    [apply N.eqb_eq in E5; subst; now apply scanstring_simple|].
  destruct (c =? 12) eqn:E6;
    [apply N.eqb_eq in E6; subst; now apply scanstring_simple|].
  destruct (c =? 8) eqn:E7;
    [apply N.eqb_eq in E7; subst; now apply scanstring_simple|].
  apply N.eqb_neq in E1, E2.
  destruct (in_range 32 126 c) eqn:E8.
  { apply in_range_spec in E8. apply scanstring_plain; auto; lia. }
  destruct (c <? 65536) eqn:E9.
  { apply N.ltb_lt in E9. now apply scanstring_u. }
  apply N.ltb_ge in E9. unfold is_code_point in Hc. apply N.ltb_lt in Hc.
  destruct (surrogates_of c E9 Hc) as (Ih & Il & Hh & Hl & Hj).
  cbv zeta. rewrite <- app_assoc, scanstring_pair by assumption.
  now rewrite Hj.
Qed.

Lemma text_ok_cons c s :
  text_ok (c :: s) = true ->
  is_code_point c = true /\ text_ok s = true
  /\ (is_high_surrogate c = true ->
      match s with
      | c' :: _ => is_low_surrogate c' = false
      | [] => True
      end).
Proof.
  unfold text_ok. cbn [forallb no_surrogate_pair].
  rewrite !andb_true_iff. intros [[Hc Hs] Hp]. split; [exact Hc|].
  destruct s as [|c' s'].
  - repeat split; auto.
  - apply andb_true_iff in Hp as [Hp1 Hp2].
    split; [now rewrite Hs, Hp2|].
    intros Hh. rewrite Hh in Hp1. cbn in Hp1.
    now apply negb_true_iff in Hp1.
Qed.

Lemma scanstring_encode s rest :
  text_ok s = true ->
  scanstring (flat_map encode_char s ++ 34 :: rest) = Some (s, rest).
Proof.
  induction s as [|c s IH]; intros H; [reflexivity|].
  apply text_ok_cons in H as (Hc & Hs & Hp).
  cbn [flat_map]. rewrite <- app_assoc.
  rewrite scanstring_encode_char; [now rewrite (IH Hs) | exact Hc |].
  intros Hh. specialize (Hp Hh). destruct s as [|c' s'].
  { cbn [flat_map List.app low_escape_free].
    destruct rest as [|? [|? [|? [|? [|? ?]]]]]; reflexivity. }
  cbn [flat_map]. rewrite <- app_assoc.
  apply low_escape_free_encode; [|exact Hp].
  now apply text_ok_cons in Hs as (Hc' & _).
Qed.

Lemma encode_string_app s rest :
  encode_string s ++ rest = 34 :: flat_map encode_char s ++ 34 :: rest.
Proof. unfold encode_string. cbn. now rewrite <- app_assoc. Qed.

(* ================================================================= *)
(** ** [json.load] reads what [json.dump] writes *)

(** *** White space and the layout of [indent=2] *)

Lemma skip_ws_stop c r : json_ws c = false -> skip_ws (c :: r) = c :: r.
Proof. intros H. cbn [skip_ws]. now rewrite H. Qed.

Lemma skip_ws_spaces n r : skip_ws (repeat 32 n ++ r) = skip_ws r.
Proof. induction n as [|n IH]; [reflexivity | exact IH]. Qed.

Lemma skip_ws_newline_indent lvl r :
  skip_ws (newline_indent lvl ++ r) = skip_ws r.
Proof. unfold newline_indent. cbn [List.app skip_ws]. apply skip_ws_spaces. Qed.

(** *** Numbers *)

Lemma follow_ok_no_digit rest :
  follow_ok rest = true ->
  match rest with c :: _ => is_digit09 c = false | [] => True end.
Proof.
  destruct rest as [|c r]; [trivial|]. cbn [follow_ok].
  rewrite orb_true_iff, !N.eqb_eq. intros [-> | ->]; reflexivity.
Qed.

Lemma take_frac_follow rest :
  follow_ok rest = true -> take_frac rest = ([], rest).
Proof.
  destruct rest as [|c [|d r]]; try reflexivity. cbn [follow_ok take_frac].
  rewrite orb_true_iff, !N.eqb_eq. intros [-> | ->]; reflexivity.
Qed.

Lemma take_exp_follow rest :
  follow_ok rest = true -> take_exp rest = ([], rest).
Proof.
  destruct rest as [|c r]; [reflexivity|]. cbn [follow_ok take_exp].
  rewrite orb_true_iff, !N.eqb_eq. intros [-> | ->]; reflexivity.
Qed.

Lemma match_number_nat (neg : bool) n rest :
  follow_ok rest = true ->
  (neg = true -> n <> 0) ->
  match_number ((if neg then [45] else []) ++ repr_nat n ++ rest)
  = Some (VInt (if neg then (- Z.of_N n)%Z else Z.of_N n), rest).
Proof.
  intros Hf Hn.
  assert (M : forall s, match s with
                        | c :: _ => in_range 48 57 c = true
                        | [] => False
                        end ->
              match_number ((if neg then [45] else []) ++ s)
              = match s with
                | [] => None
                | c :: r1 =>
                    let ipart :=
                      if in_range 49 57 c
                      then let (ds, r2) := take_digits r1 in Some (c :: ds, r2)
                      else if c =? 48 then Some ([c], r1) else None in
                    match ipart with
                    | None => None
                    | Some (ids, r2) =>
                        let (frac, r3) := take_frac r2 in
                        let (ex, r4) := take_exp r3 in
                        match frac, ex with
                        | [], [] => Some (VInt (int_of_digits neg ids), r4)
                        | _, _ =>
                            Some (VFloat ((if neg then [45] else [])
                                          ++ ids ++ frac ++ ex), r4)
                        end
                    end
                end).
  { intros [|c r] Hc; [contradiction|]. destruct neg; [reflexivity|].
    unfold match_number. cbn [List.app].
    apply in_range_spec in Hc.
    now replace (c =? 45) with false by (symmetry; apply N.eqb_neq; lia). }
  destruct n as [|p].
  - (* zero *)
    destruct neg; [exfalso; now apply Hn|].
    change (repr_nat 0 ++ rest) with (48 :: rest).
    rewrite M by reflexivity. cbv zeta. cbn [in_range N.leb N.compare
      Pos.compare Pos.compare_cont andb N.eqb Pos.eqb].
    rewrite take_frac_follow, take_exp_follow by assumption. reflexivity.
  - destruct (pos_to_uint_head p) as (c & r & E & Hc & Hr).
    pose proof (ascii_value_repr (Npos p)) as D. rewrite E in *.
    cbn [List.app]. rewrite M by (apply in_range_spec in Hc;
                                  apply in_range_spec; lia).
    cbv zeta. rewrite Hc.
    rewrite (take_digits_app r rest Hr (follow_ok_no_digit rest Hf)).
    rewrite take_frac_follow, take_exp_follow by assumption.
    unfold int_of_digits. now rewrite D.
Qed.

Lemma repr_int_sign z :
  exists (neg : bool) (n : N),
    repr_int z = (if neg then [45] else []) ++ repr_nat n
    /\ z = (if neg then (- Z.of_N n)%Z else Z.of_N n)
    /\ (neg = true -> n <> 0).
Proof.
  destruct z as [|p|p].
  - exists false, 0. repeat split. discriminate.
  - exists false, (Npos p). repeat split. discriminate.
  - exists true, (Npos p). repeat split. discriminate.
Qed.

Lemma match_number_repr z rest :
  follow_ok rest = true ->
  match_number (repr_int z ++ rest) = Some (VInt z, rest).
Proof.
  intros Hf. destruct (repr_int_sign z) as (neg & n & -> & -> & Hn).
  rewrite <- app_assoc. now apply match_number_nat.
Qed.

(** The first character of a numeral: a digit or the minus sign, and a
    digit after the sign. *)
Lemma repr_int_head z :
  exists c r,
    repr_int z = c :: r
    /\ ((in_range 48 57 c = true)
        \/ (c = 45 /\ exists d r', r = d :: r' /\ in_range 48 57 d = true)).
Proof.
  destruct z as [|p|p].
  - exists 48, []. split; [reflexivity | now left].
  - destruct (pos_to_uint_head p) as (c & r & E & Hc & _).
    exists c, r. split; [exact E|]. left.
    apply in_range_spec in Hc. apply in_range_spec. lia.
  - destruct (pos_to_uint_head p) as (c & r & E & Hc & _).
    exists 45, (c :: r). split; [cbn [repr_int]; now rewrite E|].
    right. split; [reflexivity|]. exists c, r. split; [reflexivity|].
    apply in_range_spec in Hc. apply in_range_spec. lia.
Qed.

Lemma minus_infinity_codes :
  u "-Infinity" = [45; 73; 110; 102; 105; 110; 105; 116; 121].
Proof. reflexivity. Qed.

Lemma parse_value_int f z rest :
  follow_ok rest = true ->
  parse_value (S f) (repr_int z ++ rest) = Some (VInt z, rest).
Proof.
  intros Hf. rewrite <- (match_number_repr z rest Hf).
  destruct (repr_int_head z) as (c & r & E & H). rewrite E.
  cbn [List.app parse_value]. unfold try_literal at 6.
  rewrite minus_infinity_codes.
  destruct H as [H | [-> (d & r' & -> & H)]]; apply in_range_spec in H.
  - repeat match goal with
           | |- context [c =? ?k] =>
               replace (c =? k) with false
                 by (symmetry; apply N.eqb_neq; lia)
           end.
    cbn [strip_prefix].
    replace (45 =? c) with false by (symmetry; apply N.eqb_neq; lia).
    reflexivity.
  - cbn [List.app strip_prefix].
    replace (73 =? d) with false by (symmetry; apply N.eqb_neq; lia).
    reflexivity.
Qed.

(** *** Values *)

(** The first character of the text of a value: no white space, and not
    the bracket that closes a list. *)
Lemma dump_head v lvl :
  plain v = true ->
  exists c r, dump lvl v = c :: r /\ json_ws c = false /\ (c =? 93) = false.
Proof.
  destruct v as [| [|] | z | l | s | [|x l] | [|x d]]; intros H;
    try discriminate; try (eexists _, _; repeat split; reflexivity).
  destruct (repr_int_head z) as (c & r & E & Hc).
  exists c, r. split; [exact E|].
  destruct Hc as [Hc | [-> _]]; [|split; reflexivity].
  apply in_range_spec in Hc. unfold json_ws.
  rewrite !orb_false_iff, !N.eqb_neq. repeat split; lia.
Qed.

Lemma skip_ws_dump v lvl rest :
  plain v = true -> skip_ws (dump lvl v ++ rest) = dump lvl v ++ rest.
Proof.
  intros H. destruct (dump_head v lvl H) as (c & r & -> & Hc & _).
  now apply skip_ws_stop.
Qed.

Lemma dict_set_fresh k v d :
  existsb (str_eqb k) (map fst d) = false -> dict_set k v d = d ++ [(k, v)].
Proof.
  induction d as [|[k' v'] d IH]; [reflexivity|].
  cbn [map fst existsb dict_set]. intros H.
  apply orb_false_iff in H as [H1 H2]. now rewrite H1, (IH H2).
Qed.

Lemma distinct_app_cons a k b :
  distinct (a ++ k :: b) = true ->
  existsb (str_eqb k) a = false /\ distinct ((a ++ [k]) ++ b) = true.
Proof.
  intros H. split.
  - induction a as [|x a IH]; [reflexivity|].
    cbn [List.app distinct existsb] in *.
    apply andb_true_iff in H as [H1 H2]. rewrite (IH H2), orb_false_r.
    apply negb_true_iff in H1. rewrite existsb_app in H1.
    apply orb_false_iff in H1 as [_ H1]. cbn [existsb] in H1.
    apply orb_false_iff in H1 as [H1 _].
    destruct (str_eqb k x) eqn:E; [|reflexivity].
    apply str_eqb_eq in E. subst. now rewrite str_eqb_refl in H1.
  - now rewrite <- app_assoc.
Qed.

Lemma dict_of_pairs_distinct ps :
  distinct (map fst ps) = true -> dict_of_pairs ps = ps.
Proof.
  unfold dict_of_pairs.
  assert (G : forall acc,
             distinct (map fst (acc ++ ps)) = true ->
             fold_left (fun d kv => dict_set (fst kv) (snd kv) d) ps acc
             = acc ++ ps).
  { induction ps as [|[k v] ps IH]; intros acc H.
    - now rewrite app_nil_r.
    - cbn [fold_left fst snd]. rewrite map_app in H. cbn [map fst] in H.
      apply distinct_app_cons in H as [H1 H2].
      rewrite dict_set_fresh by exact H1.
      rewrite IH; [now rewrite <- app_assoc|].
      now rewrite !map_app. }
  apply (G []).
Qed.

Lemma elements_text_cons lvl x l :
  elements_text lvl (x :: l)
  = dump (S lvl) x
    ++ match l with
       | [] => []
       | _ => 44 :: newline_indent (S lvl) ++ elements_text lvl l
       end.
Proof. unfold elements_text. cbn [map join]. now destruct l. Qed.

Lemma members_text_cons lvl x d :
  members_text lvl (x :: d)
  = member_text lvl x
    ++ match d with
       | [] => []
       | _ => 44 :: newline_indent (S lvl) ++ members_text lvl d
       end.
Proof. unfold members_text. cbn [map join]. now destruct d. Qed.

Lemma parse_elements_dump lvl l :
  Forall reads_back l -> forallb plain l = true -> l <> [] ->
  forall f rest,
    (list_sum (map (fun x => S (weight x)) l) <= f)%nat ->
    parse_elements f (elements_text lvl l ++ newline_indent lvl ++ 93 :: rest)
    = Some (l, rest).
Proof.
  induction 1 as [|x l Hx Hl IH]; intros Hp Hne f rest Hf; [congruence|].
  cbn [forallb] in Hp. apply andb_true_iff in Hp as [Hpx Hpl].
  cbn [map list_sum fold_right] in Hf. destruct f as [|f]; [lia|].
  cbn [parse_elements]. rewrite elements_text_cons, <- app_assoc.
  rewrite (Hx (S lvl)) by (auto; try lia; now destruct l).
  destruct l as [|y l].
  - cbn [List.app]. rewrite skip_ws_newline_indent.
    now rewrite skip_ws_stop by reflexivity.
  - cbn [List.app]. rewrite skip_ws_stop by reflexivity.
    cbn [N.eqb Pos.eqb]. rewrite <- app_assoc, skip_ws_newline_indent.
    rewrite elements_text_cons, <- app_assoc.
    rewrite skip_ws_dump
      by (cbn [forallb] in Hpl; now apply andb_true_iff in Hpl as [? _]).
    rewrite app_assoc, <- elements_text_cons.
    rewrite IH; [reflexivity | exact Hpl | discriminate
               | unfold list_sum in *; lia].
Qed.

Lemma parse_members_dump lvl d :
  Forall (fun kv => reads_back (snd kv)) d ->
  forallb (fun kv => text_ok (fst kv) && plain (snd kv)) d = true ->
  forall k v d', d = (k, v) :: d' ->
  forall f rest,
    (list_sum (map (fun kv => S (weight (snd kv))) d) <= f)%nat ->
    parse_members f
      (flat_map encode_char k ++ 34 :: 58 :: 32 :: dump (S lvl) v
       ++ match d' with
          | [] => []
          | _ => 44 :: newline_indent (S lvl) ++ members_text lvl d'
          end
       ++ newline_indent lvl ++ 125 :: rest)
    = Some (d, rest).
Proof.
  induction 1 as [|x d Hx Hd IH]; intros Hp k v d' E f rest Hf;
    [discriminate|].
  injection E as -> ->.
  cbn [forallb fst snd] in Hp. apply andb_true_iff in Hp as [Hpx Hpd].
  apply andb_true_iff in Hpx as [Hk Hv].
  cbn [map list_sum fold_right snd] in Hf. destruct f as [|f]; [lia|].
  cbn [parse_members]. rewrite scanstring_encode by exact Hk.
  rewrite skip_ws_stop by reflexivity. cbn [N.eqb Pos.eqb].
  cbn [skip_ws json_ws N.eqb Pos.eqb orb].
  rewrite skip_ws_dump by exact Hv.
  cbn [snd] in Hx.
  rewrite (Hx (S lvl)) by (auto; try lia; now destruct d').
  destruct d' as [|[k' v'] d''].
  - cbn [List.app]. rewrite skip_ws_newline_indent.
    now rewrite skip_ws_stop by reflexivity.
  - cbn [List.app]. rewrite skip_ws_stop by reflexivity.
    cbn [N.eqb Pos.eqb]. rewrite <- app_assoc, skip_ws_newline_indent.
    rewrite members_text_cons. unfold member_text at 1. cbn [fst snd].
    rewrite <- !app_assoc, encode_string_app.
    rewrite skip_ws_stop by reflexivity. cbn [N.eqb Pos.eqb List.app].
    rewrite (IH Hpd k' v' d'' eq_refl) by (unfold list_sum in *; lia).
    reflexivity.
Qed.

Lemma plain_dict d :
  plain (VDict d) = true ->
  distinct (map fst d) = true
  /\ forallb (fun kv => text_ok (fst kv) && plain (snd kv)) d = true.
Proof. cbn [plain]. now rewrite andb_true_iff. Qed.

Lemma dump_list_app lvl x l rest :
  dump lvl (VList (x :: l)) ++ rest
  = 91 :: newline_indent (S lvl)
    ++ (elements_text lvl (x :: l) ++ newline_indent lvl ++ 93 :: rest).
Proof.
  rewrite dump_list_cons. unfold elements_text. cbn [List.app].
  now rewrite <- !app_assoc.
Qed.

Lemma dump_dict_app lvl k x d rest :
  dump lvl (VDict ((k, x) :: d)) ++ rest
  = 123 :: newline_indent (S lvl)
    ++ 34 :: (flat_map encode_char k ++ 34 :: 58 :: 32 :: dump (S lvl) x
              ++ match d with
                 | [] => []
                 | _ => 44 :: newline_indent (S lvl) ++ members_text lvl d
                 end
              ++ newline_indent lvl ++ 125 :: rest).
Proof.
  rewrite dump_dict_cons.
  destruct d; unfold members_text, member_text, encode_string;
    cbn [map join fst snd];
    repeat first [rewrite <- app_assoc | progress cbn [List.app]];
    reflexivity.
Qed.

(** Every plain value is read back from its text, whatever follows it in
    the text of a larger value. *)
Lemma parse_value_dump v : reads_back v.
Proof.
  induction v as [| b | z | l | s | l IH | d IH] using value_rect';
    intros lvl rest f Hp Hf Hr;
    (destruct f as [|f]; [cbn [weight] in Hf; lia|]).
  - reflexivity.
  - destruct b; reflexivity.
  - now apply parse_value_int.
  - discriminate.
  - cbn [dump]. rewrite encode_string_app.
    cbn [parse_value N.eqb Pos.eqb].
    cbn [plain] in Hp. now rewrite scanstring_encode.
  - destruct l as [|x l]; [reflexivity|].
    rewrite dump_list_app. cbn [parse_value N.eqb Pos.eqb].
    rewrite skip_ws_newline_indent.
    cbn [plain] in Hp. cbn [weight] in Hf.
    pose proof (parse_elements_dump lvl (x :: l) IH Hp) as P.
    set (T := elements_text lvl (x :: l) ++ newline_indent lvl ++ 93 :: rest).
    assert (HT : exists c r, T = c :: r /\ json_ws c = false
                             /\ (c =? 93) = false).
    { unfold T. rewrite elements_text_cons, <- app_assoc.
      assert (Hx : plain x = true)
        by (cbn [forallb] in Hp; now apply andb_true_iff in Hp as [? _]).
      destruct (dump_head x (S lvl) Hx) as (c & r & E & Hc & Hc').
      rewrite E. eexists _, _. split; [reflexivity | auto]. }
    destruct HT as (c & r & ET & Hc & Hc').
    rewrite ET, skip_ws_stop by exact Hc. rewrite Hc', <- ET. unfold T.
    rewrite P; [reflexivity | discriminate | lia].
  - destruct d as [|[k x] d]; [reflexivity|].
    rewrite dump_dict_app. cbn [parse_value N.eqb Pos.eqb].
    rewrite skip_ws_newline_indent, skip_ws_stop by reflexivity.
    cbn [N.eqb Pos.eqb].
    apply plain_dict in Hp as [Hk Hp]. cbn [weight] in Hf.
    rewrite (parse_members_dump lvl ((k, x) :: d) IH Hp k x d eq_refl)
      by lia.
    now rewrite dict_of_pairs_distinct.
Qed.

(** The text of a value is at least as long as the value is heavy, so the
    counter [json_loads] starts with is high enough. *)
Lemma length_join_ge sep (l : list str) (w : list nat) :
  Forall2 (fun x n => (n <= List.length x)%nat) l w ->
  (1 <= List.length sep)%nat ->
  (list_sum (map S w) <= List.length (join sep l) + 1)%nat.
Proof.
  intros H Hs. unfold list_sum.
  induction H as [|x n l w Hx Hl IH]; [cbn; lia|].
  cbn [map fold_right join]. rewrite length_app.
  destruct l as [|y l].
  - inversion Hl; subst. cbn. lia.
  - rewrite length_app. lia.
Qed.

Lemma weight_le_length v :
  forall lvl, plain v = true -> (weight v <= List.length (dump lvl v))%nat.
Proof.
  induction v as [| b | z | l | s | l IH | d IH] using value_rect';
    intros lvl Hp.
  - cbn. lia.
  - destruct b; cbn; lia.
  - destruct (repr_int_head z) as (c & r & E & _).
    cbn [weight dump]. rewrite E. cbn. lia.
  - discriminate.
  - cbn [weight dump]. unfold encode_string. cbn. lia.
  - destruct l as [|x l]; [cbn; lia|].
    rewrite dump_list_cons. cbn [weight List.length].
    rewrite !length_app. cbn [plain] in Hp.
    assert (F : Forall2 (fun x n => (n <= List.length x)%nat)
                  (map (dump (S lvl)) (x :: l)) (map weight (x :: l))).
    { clear -IH Hp. induction (x :: l) as [|y l' IHl]; [constructor|].
      cbn [forallb] in Hp. apply andb_true_iff in Hp as [Hy Hp].
      inversion IH; subst. constructor; auto. }
    pose proof (length_join_ge (44 :: newline_indent (S lvl)) _ _ F) as J.
    rewrite map_map in J. cbn [List.length] in J.
    assert (1 <= List.length (newline_indent (S lvl)))%nat by (cbn; lia).
    unfold list_sum in *. lia.
  - destruct d as [|x d]; [cbn; lia|].
    rewrite dump_dict_cons. cbn [weight List.length].
    rewrite !length_app. apply plain_dict in Hp as [_ Hp].
    assert (F : Forall2 (fun x n => (n <= List.length x)%nat)
                  (map (fun kv => encode_string (fst kv) ++ [58; 32]
                                  ++ dump (S lvl) (snd kv)) (x :: d))
                  (map (fun kv => weight (snd kv)) (x :: d))).
    { clear -IH Hp. induction (x :: d) as [|y l' IHl]; [constructor|].
      cbn [forallb] in Hp. apply andb_true_iff in Hp as [Hy Hp].
      apply andb_true_iff in Hy as [_ Hy].
      inversion IH; subst. constructor; auto.
      rewrite !length_app. specialize (H1 (S lvl) Hy). lia. }
    pose proof (length_join_ge (44 :: newline_indent (S lvl)) _ _ F) as J.
    rewrite map_map in J. cbn [List.length] in J.
    assert (1 <= List.length (newline_indent (S lvl)))%nat by (cbn; lia).
    unfold list_sum in *. lia.
Qed.

(** [json.loads(json.dumps(v, indent=2)) == v] for every plain value. *)
Lemma json_loads_dumps v : plain v = true -> json_loads (json_dumps v) = Some v.
Proof.
  intros Hp. unfold json_loads, json_dumps.
  rewrite <- (app_nil_r (dump 0 v)) at 2.
  rewrite skip_ws_dump by exact Hp.
  rewrite (parse_value_dump v 0%nat []); auto.
  unfold parse_fuel. pose proof (weight_le_length v 0%nat Hp). lia.
Qed.

(* ================================================================= *)
(** ** The counter of [parse_value] is never what stops it *)

Lemma cons_fst_some {A B} (x : A) (o : option (list A * B)) t r :
  cons_fst x o = Some (t, r) -> exists t', o = Some (t', r).
Proof.
  destruct o as [[t' r']|]; [|discriminate]. cbn. intros H.
  injection H as _ <-. now exists t'.
Qed.

Lemma skip_ws_length s : (List.length (skip_ws s) <= List.length s)%nat.
Proof.
  induction s as [|c s IH]; [cbn; lia|]. cbn [skip_ws].
  destruct (json_ws c); cbn [List.length]; lia.
Qed.

Lemma scanstring_shorter n : forall s t r,
  (List.length s <= n)%nat -> scanstring s = Some (t, r) ->
  (List.length r < List.length s)%nat.
Proof.
  induction n as [|n IH]; intros s t r Hn H;
    (destruct s as [|c s]; [discriminate|]); [cbn in Hn; lia|].
  cbn [scanstring] in H. cbn [List.length] in *.
  assert (K : forall x X, (List.length X <= n)%nat ->
                          cons_fst x (scanstring X) = Some (t, r) ->
                          (List.length r < List.length X)%nat).
  { intros x X HX HE. apply cons_fst_some in HE as (t' & HE).
    now apply IH in HE. }
  destruct (c =? 34); [injection H as <- <-; lia|].
  destruct (c =? 92).
  - destruct s as [|e s1]; [discriminate|]. cbn [List.length] in *.
    destruct (e =? 117).
    + destruct s1 as [|a [|b [|c' [|d r2]]]]; try discriminate.
      cbn [List.length] in *.
      destruct (hex4_val a b c' d) as [h|]; [|discriminate].
      destruct (is_high_surrogate h);
        [|apply K in H; lia].
      destruct r2 as [|b1 [|b2 [|x1 [|x2 [|x3 [|x4 r3]]]]]];
        try (apply K in H; cbn [List.length] in *; lia).
      cbn [List.length] in *.
      destruct ((b1 =? 92) && (b2 =? 117));
        [|apply K in H; cbn [List.length] in *; lia].
      destruct (hex4_val x1 x2 x3 x4) as [l|]; [|discriminate].
      destruct (is_low_surrogate l);
        apply K in H; cbn [List.length] in *; lia.
    + destruct (unescape e); [|discriminate]. apply K in H; lia.
  - destruct (c <=? 31); [discriminate|]. apply K in H; lia.
Qed.

Lemma take_digits_length s :
  (List.length (snd (take_digits s)) <= List.length s)%nat.
Proof.
  induction s as [|c s IH]; [cbn; lia|]. cbn [take_digits].
  destruct (is_digit09 c); [|cbn; lia].
  destruct (take_digits s) as [d r']. cbn in *. lia.
Qed.

Lemma take_frac_length s :
  (List.length (snd (take_frac s)) <= List.length s)%nat.
Proof.
  destruct s as [|dot [|d r]]; try (cbn; lia). cbn [take_frac].
  destruct ((dot =? 46) && is_digit09 d); [|cbn; lia].
  pose proof (take_digits_length r) as L.
  destruct (take_digits r) as [ds r']. cbn in *. lia.
Qed.

Lemma take_exp_length s :
  (List.length (snd (take_exp s)) <= List.length s)%nat.
Proof.
  destruct s as [|e r]; [cbn; lia|]. cbn [take_exp].
  destruct ((e =? 101) || (e =? 69)); [|cbn; lia].
  destruct r as [|sg t].
  - cbn. lia.
  - destruct ((sg =? 45) || (sg =? 43)).
    + pose proof (take_digits_length t) as L.
      destruct (take_digits t) as [[|d ds] r2]; cbn in *; lia.
    + pose proof (take_digits_length (sg :: t)) as L.
      destruct (take_digits (sg :: t)) as [[|d ds] r2]; cbn in *; lia.
Qed.

Lemma match_number_shorter s v r :
  match_number s = Some (v, r) -> (List.length r < List.length s)%nat.
Proof.
  unfold match_number.
  set (p := match s with
            | c :: r0 => if c =? 45 then (true, r0) else (false, s)
            | [] => (false, s)
            end).
  assert (Hp : (List.length (snd p) <= List.length s)%nat).
  { unfold p. destruct s as [|c r0]; [cbn; lia|].
    destruct (c =? 45); cbn; lia. }
  destruct p as [neg r0]. cbn [snd] in Hp. cbv zeta.
  destruct r0 as [|c r1]; [discriminate|]. cbn [List.length] in Hp.
  set (ipart := if in_range 49 57 c
                then let (ds, r2) := take_digits r1 in Some (c :: ds, r2)
                else if c =? 48 then Some ([c], r1) else None).
  assert (Hi : match ipart with
               | Some (_, r2) => (List.length r2 <= List.length r1)%nat
               | None => True
               end).
  { unfold ipart. destruct (in_range 49 57 c).
    - pose proof (take_digits_length r1) as L.
      now destruct (take_digits r1).
    - destruct (c =? 48); [cbn; lia | trivial]. }
  destruct ipart as [[ids r2]|]; [|discriminate].
  pose proof (take_frac_length r2) as Lf.
  destruct (take_frac r2) as [frac r3]. cbn [snd] in Lf.
  pose proof (take_exp_length r3) as Le.
  destruct (take_exp r3) as [ex r4]. cbn [snd] in Le.
  intros H.
  assert (r = r4).
  { destruct frac, ex; now injection H. }
  subst. lia.
Qed.

Lemma strip_prefix_length p : forall s r,
  strip_prefix p s = Some r ->
  List.length s = (List.length p + List.length r)%nat.
Proof.
  induction p as [|x p IH]; intros s r H.
  - destruct s; injection H as <-; reflexivity.
  - destruct s as [|y s]; [discriminate|]. cbn [strip_prefix] in H.
    destruct (x =? y); [|discriminate]. cbn. now rewrite (IH _ _ H).
Qed.

Lemma try_literal_shorter lit v s x r :
  lit <> EmptyString -> try_literal lit v s = Some (x, r) ->
  (List.length r < List.length s)%nat.
Proof.
  intros Hl. unfold try_literal.
  destruct (strip_prefix (u lit) s) as [r'|] eqn:E; [|discriminate].
  intros H. injection H as _ <-. apply strip_prefix_length in E.
  destruct lit; [congruence|]. cbn in E. lia.
Qed.

(** What [parse_value] returns is shorter than what it was given. *)
Lemma parse_shorter f :
  (forall s v r, parse_value f s = Some (v, r) ->
                 (List.length r < List.length s)%nat)
  /\ (forall s v r, parse_elements f s = Some (v, r) ->
                    (List.length r < List.length s)%nat)
  /\ (forall s v r, parse_members f s = Some (v, r) ->
                    (List.length r < List.length s)%nat).
Proof.
  induction f as [|f (IHv & IHe & IHm)];
    [repeat split; intros; discriminate|].
  split; [|split].
  - intros s v r H. destruct s as [|c s]; [discriminate|].
    cbn [parse_value] in H. cbn [List.length].
    destruct (c =? 34).
    { destruct (scanstring s) as [[t r']|] eqn:E; [|discriminate].
      injection H as _ <-. apply scanstring_shorter with (n := List.length s) in E; lia. }
    destruct (c =? 123).
    { pose proof (skip_ws_length s) as L.
      destruct (skip_ws s) as [|c1 r1]; [discriminate|].
      cbn [List.length] in L.
      destruct (c1 =? 125); [injection H as _ <-; lia|].
      destruct (c1 =? 34); [|discriminate].
      destruct (parse_members f r1) as [[ps r2]|] eqn:E; [|discriminate].
      injection H as _ <-. apply IHm in E. lia. }
    destruct (c =? 91).
    { pose proof (skip_ws_length s) as L.
      destruct (skip_ws s) as [|c1 r1]; [discriminate|].
      cbn [List.length] in L.
      destruct (c1 =? 93); [injection H as _ <-; lia|].
      destruct (parse_elements f (c1 :: r1)) as [[vs r2]|] eqn:E;
        [|discriminate].
      injection H as _ <-. apply IHe in E. cbn [List.length] in E. lia. }
    change (S (List.length s)) with (List.length (c :: s)).
    repeat match type of H with
           | (if ?b then _ else _) = _ =>
               destruct b;
               [apply try_literal_shorter in H; [exact H | discriminate]|]
           end.
    destruct (try_literal "-Infinity" (VFloat (u "-Infinity")) (c :: s))
      as [[x r']|] eqn:E.
    + injection H as <- <-.
      apply try_literal_shorter in E; [exact E | discriminate].
    + now apply match_number_shorter in H.
  - intros s vs r H. cbn [parse_elements] in H.
    destruct (parse_value f s) as [[v r0]|] eqn:E; [|discriminate].
    apply IHv in E. pose proof (skip_ws_length r0) as L.
    destruct (skip_ws r0) as [|c r1]; [discriminate|].
    cbn [List.length] in L.
    destruct (c =? 93); [injection H as _ <-; lia|].
    destruct (c =? 44); [|discriminate].
    apply cons_fst_some in H as (t' & H). apply IHe in H.
    pose proof (skip_ws_length r1). lia.
  - intros s ps r H. cbn [parse_members] in H.
    destruct (scanstring s) as [[k r0]|] eqn:E; [|discriminate].
    apply scanstring_shorter with (n := List.length s) in E; [|lia].
    pose proof (skip_ws_length r0) as L0.
    destruct (skip_ws r0) as [|c r1]; [discriminate|].
    cbn [List.length] in L0.
    destruct (c =? 58); [|discriminate].
    pose proof (skip_ws_length r1) as L1.
    destruct (parse_value f (skip_ws r1)) as [[v r2]|] eqn:Ev;
      [|discriminate].
    apply IHv in Ev. pose proof (skip_ws_length r2) as L2.
    destruct (skip_ws r2) as [|c2 r3]; [discriminate|].
    cbn [List.length] in L2.
    destruct (c2 =? 125); [injection H as _ <-; lia|].
    destruct (c2 =? 44); [|discriminate].
    pose proof (skip_ws_length r3) as L3.
    destruct (skip_ws r3) as [|q r4]; [discriminate|].
    cbn [List.length] in L3.
    destruct (q =? 34); [|discriminate].
    apply cons_fst_some in H as (t' & H). apply IHm in H. lia.
Qed.

(** Two counters that are both above twice the length of the input give
    the same result: [None] from [json_loads] is a text that is not
    JSON, never a counter that ran out. *)
Lemma parse_fuel_enough f :
  (forall s f', (2 * List.length s < f)%nat -> (2 * List.length s < f')%nat ->
                parse_value f s = parse_value f' s)
  /\ (forall s f', (2 * List.length s + 2 <= f)%nat ->
                   (2 * List.length s + 2 <= f')%nat ->
                   parse_elements f s = parse_elements f' s)
  /\ (forall s f', (2 * List.length s + 2 <= f)%nat ->
                   (2 * List.length s + 2 <= f')%nat ->
                   parse_members f s = parse_members f' s).
Proof.
  induction f as [|f (IHv & IHe & IHm)];
    [repeat split; intros; lia|].
  split; [|split].
  - intros s [|f'] H H'; [lia|]. destruct s as [|c s]; [reflexivity|].
    cbn [parse_value]. cbn [List.length] in H, H'.
    pose proof (skip_ws_length s) as L.
    destruct (c =? 34); [reflexivity|].
    destruct (c =? 123).
    { destruct (skip_ws s) as [|c1 r1]; [reflexivity|].
      cbn [List.length] in L.
      destruct (c1 =? 125); [reflexivity|].
      destruct (c1 =? 34); [|reflexivity].
      now rewrite (IHm r1 f') by lia. }
    destruct (c =? 91); [|reflexivity].
    destruct (skip_ws s) as [|c1 r1]; [reflexivity|].
    cbn [List.length] in L.
    destruct (c1 =? 93); [reflexivity|].
    now rewrite (IHe (c1 :: r1) f') by (cbn [List.length]; lia).
  - intros s [|f'] H H'; [lia|]. cbn [parse_elements].
    rewrite (IHv s f') by lia.
    destruct (parse_value f' s) as [[v r0]|] eqn:E; [|reflexivity].
    apply (proj1 (parse_shorter f')) in E.
    pose proof (skip_ws_length r0) as L.
    destruct (skip_ws r0) as [|c r1]; [reflexivity|].
    cbn [List.length] in L.
    destruct (c =? 93); [reflexivity|].
    destruct (c =? 44); [|reflexivity].
    pose proof (skip_ws_length r1) as L1.
    now rewrite (IHe (skip_ws r1) f') by lia.
  - intros s [|f'] H H'; [lia|]. cbn [parse_members].
    destruct (scanstring s) as [[k r0]|] eqn:E; [|reflexivity].
    apply scanstring_shorter with (n := List.length s) in E; [|lia].
    pose proof (skip_ws_length r0) as L0.
    destruct (skip_ws r0) as [|c r1]; [reflexivity|].
    cbn [List.length] in L0.
    destruct (c =? 58); [|reflexivity].
    pose proof (skip_ws_length r1) as L1.
    rewrite (IHv (skip_ws r1) f') by lia.
    destruct (parse_value f' (skip_ws r1)) as [[v r2]|] eqn:Ev;
      [|reflexivity].
    apply (proj1 (parse_shorter f')) in Ev.
    pose proof (skip_ws_length r2) as L2.
    destruct (skip_ws r2) as [|c2 r3]; [reflexivity|].
    cbn [List.length] in L2.
    destruct (c2 =? 125); [reflexivity|].
    destruct (c2 =? 44); [|reflexivity].
    pose proof (skip_ws_length r3) as L3.
    destruct (skip_ws r3) as [|q r4]; [reflexivity|].
    cbn [List.length] in L3.
    destruct (q =? 34); [|reflexivity].
    now rewrite (IHm r4 f') by lia.
Qed.

(** [json_loads] with any higher counter is [json_loads]. *)
Lemma parse_value_fuel s f :
  (parse_fuel s <= f)%nat ->
  parse_value f (skip_ws s) = parse_value (parse_fuel s) (skip_ws s).
Proof.
  intros H. pose proof (skip_ws_length s) as L. unfold parse_fuel in *.
  apply (proj1 (parse_fuel_enough f)); lia.
Qed.

(* ================================================================= *)
(** ** Saving and loading the list *)

Lemma value_of_task_plain t :
  task_ok t = true -> plain (value_of_task t) = true.
Proof.
  unfold task_ok. intros H. apply andb_true_iff in H as [Ht Hd].
  unfold value_of_task. cbn [plain map fst snd forallb].
  rewrite Ht. destruct (due_date t) as [d|]; cbn [plain];
    [rewrite Hd|]; reflexivity.
Qed.

Lemma value_of_tasks_plain tasks :
  forallb task_ok tasks = true -> plain (value_of_tasks tasks) = true.
Proof.
  unfold value_of_tasks. cbn [plain].
  induction tasks as [|t ts IH]; [reflexivity|]. cbn [forallb map].
  intros H. apply andb_true_iff in H as [Ht Hts].
  now rewrite (value_of_task_plain t Ht), (IH Hts).
Qed.

Lemma task_of_value_of_task t : task_of_value (value_of_task t) = Some t.
Proof. destruct t as [i t [d|] b]; reflexivity. Qed.

Lemma tasks_of_value_of_tasks tasks :
  tasks_of_value (value_of_tasks tasks) = Some tasks.
Proof.
  unfold value_of_tasks. cbn [tasks_of_value].
  induction tasks as [|t ts IH]; [reflexivity|].
  cbn [map tasks_of_values]. now rewrite task_of_value_of_task, IH.
Qed.

Lemma load_tasks_saved tasks w :
  forallb task_ok tasks = true ->
  disk w = Content (saved tasks) ->
  load_tasks w = (Ok (value_of_tasks tasks), w).
Proof.
  intros Hok Hd. unfold load_tasks. rewrite Hd. unfold saved.
  assert (P : forallb printable (json_dumps (value_of_tasks tasks)) = true)
    by apply dump_printable, value_of_tasks_float_free.
  rewrite (utf8_decode_printable _ P), (universal_newlines_printable _ P).
  now rewrite json_loads_dumps by now apply value_of_tasks_plain.
Qed.

Lemma save_tasks_disk tasks w w' :
  save_tasks tasks w = (Ok tt, w') -> disk w' = Content (saved tasks).
Proof.
  unfold save_tasks, saved.
  rewrite utf8_encode_printable
    by (apply dump_printable, value_of_tasks_float_free).
  destruct (disk w); intros E; try discriminate; now injection E as <-.
Qed.

(** The condition on the text cannot be dropped from [load_tasks_saved]:
    of a title made of a high and a low surrogate, [json.dump] writes two
    escapes and [json.load] reads them as the one character U+1F600.  No
    list the program holds has such a title (see [loaded_tasks_ok] and
    [next_list_task_ok]). *)
Lemma surrogate_pair_not_read_back :
  let t := mktask 1 [55357; 56832] None false in
  let w := mkworld [] [] Absent in
  result (save_tasks [t]) w = Ok tt
  /\ result load_tasks (after (save_tasks [t]) w)
     = Ok (value_of_tasks [mktask 1 [128512] None false])
  /\ result load_tasks (after (save_tasks [t]) w) <> Ok (value_of_tasks [t]).
Proof.
  cbv zeta. split; [reflexivity|]. split; [reflexivity|].
  intros H. discriminate H.
Qed.

(** C1, as the code has it.  [load_tasks] changes nothing, and it raises
    nothing when the file is absent, or cannot be opened, or holds UTF-8
    text within the limits of the interpreter (brackets nested no deeper
    than [json_max_depth], no run of more than 4300 digits): it returns the
    empty list in the first two cases and when the text is not JSON, and
    otherwise the value the text denotes, whatever that value is.  On the
    text [save_tasks] wrote for a list of tasks, with titles and due dates
    free of surrogate pairs and ids within the limit of [int], this is that
    list, every field as it was. *)
Theorem load_tasks_spec (w : world) :
  after load_tasks w = w
  /\ (disk w = Absent -> result load_tasks w = Ok (VList []))
  /\ (disk w = Unreadable -> result load_tasks w = Ok (VList []))
  /\ (forall bs text,
         disk w = Content bs -> utf8_decode bs = Some text ->
         within_json_limits (universal_newlines text) = true ->
         result load_tasks w
         = match json_loads (universal_newlines text) with
           | Some v => Ok v
           | None => Ok (VList [])
           end)
  /\ (forall tasks,
         forallb task_ok tasks = true -> ids_within_limit tasks = true ->
         disk w = Content (saved tasks) ->
         result load_tasks w = Ok (value_of_tasks tasks)
         /\ tasks_of_value (value_of_tasks tasks) = Some tasks).
Proof.
  unfold after, result. split.
  { unfold load_tasks. destruct (disk w) as [| |bs]; try reflexivity.
    destruct (utf8_decode bs); [|reflexivity].
    now destruct (json_loads _). }
  split; [intros H; unfold load_tasks; now rewrite H|].
  split; [intros H; unfold load_tasks; now rewrite H|].
  split.
  { intros bs text H1 H2 _. unfold load_tasks. rewrite H1, H2.
    now destruct (json_loads _). }
  intros tasks Hok _ Hd. split; [|apply tasks_of_value_of_tasks].
  now rewrite (load_tasks_saved tasks w Hok Hd).
Qed.


(** C1, as it is stated, fails on a file that holds JSON which is not a
    list of tasks: the number 42, or a list of numbers.  [load_tasks]
    returns the value as it is, not the empty list. *)
Lemma load_tasks_returns_any_json :
  let w1 := mkworld [] [] (Content (u "42")) in
  let w2 := mkworld [] [] (Content (u "[1, 2]")) in
  load_tasks w1 = (Ok (VInt 42), w1)
  /\ tasks_of_value (VInt 42) = None
  /\ result load_tasks w1 <> Ok (VList [])
  /\ load_tasks w2 = (Ok (VList [VInt 1; VInt 2]), w2)
  /\ tasks_of_value (VList [VInt 1; VInt 2]) = None
  /\ result load_tasks w2 <> Ok (VList []).
Proof.
  cbv zeta. repeat split; try reflexivity; intros H; discriminate H.
Qed.

(** A file that is not UTF-8 is a third case: the exception of the codec
    is none of the two [load_tasks] catches. *)
Lemma load_tasks_undecodable :
  result load_tasks (mkworld [] [] (Content [255]))
  = Raise UnicodeDecodeError.
Proof. reflexivity. Qed.

(** A line in the form YYYY-MM-DD whose day does not exist in its month,
    or whose year is 0000, is no date for [strptime]. *)
Lemma strptime_impossible_day {db : unicode_db} y m d :
  y <= 9999 -> 1 <= m <= 12 -> 1 <= d <= 31 ->
  y = 0 \/ days_in_month y m < d ->
  strptime (strftime (mkdate y m d)) = None.
Proof.
  intros Hy Hm Hd Bad.
  pose proof (decimal_value_pad4 y Hy) as Dy.
  unfold strftime. cbn [year month day]. unfold pad4 in *. unfold strptime.
  change ([48 + y / 1000; 48 + (y / 100) mod 10; 48 + (y / 10) mod 10;
           48 + y mod 10] ++ [45] ++ pad2 m ++ [45] ++ pad2 d)
    with (48 + y / 1000 :: 48 + (y / 100) mod 10 :: 48 + (y / 10) mod 10
          :: 48 + y mod 10 :: 45 :: (pad2 m ++ 45 :: pad2 d)).
  cbv beta iota. rewrite Dy. cbn [N.eqb Pos.eqb].
  rewrite scan_month_pad2 by assumption.
  rewrite scan_day_pad2 by lia.
  replace ((1 <=? y) && (d <=? days_in_month y m)) with false;
    [reflexivity|].
  symmetry. apply andb_false_iff. destruct Bad as [-> | Bad].
  - left. reflexivity.
  - right. apply N.leb_gt. exact Bad.
Qed.



(* ================================================================= *)
(** ** [read_int] *)

(** The scenario of the specification: 9 is out of [1, 6] and costs one
    message, 3 is returned. *)
Lemma read_int_nine_then_three {db : unicode_db} p tr d :
  read_int p 1 6 (mkworld [u "9"; u "3"] tr d)
  = (Ok 3%Z,
     mkworld [] (tr ++ [EvPrompt p; EvPrint (range_message 1 6); EvPrompt p])
       d).
Proof.
  unfold read_int. erewrite loop_input_reject by reflexivity.
  erewrite loop_input_accept by reflexivity.
  now rewrite <- app_assoc.
Qed.

(** The first line that is a decimal numeral in the bounds is returned,
    when the lines before it are cleanly rejected; each of those costs one
    message. *)
Lemma read_int_first_acceptable {db : unicode_db} p lo hi pre : forall line rest tr d v,
  forallb (cleanly_rejected lo hi) pre = true ->
  isdigit (strip line) = true -> py_int (strip line) = Some v ->
  (lo <= v <= hi)%Z ->
  read_int p lo hi (mkworld (pre ++ line :: rest) tr d)
  = (Ok v,
     mkworld rest
       (tr ++ flat_map (fun _ => [EvPrompt p; EvPrint (range_message lo hi)])
                pre ++ [EvPrompt p]) d).
Proof.
  induction pre as [|x pre IH]; intros line rest tr d v Hpre Hd Hv Hr.
  - cbn [List.app flat_map]. unfold read_int.
    erewrite loop_input_accept; [reflexivity|].
    cbv zeta. rewrite Hd, Hv.
    replace ((lo <=? v)%Z && (v <=? hi)%Z) with true; [reflexivity|].
    symmetry. apply andb_true_iff. split; apply Z.leb_le; lia.
  - cbn [forallb] in Hpre. apply andb_true_iff in Hpre as [Hx Hpre].
    cbn [List.app flat_map].
    assert (E : read_int p lo hi (mkworld (x :: pre ++ line :: rest) tr d)
                = read_int p lo hi
                    (mkworld (pre ++ line :: rest)
                       (tr ++ [EvPrompt p; EvPrint (range_message lo hi)]) d)).
    { unfold read_int. apply loop_input_reject. cbv zeta.
      unfold cleanly_rejected in Hx.
      destruct (isdigit (strip x)); [|reflexivity].
      destruct (py_int (strip x)) as [y|]; [|discriminate].
      cbn in Hx. apply negb_true_iff in Hx. now rewrite Hx. }
    rewrite E, (IH _ _ _ _ _ Hpre Hd Hv Hr).
    now rewrite <- !app_assoc.
Qed.

(** C8 (the input on which the code leaves the loop with an exception).
    A line that holds the superscript two passes [isdigit], and [int]
    raises [ValueError] on it: the line is not rejected with a message,
    and the lines that follow, acceptable or not, are never read. *)
Theorem read_int_superscript_raises {db : unicode_db} (p : str) (lo hi : Z) (rest : list str)
  (tr : list event) (d : file) :
  isdigit (strip [178]) = true
  /\ py_int (strip [178]) = None
  /\ read_int p lo hi (mkworld ([178] :: rest) tr d)
     = (Raise ValueError, mkworld rest (tr ++ [EvPrompt p]) d)
  /\ result (read_int (u "Choose an option (1-6): ") 1 6)
       (mkworld [[178]; u "3"] [] Absent) = Raise ValueError.
Proof.
  repeat split; try reflexivity.
Qed.

(* ================================================================= *)
(** ** The actions on an empty list *)

(** C10.  On an empty list [mark_complete] and [delete_task] print their
    header and one message and return: the list is still empty, no line of
    input is taken, the file is as it was, and none of the events is a
    prompt or a write. *)
Theorem empty_list_actions_only_print {db : unicode_db} (w : world) :
  let done_ := [EvPrint (u "No tasks to mark complete.")] in
  let deleted_ := [EvPrint (u "No tasks to delete.")] in
  mark_complete [] w
  = (Ok [], emits (header_events (u "MARK TASK COMPLETE") ++ done_) w)
  /\ delete_task [] w
     = (Ok [], emits (header_events (u "DELETE A TASK") ++ deleted_) w)
  /\ stdin (after (mark_complete []) w) = stdin w
  /\ stdin (after (delete_task []) w) = stdin w
  /\ disk (after (mark_complete []) w) = disk w
  /\ disk (after (delete_task []) w) = disk w
  /\ forallb (fun e => negb (is_prompt e) && negb (is_write e))
       (header_events (u "MARK TASK COMPLETE") ++ done_
        ++ header_events (u "DELETE A TASK") ++ deleted_) = true.
Proof.
  cbv zeta.
  assert (E1 : mark_complete [] w
               = (Ok [], emits (header_events (u "MARK TASK COMPLETE")
                                ++ [EvPrint (u "No tasks to mark complete.")])
                           w)).
  { unfold mark_complete, bind.
    now rewrite print_header_emits, print_emits, emits_emits. }
  assert (E2 : delete_task [] w
               = (Ok [], emits (header_events (u "DELETE A TASK")
                                ++ [EvPrint (u "No tasks to delete.")]) w)).
  { unfold delete_task, bind.
    now rewrite print_header_emits, print_emits, emits_emits. }
  unfold after. rewrite E1, E2. repeat split; reflexivity.
Qed.

(* ================================================================= *)
(** ** The list operations *)

Lemma pop_spec i : forall tasks x r,
  pop i tasks = Some (x, r) <->
  exists before rest,
    tasks = before ++ x :: rest /\ List.length before = i
    /\ r = before ++ rest.
Proof.
  induction i as [|i IH]; intros [|t ts] x r; cbn [pop]; split.
  - discriminate.
  - intros ([|? ?] & rest & H & _); discriminate.
  - intros H. injection H as -> ->. exists [], r. auto.
  - intros ([|b before] & rest & H & L & ->); [|discriminate].
    now injection H as -> ->.
  - discriminate.
  - intros ([|? ?] & rest & H & _); discriminate.
  - destruct (pop i ts) as [[y r']|] eqn:E; [|discriminate].
    intros H. injection H as -> <-.
    apply IH in E as (before & rest & -> & <- & ->).
    exists (t :: before), rest. auto.
  - intros ([|b before] & rest & H & L & ->); [discriminate|].
    cbn in H, L. injection H as -> ->. injection L as <-.
    assert (E : pop (List.length before) (before ++ x :: rest)
                = Some (x, before ++ rest))
      by (apply IH; exists before, rest; auto).
    now rewrite E.
Qed.

Lemma set_complete_spec i : forall tasks tasks',
  set_complete i tasks = Some tasks' <->
  exists before t rest,
    tasks = before ++ t :: rest /\ List.length before = i
    /\ tasks' = before ++ mktask (id t) (title t) (due_date t) true :: rest.
Proof.
  induction i as [|i IH]; intros [|t ts] r; cbn [set_complete]; split.
  - discriminate.
  - intros ([|? ?] & ? & rest & H & _); discriminate.
  - intros H. injection H as <-. exists [], t, ts. auto.
  - intros ([|b before] & x & rest & H & L & ->); [|discriminate].
    now injection H as -> ->.
  - discriminate.
  - intros ([|? ?] & ? & rest & H & _); discriminate.
  - destruct (set_complete i ts) as [r'|] eqn:E; [|discriminate].
    intros H. injection H as <-.
    apply IH in E as (before & x & rest & -> & <- & ->).
    exists (t :: before), x, rest. auto.
  - intros ([|b before] & x & rest & H & L & ->); [discriminate|].
    cbn in H, L. injection H as -> ->. injection L as <-.
    assert (E : set_complete (List.length before) (before ++ x :: rest)
                = Some (before
                        ++ mktask (id x) (title x) (due_date x) true :: rest))
      by (apply IH; exists before, x, rest; auto).
    now rewrite E.
Qed.

Lemma split_at {A} (l : list A) i :
  (i < List.length l)%nat ->
  exists before x rest, l = before ++ x :: rest /\ List.length before = i.
Proof.
  revert i; induction l as [|a l IH]; intros i H; [cbn in H; lia|].
  destruct i as [|i].
  - exists [], a, l. auto.
  - destruct (IH i) as (b & x & r & -> & <-); [cbn in H; lia|].
    exists (a :: b), x, r. auto.
Qed.

Lemma nth_error_removed {A} (before rest : list A) x j :
  nth_error (before ++ rest) j
  = if (j <? List.length before)%nat
    then nth_error (before ++ x :: rest) j
    else nth_error (before ++ x :: rest) (S j).
Proof.
  destruct (j <? List.length before)%nat eqn:E.
  - apply Nat.ltb_lt in E. now rewrite !nth_error_app1.
  - apply Nat.ltb_ge in E. rewrite !nth_error_app2 by lia.
    replace (S j - List.length before)%nat
      with (S (j - List.length before)) by lia.
    reflexivity.
Qed.

(** *** [next_task_id] *)

Lemma fold_max_spec l : forall a,
  (a <= fold_left Z.max l a)%Z
  /\ Forall (fun x => (x <= fold_left Z.max l a)%Z) l
  /\ (fold_left Z.max l a = a \/ In (fold_left Z.max l a) l).
Proof.
  induction l as [|x l IH]; intros a; cbn [fold_left].
  - repeat split; auto. lia.
  - destruct (IH (Z.max a x)) as (H1 & H2 & H3). repeat split.
    + lia.
    + constructor; [lia | assumption].
    + destruct H3 as [H3 | H3]; [|right; now right].
      rewrite H3. destruct (Z.max_spec a x) as [[_ ->] | [_ ->]];
        [right; now left | now left].
Qed.

Lemma next_task_id_above tasks :
  Forall (fun t => (id t < next_task_id tasks)%Z) tasks.
Proof.
  destruct tasks as [|t r]; [constructor|]. cbn [next_task_id].
  destruct (fold_max_spec (map id r) (id t)) as (H1 & H2 & _).
  constructor; [lia|].
  rewrite Forall_map in H2. eapply Forall_impl; [|exact H2].
  cbn. intros. lia.
Qed.

Lemma next_task_id_max tasks :
  tasks <> [] ->
  exists t, In t tasks /\ next_task_id tasks = (id t + 1)%Z.
Proof.
  destruct tasks as [|t r]; [congruence|]. intros _. cbn [next_task_id].
  destruct (fold_max_spec (map id r) (id t)) as (_ & _ & [H | H]).
  - exists t. rewrite H. split; [now left | reflexivity].
  - apply in_map_iff in H as (x & Hx & Hin).
    exists x. rewrite <- Hx. split; [now right | reflexivity].
Qed.

(** The next id after the tasks of [n] adds is [n + 1]. *)
Lemma next_task_id_added adds :
  next_task_id (added adds) = Z.of_nat (S (List.length adds)).
Proof.
  unfold added.
  assert (G : forall k (l : list (str * option str)) a,
             (a <= Z.of_nat (k + List.length l))%Z ->
             fold_left Z.max
               (map id
                  (map (fun x => mktask (Z.of_nat (fst x)) (fst (snd x))
                                   (snd (snd x)) false)
                     (combine (seq (S k) (List.length l)) l)))
               a
             = if (List.length l =? 0)%nat then a
               else Z.of_nat (k + List.length l)).
  { intros k l; revert k; induction l as [|x l IH]; intros k a Ha.
    - reflexivity.
    - cbn [List.length seq combine map fold_left id fst].
      cbn [List.length] in Ha. rewrite IH by lia. cbn [Nat.eqb].
      destruct l; cbn [List.length Nat.eqb] in *; lia. }
  destruct adds as [|x l]; [reflexivity|].
  cbn [List.length seq combine map next_task_id id fst].
  rewrite (G 1%nat l) by lia.
  destruct l; cbn [List.length Nat.eqb]; lia.
Qed.

Lemma run_app ops1 ops2 tasks :
  run (ops1 ++ ops2) tasks = run ops2 (run ops1 tasks).
Proof. unfold run. apply fold_left_app. Qed.

Lemma combine_app {A B} (l1 l2 : list A) (m1 m2 : list B) :
  List.length l1 = List.length m1 ->
  combine (l1 ++ l2) (m1 ++ m2) = combine l1 m1 ++ combine l2 m2.
Proof.
  revert m1; induction l1 as [|a l1 IH]; intros [|b m1] H;
    try discriminate; [reflexivity|].
  cbn. f_equal. apply IH. now injection H.
Qed.

Lemma added_snoc adds x :
  added (adds ++ [x])
  = added adds
    ++ [mktask (Z.of_nat (S (List.length adds))) (fst x) (snd x) false].
Proof.
  unfold added. rewrite length_app. cbn [List.length].
  rewrite seq_app.
  rewrite combine_app by now rewrite length_seq.
  rewrite map_app. reflexivity.
Qed.

Lemma run_adds adds :
  run (map (fun a => DoAdd (fst a) (snd a)) adds) [] = added adds.
Proof.
  induction adds as [|x adds IH] using rev_ind; [reflexivity|].
  rewrite map_app, run_app, IH. cbn [map run fold_left apply_op].
  unfold add. now rewrite next_task_id_added, added_snoc.
Qed.

Lemma added_ids adds :
  map id (added adds) = map Z.of_nat (seq 1 (List.length adds)).
Proof.
  unfold added. rewrite map_map. cbn [id].
  generalize 1%nat. induction adds as [|x l IH]; intros k; [reflexivity|].
  cbn [List.length seq combine map fst]. now rewrite IH.
Qed.

Lemma seq_sorted k n : StronglySorted Z.lt (map Z.of_nat (seq k n)).
Proof.
  revert k; induction n as [|n IH]; intros k; cbn [seq map]; constructor.
  - apply IH.
  - rewrite Forall_map, Forall_forall. intros x Hx.
    apply in_seq in Hx. lia.
Qed.

Lemma sorted_nodup (l : list Z) : StronglySorted Z.lt l -> NoDup l.
Proof.
  induction 1 as [|x l Hs IH Hf]; constructor; auto.
  intros Hin. rewrite Forall_forall in Hf. specialize (Hf _ Hin). lia.
Qed.

(* ================================================================= *)
(** ** The three actions *)

(** C3.  [add_task] gives the new task the id [max + 1] ([1] on an empty
    list), the title and the due date its two prompts returned and
    [is_complete = False], puts it at the end and saves (the ids, the new
    one included, being within the limit of [int] on the number of digits,
    beyond which [json.dump] does not write them); a run of adds alone from
    the empty list therefore builds the tasks with the ids 1, 2, 3, ... in
    this order, strictly increasing and pairwise distinct. *)
Theorem add_task_spec {db : unicode_db} :
  next_task_id [] = 1%Z
  /\ (forall tasks,
         tasks <> [] ->
         (exists t, In t tasks /\ next_task_id tasks = (id t + 1)%Z)
         /\ Forall (fun t => (id t < next_task_id tasks)%Z) tasks)
  /\ (forall tasks w t w1 due w2,
         read_non_empty (u "Task title: ")
           (emits (header_events (u "ADD A TASK")) w) = (Ok t, w1) ->
         read_optional_date
           (u "Due date (YYYY-MM-DD) or press Enter to skip: ") w1
         = (Ok due, w2) ->
         disk w <> Unreadable ->
         ids_within_limit
           (tasks ++ [mktask (next_task_id tasks) t due false]) = true ->
         let tasks' := tasks ++ [mktask (next_task_id tasks) t due false] in
         add_task tasks w
         = (Ok tasks',
            mkworld (stdin w2)
              (trace w2 ++ [EvWrite (saved tasks');
                            EvPrint (u "Task added and saved!")])
              (Content (saved tasks'))))
  /\ (forall adds,
         run (map (fun a => DoAdd (fst a) (snd a)) adds) [] = added adds
         /\ map id (added adds) = map Z.of_nat (seq 1 (List.length adds))
         /\ StronglySorted Z.lt (map id (added adds))
         /\ NoDup (map id (added adds))).
Proof.
  split; [reflexivity|]. split.
  { intros tasks H. split; [now apply next_task_id_max|].
    apply next_task_id_above. }
  split.
  { intros tasks w t w1 due w2 H1 H2 Hd _ tasks'.
    unfold add_task, bind. rewrite print_header_emits, H1, H2.
    apply loop_input_consumes in H1 as [_ D1].
    apply loop_input_consumes in H2 as [_ D2].
    rewrite save_tasks_ok by (rewrite D2, D1; exact Hd).
    rewrite print_emits. unfold emits, ret. cbn.
    now rewrite <- app_assoc. }
  intros adds. split; [apply run_adds|]. split; [apply added_ids|].
  rewrite added_ids. split; [apply seq_sorted|].
  apply sorted_nodup, seq_sorted.
Qed.


Lemma index_of_choice choice n :
  (1 <= choice <= Z.of_nat n)%Z ->
  (index_of choice < n)%nat /\ Z.of_nat (index_of choice) = (choice - 1)%Z.
Proof. unfold index_of. lia. Qed.

(** C5.  On a list that is not empty, with [choice] the number
    [read_int] returned (so between 1 and the length), [delete_task] takes
    out the task at position [choice] and no other: the tasks before it
    stay where they are, those after it move up by one, all of them
    unchanged; it saves the list left and prints the title of the task
    taken out. *)
Theorem delete_task_spec {db : unicode_db} (tasks : list task) (w w1 : world) (choice : Z) :
  tasks <> [] ->
  disk w <> Unreadable ->
  read_int (10 :: u "Enter the task number to delete: ") 1
    (Z.of_nat (List.length tasks)) (asking "DELETE A TASK" tasks w)
  = (Ok choice, w1) ->
  exists before deleted rest,
    tasks = before ++ deleted :: rest
    /\ Z.of_nat (List.length before) = (choice - 1)%Z
    /\ delete_task tasks w
       = (Ok (before ++ rest),
          mkworld (stdin w1)
            (trace w1 ++ [EvWrite (saved (before ++ rest));
                          EvPrint (u "Deleted: " ++ title deleted)])
            (Content (saved (before ++ rest))))
    /\ List.length (before ++ rest) = (List.length tasks - 1)%nat
    /\ (forall j, (j < List.length before)%nat ->
                  nth_error (before ++ rest) j = nth_error tasks j)
    /\ (forall j, (List.length before <= j)%nat ->
                  nth_error (before ++ rest) j = nth_error tasks (S j))
    /\ nth_error tasks (List.length before) = Some deleted.
Proof.
  intros Hne Hd Hr.
  pose proof (read_int_range _ _ _ _ _ _ Hr) as Hc.
  destruct (index_of_choice _ _ Hc) as [Hi Hz].
  destruct (split_at tasks _ Hi) as (before & deleted & rest & Ht & Hl).
  exists before, deleted, rest.
  assert (Hp : pop (index_of choice) tasks = Some (deleted, before ++ rest)).
  { apply pop_spec. exists before, rest. auto. }
  split; [exact Ht|]. split; [lia|]. split.
  { unfold delete_task, bind. rewrite print_header_emits.
    destruct tasks as [|t0 ts]; [congruence|].
    rewrite list_tasks_emits, emits_emits.
    unfold asking in Hr. rewrite Hr, Hp.
    apply loop_input_consumes in Hr as [_ D1].
    rewrite save_tasks_ok by (rewrite D1; exact Hd).
    rewrite print_emits. unfold emits, ret. cbn.
    now rewrite <- app_assoc. }
  split; [rewrite Ht, !length_app; cbn; lia|].
  split; [|split].
  - intros j Hj. rewrite Ht, (nth_error_removed before rest deleted).
    now replace (j <? List.length before)%nat with true
      by (symmetry; apply Nat.ltb_lt; lia).
  - intros j Hj. rewrite Ht, (nth_error_removed before rest deleted).
    now replace (j <? List.length before)%nat with false
      by (symmetry; apply Nat.ltb_ge; lia).
  - rewrite Ht, nth_error_app2, Nat.sub_diag by lia. reflexivity.
Qed.


Lemma complete_idempotent i tasks :
  complete i (complete i tasks) = complete i tasks.
Proof.
  destruct i as [|j]; [reflexivity|]. cbn [complete].
  destruct (set_complete j tasks) as [tasks'|] eqn:E.
  - apply set_complete_spec in E as (b & t & r & -> & <- & ->).
    assert (E : set_complete (List.length b)
                  (b ++ mktask (id t) (title t) (due_date t) true :: r)
                = Some (b ++ mktask (id t) (title t) (due_date t) true :: r)).
    { apply set_complete_spec. eexists b, _, r. repeat split. }
    now rewrite E.
  - now rewrite E.
Qed.

(** C6.  On a list that is not empty, with [choice] the number
    [read_int] returned, [mark_complete] sets [is_complete] of the task at
    position [choice] and changes nothing else, in that task or in the
    others, and saves; doing it again with the same number changes
    nothing more. *)
Theorem mark_complete_spec {db : unicode_db} (tasks : list task) (w w1 : world) (choice : Z) :
  tasks <> [] ->
  disk w <> Unreadable ->
  read_int (10 :: u "Enter the task number to mark complete: ") 1
    (Z.of_nat (List.length tasks)) (asking "MARK TASK COMPLETE" tasks w)
  = (Ok choice, w1) ->
  exists before t rest,
    tasks = before ++ t :: rest
    /\ Z.of_nat (List.length before) = (choice - 1)%Z
    /\ let tasks' :=
         before ++ mktask (id t) (title t) (due_date t) true :: rest in
       mark_complete tasks w
       = (Ok tasks',
          mkworld (stdin w1)
            (trace w1 ++ [EvWrite (saved tasks');
                          EvPrint (u "Task marked complete and saved!")])
            (Content (saved tasks')))
       /\ tasks' = complete (Z.to_nat choice) tasks
       /\ complete (Z.to_nat choice) tasks' = tasks'
       /\ set_complete (index_of choice) tasks' = Some tasks'.
Proof.
  intros Hne Hd Hr.
  pose proof (read_int_range _ _ _ _ _ _ Hr) as Hc.
  destruct (index_of_choice _ _ Hc) as [Hi Hz].
  destruct (split_at tasks _ Hi) as (before & t & rest & Ht & Hl).
  exists before, t, rest.
  set (tasks' := before ++ mktask (id t) (title t) (due_date t) true :: rest).
  assert (Hp : set_complete (index_of choice) tasks = Some tasks').
  { apply set_complete_spec. exists before, t, rest. auto. }
  assert (Hq : tasks' = complete (Z.to_nat choice) tasks).
  { unfold complete. replace (Z.to_nat choice) with (S (index_of choice))
      by (unfold index_of; lia). now rewrite Hp. }
  split; [exact Ht|]. split; [lia|]. cbv zeta. fold tasks'. split.
  { unfold mark_complete, bind. rewrite print_header_emits.
    destruct tasks as [|t0 ts]; [congruence|].
    rewrite list_tasks_emits, emits_emits.
    unfold asking in Hr. rewrite Hr, Hp.
    apply loop_input_consumes in Hr as [_ D1].
    rewrite save_tasks_ok by (rewrite D1; exact Hd).
    rewrite print_emits. unfold emits, ret. cbn.
    now rewrite <- app_assoc. }
  split; [exact Hq|]. split.
  - rewrite Hq. apply complete_idempotent.
  - apply set_complete_spec. eexists before, _, rest.
    split; [reflexivity|]. split; [exact Hl | reflexivity].
Qed.


(* ================================================================= *)
(** ** Ids along a run of actions *)

Lemma complete_ids i tasks : map id (complete i tasks) = map id tasks.
Proof.
  destruct i as [|j]; [reflexivity|]. cbn [complete].
  destruct (set_complete j tasks) as [tasks'|] eqn:E; [|reflexivity].
  apply set_complete_spec in E as (b & t & r & -> & _ & ->).
  now rewrite !map_app.
Qed.

Lemma delete_split i tasks :
  exists before gone rest,
    tasks = before ++ gone ++ rest /\ delete i tasks = before ++ rest
    /\ (List.length gone <= 1)%nat.
Proof.
  destruct i as [|j]; cbn [delete].
  - exists tasks, [], []. rewrite !app_nil_r. auto.
  - destruct (pop j tasks) as [[x r]|] eqn:E.
    + apply pop_spec in E as (b & rest & -> & _ & ->).
      exists b, [x], rest. auto.
    + exists tasks, [], []. rewrite !app_nil_r. auto.
Qed.

Lemma NoDup_remove_middle {A} (b g r : list A) :
  NoDup (b ++ g ++ r) -> NoDup (b ++ r).
Proof.
  induction g as [|x g IH]; [trivial|]. cbn [List.app]. intros H.
  apply IH. eapply NoDup_remove_1. exact H.
Qed.

Lemma next_task_id_positive tasks :
  Forall (fun t => (1 <= id t)%Z) tasks -> (1 <= next_task_id tasks)%Z.
Proof.
  intros H. destruct tasks as [|t r]; [cbn; lia|].
  pose proof (next_task_id_above (t :: r)) as A.
  inversion H; subst. inversion A; subst. lia.
Qed.

Lemma apply_op_ids_ok o tasks : ids_ok tasks -> ids_ok (apply_op o tasks).
Proof.
  intros [Hn Hp]. destruct o as [t due | i | i]; cbn [apply_op].
  - unfold add. split.
    + rewrite map_app. cbn [map id].
      apply NoDup_app; [exact Hn | repeat constructor; auto |].
      intros x Hx [<- | []].
      apply in_map_iff in Hx as (y & Hy & Hin).
      pose proof (next_task_id_above tasks) as A.
      rewrite Forall_forall in A. specialize (A _ Hin). lia.
    + apply Forall_app. split; [exact Hp|].
      constructor; [|constructor]. cbn [id].
      now apply next_task_id_positive.
  - split; [now rewrite complete_ids|].
    rewrite <- Forall_map with (f := id) (P := fun x => (1 <= x)%Z) in *.
    now rewrite complete_ids.
  - destruct (delete_split i tasks) as (b & g & r & E & -> & _).
    rewrite E in Hn, Hp. rewrite !map_app in Hn.
    apply NoDup_remove_middle in Hn.
    apply Forall_app in Hp as [Hb Hp]. apply Forall_app in Hp as [_ Hr].
    split; [now rewrite map_app | now apply Forall_app].
Qed.

Lemma run_ids_ok ops : forall tasks, ids_ok tasks -> ids_ok (run ops tasks).
Proof.
  induction ops as [|o ops IH]; intros tasks H; [exact H|].
  cbn [run fold_left]. apply IH. now apply apply_op_ids_ok.
Qed.

Lemma delete_last tasks x : delete (S (List.length tasks)) (tasks ++ [x]) = tasks.
Proof.
  cbn [delete].
  assert (E : pop (List.length tasks) (tasks ++ [x]) = Some (x, tasks)).
  { apply pop_spec. exists tasks, []. now rewrite app_nil_r. }
  now rewrite E.
Qed.

(** C2, as the code has it.  Along every run of actions from the empty
    list the ids of the tasks in the list are positive and pairwise
    distinct, and no action changes the id of a task it leaves in the
    list: an add puts one id at the end, marking complete keeps all ids,
    and a delete takes at most one task out and leaves the others as they
    are.  The id an add hands out is one more than the greatest id in the
    list at that moment (1 when the list is empty), so greater than all
    those in the list; ids are therefore not kept from being used again:
    when the task added last is deleted, the next add hands out its id. *)
Theorem ids_distinct_and_never_changed (ops : list op) :
  NoDup (map id (run ops []))
  /\ Forall (fun t => (1 <= id t)%Z) (run ops [])
  /\ (forall t due,
         map id (add t due (run ops []))
         = map id (run ops []) ++ [next_task_id (run ops [])]
         /\ Forall (fun x => (x < next_task_id (run ops []))%Z)
              (map id (run ops [])))
  /\ (forall i, map id (complete i (run ops [])) = map id (run ops []))
  /\ (forall i, exists before gone rest,
         run ops [] = before ++ gone ++ rest
         /\ delete i (run ops []) = before ++ rest
         /\ (List.length gone <= 1)%nat)
  /\ match run ops [] with
     | [] => next_task_id (run ops []) = 1%Z
     | _ :: _ =>
         exists t, In t (run ops [])
                   /\ next_task_id (run ops []) = (id t + 1)%Z
                   /\ Forall (fun x => (id x <= id t)%Z) (run ops [])
     end
  /\ (forall t due t' due',
         let tasks := run ops [] in
         let last := S (List.length tasks) in
         run (ops ++ [DoAdd t due]) []
         = tasks ++ [mktask (next_task_id tasks) t due false]
         /\ run (ops ++ [DoAdd t due; DoDelete last]) [] = tasks
         /\ run (ops ++ [DoAdd t due; DoDelete last; DoAdd t' due']) []
            = tasks ++ [mktask (next_task_id tasks) t' due' false]).
Proof.
  destruct (run_ids_ok ops []) as [Hn Hp]; [split; constructor|].
  split; [exact Hn|]. split; [exact Hp|]. split.
  { intros t due. split.
    - unfold add. now rewrite map_app.
    - rewrite Forall_map. apply next_task_id_above. }
  split; [intros; apply complete_ids|].
  split; [intros; apply delete_split|]. split.
  { destruct (run ops []) as [|x r] eqn:E; [reflexivity|].
    destruct (next_task_id_max (x :: r)) as (t & Hin & Hx); [discriminate|].
    exists t. split; [exact Hin|]. split; [exact Hx|].
    pose proof (next_task_id_above (x :: r)) as Ha.
    rewrite Forall_forall in *. intros y Hy. specialize (Ha y Hy). lia. }
  intros t due t' due' tasks last. rewrite !run_app. fold tasks.
  unfold run. cbn [fold_left apply_op]. unfold add, last.
  now rewrite delete_last.
Qed.

(** C2, as it is stated, fails: the id of a deleted task is handed out
    again.  Add, delete the task just added, add: both adds hand out 1. *)
Lemma id_reused_after_delete :
  let ops := [DoAdd (u "a") None; DoDelete 1; DoAdd (u "b") None] in
  assigned_ids ops [] = [1; 1]%Z
  /\ run [DoAdd (u "a") None] [] = [mktask 1 (u "a") None false]
  /\ run [DoAdd (u "a") None; DoDelete 1] [] = []
  /\ run ops [] = [mktask 1 (u "b") None false]
  /\ ~ NoDup (assigned_ids ops []).
Proof.
  cbv zeta. repeat split; try reflexivity.
  intros H. cbn in H. inversion H as [|x l Hin _]; subst.
  apply Hin. now left.
Qed.

(* ================================================================= *)
(** ** The main loop and the file *)

Lemma bind_inv {A B} (m : M A) (k : A -> M B) w b w' :
  bind m k w = (Ok b, w') ->
  exists a w1, m w = (Ok a, w1) /\ k a w1 = (Ok b, w').
Proof.
  unfold bind. destruct (m w) as [[a|e] w1]; [eauto | discriminate].
Qed.

(** *** Computations that leave the file alone *)

Lemma quiet_ret {A} (a : A) : quiet (ret a).
Proof.
  intros w. cbn. split; [reflexivity|]. split; [lia|].
  exists []. now rewrite app_nil_r.
Qed.

Lemma quiet_bind {A B} (m : M A) (k : A -> M B) :
  quiet m -> (forall a, quiet (k a)) -> quiet (bind m k).
Proof.
  intros Hm Hk w. unfold bind.
  destruct (Hm w) as (D & L & evs & T & F).
  destruct (m w) as [[a|e] w1]; cbn in *.
  - destruct (Hk a w1) as (D' & L' & evs' & T' & F').
    repeat split; [congruence | lia |].
    exists (evs ++ evs'). rewrite T', T, app_assoc, forallb_app, F, F'. auto.
  - split; [exact D|]. split; [exact L|]. now exists evs.
Qed.

Lemma quiet_print s : quiet (print s).
Proof.
  intros w. cbn. split; [reflexivity|]. split; [lia|].
  now exists [EvPrint s].
Qed.

Lemma quiet_input p : quiet (input p).
Proof.
  intros [i t d]. unfold input. cbn.
  destruct i; cbn; (split; [reflexivity|]); (split; [lia|]);
    now exists [EvPrompt p].
Qed.

Lemma quiet_print_header t : quiet (print_header t).
Proof.
  unfold print_header.
  repeat (apply quiet_bind; [apply quiet_print | intros _]).
  apply quiet_print.
Qed.

Lemma quiet_print_lines tasks : forall i, quiet (print_lines i tasks).
Proof.
  induction tasks as [|t r IH]; intros i; cbn [print_lines].
  - apply quiet_ret.
  - apply quiet_bind; [apply quiet_print | intros _; apply IH].
Qed.

Lemma quiet_list_tasks tasks : quiet (list_tasks tasks).
Proof.
  unfold list_tasks. apply quiet_bind; [apply quiet_print_header | intros _].
  destruct tasks; [apply quiet_print | apply quiet_print_lines].
Qed.

Lemma quiet_pause m : quiet (pause m).
Proof.
  unfold pause. apply quiet_bind; [apply quiet_input | intros _].
  apply quiet_ret.
Qed.

Lemma quiet_print_menu : quiet print_menu.
Proof.
  unfold print_menu.
  apply quiet_bind; [apply quiet_print_header | intros _].
  repeat (apply quiet_bind; [apply quiet_print | intros _]).
  apply quiet_print.
Qed.

Lemma quiet_steady {A} (m : M A) : quiet m -> steady m.
Proof. intros H w. now destruct (H w) as (_ & L & _). Qed.

(** *** The last write *)

Lemma last_write_from_app a : forall last b,
  last_write_from last (a ++ b) = last_write_from (last_write_from last a) b.
Proof.
  induction a as [|e a IH]; intros last b; [reflexivity|].
  destruct e; cbn [List.app last_write_from]; apply IH.
Qed.

Lemma last_write_from_quiet evs : forall last,
  forallb (fun e => negb (is_write e)) evs = true ->
  last_write_from last evs = last.
Proof.
  induction evs as [|e evs IH]; intros last H; [reflexivity|].
  cbn [forallb] in H. apply andb_true_iff in H as [He H].
  destruct e; try discriminate; cbn [last_write_from]; now apply IH.
Qed.

Lemma same_file_refl w : same_file w w.
Proof. split; reflexivity. Qed.

Lemma same_file_trans w0 w1 w2 :
  same_file w0 w1 -> same_file w1 w2 -> same_file w0 w2.
Proof. intros [D1 L1] [D2 L2]. split; congruence. Qed.

Lemma synced_same_file tasks w w' :
  synced tasks w -> same_file w w' -> synced tasks w'.
Proof. intros [D L] [D' L']. split; congruence. Qed.

Lemma quiet_same_file {A} (m : M A) w r w' :
  quiet m -> m w = (r, w') -> same_file w w'.
Proof.
  intros H E. destruct (H w) as (D & _ & evs & T & F). rewrite E in *.
  cbn [snd] in *. split; [exact D|].
  unfold last_write. rewrite T, last_write_from_app.
  now apply last_write_from_quiet.
Qed.

(** *** [save_tasks] *)

Lemma save_tasks_synced tasks w w' :
  save_tasks tasks w = (Ok tt, w') -> synced tasks w'.
Proof.
  unfold save_tasks, synced.
  rewrite utf8_encode_printable
    by (apply dump_printable, value_of_tasks_float_free).
  assert (L : last_write
                (trace w ++ [EvWrite (json_dumps (value_of_tasks tasks))])
              = Some (json_dumps (value_of_tasks tasks))).
  { unfold last_write. now rewrite last_write_from_app. }
  destruct (disk w); intros E; try discriminate;
    injection E as <-; cbn [disk trace]; auto.
Qed.

Lemma steady_save_tasks tasks : steady (save_tasks tasks).
Proof.
  intros w. unfold save_tasks.
  destruct (disk w); try (cbn; lia);
    destruct (utf8_encode (json_dumps (value_of_tasks tasks))); cbn; lia.
Qed.

Lemma steady_bind {A B} (m : M A) (k : A -> M B) :
  steady m -> (forall a, steady (k a)) -> steady (bind m k).
Proof.
  intros Hm Hk w. unfold bind. specialize (Hm w).
  destruct (m w) as [[a|e] w1]; cbn in *; [|exact Hm].
  specialize (Hk a w1). lia.
Qed.

Lemma steady_ret {A} (a : A) : steady (ret a).
Proof. intros w. cbn. lia. Qed.

Lemma steady_raise {A} e : steady (@raise A e).
Proof. intros w. cbn. lia. Qed.

(** *** The actions *)

Tactic Notation "step" hyp(H) "as" ident(a) ident(w) ident(E) :=
  apply bind_inv in H as (a & w & E & H).

Lemma add_task_synced {db : unicode_db} tasks w tasks' w' :
  add_task tasks w = (Ok tasks', w') -> synced tasks' w'.
Proof.
  unfold add_task. intros H.
  step H as x0 w0 E0. step H as t w1 E1. step H as d w2 E2.
  step H as x3 w3 E3. step H as x4 w4 E4. injection H as <- <-.
  destruct x3. apply save_tasks_synced in E3.
  eapply synced_same_file; [exact E3|].
  exact (quiet_same_file _ _ _ _ (quiet_print _) E4).
Qed.

Lemma mark_complete_synced {db : unicode_db} tasks w tasks' w' :
  mark_complete tasks w = (Ok tasks', w') -> in_step tasks w tasks' w'.
Proof.
  unfold mark_complete, in_step. intros H. step H as x0 w0 E0.
  pose proof (quiet_same_file _ _ _ _ (quiet_print_header _) E0) as D0.
  destruct tasks as [|t ts].
  - step H as x1 w1 E1. injection H as <- <-. left. split; [reflexivity|].
    eapply same_file_trans; [exact D0|].
    exact (quiet_same_file _ _ _ _ (quiet_print _) E1).
  - right. step H as x1 w1 E1. step H as c w2 E2.
    destruct (set_complete (index_of c) (t :: ts)) as [ts'|];
      [|discriminate].
    step H as x3 w3 E3. step H as x4 w4 E4. injection H as <- <-.
    destruct x3. apply save_tasks_synced in E3.
    eapply synced_same_file; [exact E3|].
    exact (quiet_same_file _ _ _ _ (quiet_print _) E4).
Qed.

Lemma delete_task_synced {db : unicode_db} tasks w tasks' w' :
  delete_task tasks w = (Ok tasks', w') -> in_step tasks w tasks' w'.
Proof.
  unfold delete_task, in_step. intros H. step H as x0 w0 E0.
  pose proof (quiet_same_file _ _ _ _ (quiet_print_header _) E0) as D0.
  destruct tasks as [|t ts].
  - step H as x1 w1 E1. injection H as <- <-. left. split; [reflexivity|].
    eapply same_file_trans; [exact D0|].
    exact (quiet_same_file _ _ _ _ (quiet_print _) E1).
  - right. step H as x1 w1 E1. step H as c w2 E2.
    destruct (pop (index_of c) (t :: ts)) as [[x ts']|]; [|discriminate].
    step H as x3 w3 E3. step H as x4 w4 E4. injection H as <- <-.
    destruct x3. apply save_tasks_synced in E3.
    eapply synced_same_file; [exact E3|].
    exact (quiet_same_file _ _ _ _ (quiet_print _) E4).
Qed.

Lemma steady_add_task {db : unicode_db} tasks : steady (add_task tasks).
Proof.
  unfold add_task, read_non_empty, read_optional_date.
  apply steady_bind; [apply quiet_steady, quiet_print_header | intros _].
  apply steady_bind; [apply quiet_steady, loop_input_quiet | intros t].
  apply steady_bind; [apply quiet_steady, loop_input_quiet | intros d].
  apply steady_bind; [apply steady_save_tasks | intros _].
  apply steady_bind; [apply quiet_steady, quiet_print | intros _].
  apply steady_ret.
Qed.

Lemma steady_mark_complete {db : unicode_db} tasks :
  steady (mark_complete tasks).
Proof.
  unfold mark_complete, read_int.
  apply steady_bind; [apply quiet_steady, quiet_print_header | intros _].
  destruct tasks as [|t ts].
  - apply steady_bind; [apply quiet_steady, quiet_print | intros _].
    apply steady_ret.
  - apply steady_bind; [apply quiet_steady, quiet_list_tasks | intros _].
    apply steady_bind; [apply quiet_steady, loop_input_quiet | intros c].
    destruct (set_complete (index_of c) (t :: ts)); [|apply steady_raise].
    apply steady_bind; [apply steady_save_tasks | intros _].
    apply steady_bind; [apply quiet_steady, quiet_print | intros _].
    apply steady_ret.
Qed.

Lemma steady_delete_task {db : unicode_db} tasks :
  steady (delete_task tasks).
Proof.
  unfold delete_task, read_int.
  apply steady_bind; [apply quiet_steady, quiet_print_header | intros _].
  destruct tasks as [|t ts].
  - apply steady_bind; [apply quiet_steady, quiet_print | intros _].
    apply steady_ret.
  - apply steady_bind; [apply quiet_steady, quiet_list_tasks | intros _].
    apply steady_bind; [apply quiet_steady, loop_input_quiet | intros c].
    destruct (pop (index_of c) (t :: ts)) as [[x r]|]; [|apply steady_raise].
    apply steady_bind; [apply steady_save_tasks | intros _].
    apply steady_bind; [apply quiet_steady, quiet_print | intros _].
    apply steady_ret.
Qed.

(** *** One turn of the loop *)

Lemma steady_dispatch {db : unicode_db} tasks c : steady (dispatch tasks c).
Proof.
  unfold dispatch.
  repeat match goal with
         | |- steady (if ?b then _ else _) => destruct b
         end;
    repeat (first
              [ apply steady_ret
              | apply steady_add_task | apply steady_mark_complete
              | apply steady_delete_task | apply steady_save_tasks
              | apply quiet_steady, quiet_list_tasks
              | apply quiet_steady, quiet_pause
              | apply quiet_steady, quiet_print
              | apply steady_bind; [|intros ?] ]).
Qed.

Lemma in_step_trans t0 w0 t1 w1 t2 w2 :
  in_step t0 w0 t1 w1 -> in_step t1 w1 t2 w2 -> in_step t0 w0 t2 w2.
Proof.
  unfold in_step. intros [[-> D1] | S1] [[-> D2] | S2]; auto.
  - left. split; [reflexivity|]. eapply same_file_trans; eauto.
  - right. eapply synced_same_file; eauto.
Qed.

Lemma in_step_quiet {A} (m : M A) t0 w0 t w r w' :
  quiet m -> m w = (r, w') -> in_step t0 w0 t w -> in_step t0 w0 t w'.
Proof.
  intros Q E H. eapply in_step_trans; [exact H|].
  left. split; [reflexivity|]. exact (quiet_same_file _ _ _ _ Q E).
Qed.

Lemma dispatch_in_step {db : unicode_db} tasks c w r w' :
  dispatch tasks c w = (Ok r, w') ->
  match r with
  | Some tasks' => in_step tasks w tasks' w'
  | None =>
      synced tasks w'
      /\ exists tr, trace w' = tr ++ [EvWrite (saved tasks);
                                     EvPrint (u "Goodbye!")]
  end.
Proof.
  unfold dispatch. intros H.
  destruct (c =? 1)%Z.
  { step H as x0 w0 E0. step H as x1 w1 E1. injection H as <- <-.
    left. split; [reflexivity|].
    eapply same_file_trans.
    - exact (quiet_same_file _ _ _ _ (quiet_list_tasks _) E0).
    - exact (quiet_same_file _ _ _ _ (quiet_pause _) E1). }
  destruct (c =? 2)%Z.
  { step H as x0 w0 E0. step H as x1 w1 E1. injection H as <- <-.
    apply add_task_synced in E0.
    eapply in_step_quiet; [apply quiet_pause | exact E1 | now right]. }
  destruct (c =? 3)%Z.
  { step H as x0 w0 E0. step H as x1 w1 E1. injection H as <- <-.
    apply mark_complete_synced in E0.
    eapply in_step_quiet; [apply quiet_pause | exact E1 | exact E0]. }
  destruct (c =? 4)%Z.
  { step H as x0 w0 E0. step H as x1 w1 E1. injection H as <- <-.
    apply delete_task_synced in E0.
    eapply in_step_quiet; [apply quiet_pause | exact E1 | exact E0]. }
  destruct (c =? 5)%Z.
  { step H as x0 w0 E0. step H as x1 w1 E1. step H as x2 w2 E2.
    injection H as <- <-. destruct x0. apply save_tasks_synced in E0.
    eapply in_step_quiet; [apply quiet_pause | exact E2 |].
    eapply in_step_quiet; [apply quiet_print | exact E1 | now right]. }
  destruct (c =? 6)%Z.
  { step H as x0 w0 E0. step H as x1 w1 E1. injection H as <- <-.
    destruct x0. pose proof (save_tasks_synced _ _ _ E0) as S. split.
    - eapply synced_same_file; [exact S|].
      exact (quiet_same_file _ _ _ _ (quiet_print _) E1).
    - unfold save_tasks in E0.
      rewrite utf8_encode_printable in E0
        by (apply dump_printable, value_of_tasks_float_free).
      rewrite print_emits in E1. injection E1 as _ <-.
      exists (trace w). unfold saved.
      destruct (disk w); try discriminate; injection E0 as <-;
        unfold emits; cbn [trace]; now rewrite <- app_assoc. }
  injection H as <- <-. left. split; [reflexivity | apply same_file_refl].
Qed.

Lemma iteration_in_step {db : unicode_db} tasks w r w' :
  iteration tasks w = (Ok r, w') ->
  match r with
  | Some tasks' => in_step tasks w tasks' w'
  | None =>
      synced tasks w'
      /\ exists tr, trace w' = tr ++ [EvWrite (saved tasks);
                                     EvPrint (u "Goodbye!")]
  end.
Proof.
  unfold iteration. intros H.
  step H as x0 w0 E0. step H as c w1 E1.
  pose proof (quiet_same_file _ _ _ _ quiet_print_menu E0) as D0.
  pose proof (quiet_same_file _ _ _ _ (loop_input_quiet _ _) E1) as D1.
  apply dispatch_in_step in H.
  destruct r as [tasks'|]; [|exact H].
  eapply in_step_trans; [|exact H].
  left. split; [reflexivity|]. eapply same_file_trans; eauto.
Qed.

Lemma iteration_consumes {db : unicode_db} tasks w r w' :
  iteration tasks w = (Ok r, w') ->
  (List.length (stdin w') < List.length (stdin w))%nat.
Proof.
  unfold iteration. intros H.
  step H as x0 w0 E0. step H as c w1 E1.
  pose proof (quiet_steady _ quiet_print_menu w) as L0. rewrite E0 in L0.
  apply loop_input_consumes in E1 as [L1 _].
  pose proof (steady_dispatch tasks c w1) as L2. rewrite H in L2.
  cbn in *. lia.
Qed.

(** *** Any number of turns *)

Lemma iterate_in_step {db : unicode_db} n : forall tasks w r w',
  iterate n tasks w = (Ok r, w') ->
  match r with
  | Some tasks' =>
      in_step tasks w tasks' w'
      /\ (List.length (stdin w') + n <= List.length (stdin w))%nat
  | None =>
      exists tasks' tr,
        in_step tasks w tasks' w' /\ synced tasks' w'
        /\ trace w' = tr ++ [EvWrite (saved tasks'); EvPrint (u "Goodbye!")]
  end.
Proof.
  induction n as [|n IH]; intros tasks w r w' H; cbn [iterate] in H.
  - injection H as <- <-. split; [|lia].
    left. split; [reflexivity | apply same_file_refl].
  - step H as a w1 E. pose proof (iteration_consumes _ _ _ _ E) as L.
    apply iteration_in_step in E. destruct a as [tasks1|].
    + apply IH in H. destruct r as [tasks'|].
      * destruct H as [H1 H2]. split; [|lia].
        eapply in_step_trans; eauto.
      * destruct H as (t' & tr & H1 & H2 & H3). exists t', tr.
        split; [|split; assumption].
        eapply in_step_trans; eauto.
    + injection H as <- <-. destruct E as [S (tr & T)].
      exists tasks, tr. split; [now right | split; assumption].
Qed.

(** The loop of [main] ends on every input: with one turn more than there
    are lines, [iterate] never stops for want of turns. *)
Lemma main_loop_ends {db : unicode_db} tasks w :
  forall tasks', result (iterate (S (List.length (stdin w))) tasks) w
                 <> Ok (Some tasks').
Proof.
  intros tasks' H. unfold result in H.
  destruct (iterate (S (List.length (stdin w))) tasks w) as [r w'] eqn:E.
  cbn in H. subst r. apply iterate_in_step in E as [_ L]. lia.
Qed.

(** C9.  Each action that changes the list has saved it when it returns:
    the last write of the run is then the text of the list as it is, and
    the file holds it.  So at the end of every turn of the loop, and after
    any number of turns, either nothing has changed since the loop
    started, list and file, or the file holds the list as it is in
    memory; and the loop ends by [6) Exit] with one more write, of the
    final list, just before the farewell. *)
Theorem file_keeps_up_with_list {db : unicode_db} :
  (forall tasks w tasks' w',
      add_task tasks w = (Ok tasks', w') -> synced tasks' w')
  /\ (forall tasks w tasks' w',
         mark_complete tasks w = (Ok tasks', w') ->
         in_step tasks w tasks' w')
  /\ (forall tasks w tasks' w',
         delete_task tasks w = (Ok tasks', w') ->
         in_step tasks w tasks' w')
  /\ (forall tasks w r w',
         iteration tasks w = (Ok r, w') ->
         match r with
         | Some tasks' => in_step tasks w tasks' w'
         | None =>
             synced tasks w'
             /\ exists tr, trace w' = tr ++ [EvWrite (saved tasks);
                                            EvPrint (u "Goodbye!")]
         end)
  /\ (forall n tasks w tasks' w',
         iterate n tasks w = (Ok (Some tasks'), w') ->
         in_step tasks w tasks' w')
  /\ (forall tasks w w',
         main_loop tasks w = (Ok tt, w') ->
         exists tasks' tr,
           in_step tasks w tasks' w' /\ synced tasks' w'
           /\ trace w' = tr ++ [EvWrite (saved tasks');
                                EvPrint (u "Goodbye!")]).
Proof.
  split; [exact add_task_synced|].
  split; [exact mark_complete_synced|].
  split; [exact delete_task_synced|].
  split; [exact iteration_in_step|].
  split.
  { intros n tasks w tasks' w' H. now apply iterate_in_step in H as [H _]. }
  intros tasks w w' H. unfold main_loop in H.
  destruct (iterate (S (List.length (stdin w))) tasks w) as [[r|e] w1] eqn:E;
    [|discriminate].
  injection H as <-. apply iterate_in_step in E.
  destruct r as [tasks'|]; [destruct E as [_ L]; lia | exact E].
Qed.

(* ================================================================= *)
(** ** More on [strip] *)

Lemma lstrip_spec s :
  exists ws, s = ws ++ lstrip s /\ forallb py_isspace ws = true
             /\ match lstrip s with
                | c :: _ => py_isspace c = false
                | [] => True
                end.
Proof.
  induction s as [|c r IH]; cbn [lstrip].
  - exists []. auto.
  - destruct (py_isspace c) eqn:E.
    + destruct IH as (ws & E1 & E2 & E3). exists (c :: ws). cbn.
      rewrite E, E2. split; [now f_equal | auto].
    + exists []. cbn. auto.
Qed.

Lemma lstrip_spaces ws s :
  forallb py_isspace ws = true -> lstrip (ws ++ s) = lstrip s.
Proof.
  induction ws as [|c r IH]; cbn; [reflexivity|].
  intros H. apply andb_true_iff in H as [H1 H2]. now rewrite H1, IH.
Qed.

Lemma lstrip_head c r : py_isspace c = false -> lstrip (c :: r) = c :: r.
Proof. intros H. cbn. now rewrite H. Qed.

Lemma rstrip_spaces s ws :
  forallb py_isspace ws = true -> rstrip (s ++ ws) = rstrip s.
Proof.
  intros H. unfold rstrip. rewrite rev_app_distr, lstrip_spaces; [reflexivity|].
  rewrite forallb_forall in *. intros x Hx. apply H. now apply in_rev.
Qed.

Lemma rstrip_spec s :
  exists ws, s = rstrip s ++ ws /\ forallb py_isspace ws = true
             /\ match List.rev (rstrip s) with
                | c :: _ => py_isspace c = false
                | [] => True
                end.
Proof.
  unfold rstrip. destruct (lstrip_spec (List.rev s)) as (ws & E1 & E2 & E3).
  exists (List.rev ws). rewrite rev_involutive. split; [|split; [|exact E3]].
  - rewrite <- rev_app_distr, <- E1. now rewrite rev_involutive.
  - rewrite forallb_forall in *. intros x Hx. apply E2. now apply in_rev.
Qed.

Lemma rstrip_keeps_head c r :
  py_isspace c = false -> exists r', rstrip (c :: r) = c :: r'.
Proof.
  intros H. destruct (rstrip_spec (c :: r)) as (ws & E1 & E2 & _).
  destruct (rstrip (c :: r)) as [|c0 r0] eqn:E.
  - cbn in E1. subst ws. cbn in E2. now rewrite H in E2.
  - cbn in E1. injection E1 as <- _. now exists r0.
Qed.

(** What [strip] leaves: the text between the white space on both sides,
    empty or with a first and a last character that are not white space. *)
Lemma strip_spec s :
  exists a b,
    s = a ++ strip s ++ b
    /\ forallb py_isspace a = true /\ forallb py_isspace b = true
    /\ (strip s = []
        \/ exists c r c' r',
             strip s = c :: r /\ List.rev (strip s) = c' :: r'
             /\ py_isspace c = false /\ py_isspace c' = false).
Proof.
  unfold strip.
  destruct (lstrip_spec s) as (a & E1 & E2 & E3).
  destruct (rstrip_spec (lstrip s)) as (b & F1 & F2 & F3).
  exists a, b. split; [|split; [exact E2|split; [exact F2|]]].
  - now rewrite <- F1.
  - destruct (lstrip s) as [|c r] eqn:L.
    + left. reflexivity.
    + right. destruct (rstrip_keeps_head c r E3) as (r' & R).
      rewrite R in *. destruct (List.rev (c :: r')) as [|c' r''] eqn:V.
      * apply (f_equal (@List.length N)) in V. rewrite length_rev in V.
        discriminate.
      * now exists c, r', c', r''.
Qed.

Lemma strip_idem s : strip (strip s) = strip s.
Proof.
  destruct (strip_spec s)
    as (a & b & _ & _ & _ & [E | (c & r & c' & r' & E & V & H & H')]).
  - now rewrite E.
  - now apply (strip_id _ c r c' r').
Qed.

Lemma strip_pad a s b :
  forallb py_isspace a = true -> forallb py_isspace b = true ->
  strip (a ++ s ++ b) = strip s.
Proof.
  intros Ha Hb. unfold strip. rewrite lstrip_spaces by exact Ha.
  destruct (lstrip_spec s) as (ws & E1 & E2 & E3).
  destruct (lstrip s) as [|c r] eqn:L.
  - rewrite app_nil_r in E1. subst ws.
    rewrite <- (app_nil_r (s ++ b)), lstrip_spaces; [reflexivity|].
    rewrite forallb_app. now rewrite E2, Hb.
  - rewrite E1 at 1. rewrite <- app_assoc, lstrip_spaces by exact E2.
    cbn [List.app]. rewrite lstrip_head by exact E3.
    change (c :: r ++ b) with ((c :: r) ++ b).
    now rewrite (rstrip_spaces (c :: r) b Hb).
Qed.

Lemma blank_spec line : blank line = true <-> strip line = [].
Proof. unfold blank. destruct (strip line); split; congruence. Qed.

(* ================================================================= *)
(** ** [read_non_empty] *)

Lemma read_non_empty_blank p l r tr d :
  blank l = true ->
  read_non_empty p (mkworld (l :: r) tr d)
  = read_non_empty p (mkworld r (tr ++ [EvPrompt p; EvPrint blank_message]) d).
Proof.
  intros H. apply blank_spec in H. unfold read_non_empty.
  apply loop_input_reject. now rewrite H.
Qed.

(** X1.  [read_non_empty] answers every blank line (empty, or white space
    only) with its message and a new prompt, and returns the first line
    that is not blank, without the white space around it; the lines after
    that one are left to be read, and the file is not touched. *)
Theorem read_non_empty_skips_blanks (p : str) (blanks : list str) (line : str)
  (rest : list str) (tr : list event) (d : file) :
  forallb blank blanks = true -> blank line = false ->
  read_non_empty p (mkworld (blanks ++ line :: rest) tr d)
  = (Ok (strip line),
     mkworld rest
       (tr ++ flat_map (fun _ => [EvPrompt p; EvPrint blank_message]) blanks
        ++ [EvPrompt p]) d).
Proof.
  revert tr. induction blanks as [|b bs IH]; intros tr Hb Hl.
  - cbn [List.app flat_map]. unfold read_non_empty. apply loop_input_accept.
    unfold blank in Hl. now destruct (strip line).
  - cbn [forallb] in Hb. apply andb_true_iff in Hb as [Hb1 Hb2].
    cbn [List.app flat_map]. rewrite read_non_empty_blank by exact Hb1.
    rewrite IH by assumption. now rewrite <- app_assoc.
Qed.

Lemma read_non_empty_accepted p w t w' :
  read_non_empty p w = (Ok t, w') ->
  exists l, In l (stdin w) /\ t = strip l /\ blank l = false.
Proof.
  intros H. apply loop_input_accepted in H as (l & Hin & Hb).
  exists l. split; [exact Hin|]. unfold blank.
  destruct (strip l) eqn:E; [discriminate|]. injection Hb as <-. auto.
Qed.

(** X2.  Whatever [read_non_empty] returns is not empty and neither starts
    nor ends with white space (stripping it again changes nothing); it has
    taken at least one line and has left the file as it was. *)
Theorem read_non_empty_never_blank (p : str) (w w' : world) (t : str) :
  read_non_empty p w = (Ok t, w') ->
  t <> [] /\ strip t = t
  /\ (exists c r c' r', t = c :: r /\ List.rev t = c' :: r'
                        /\ py_isspace c = false /\ py_isspace c' = false)
  /\ disk w' = disk w
  /\ (List.length (stdin w') < List.length (stdin w))%nat.
Proof.
  intros H. pose proof (read_non_empty_accepted _ _ _ _ H) as (l & _ & -> & Hb).
  apply loop_input_consumes in H as [L D].
  assert (N : strip l <> []) by (unfold blank in Hb; now destruct (strip l)).
  split; [exact N|]. split; [apply strip_idem|].
  split; [|split; assumption].
  destruct (strip_spec l) as (a & b & _ & _ & _ & [E | X]);
    [contradiction | exact X].
Qed.

(* ================================================================= *)
(** ** Numerals as they are typed *)

Lemma unicode_digit_ascii {db : unicode_db} c :
  (c <? 128) = true ->
  is_some (unicode_digit c) = is_digit09 c
  /\ unicode_decimal c = if is_digit09 c then Some (c - 48) else None.
Proof.
  intros H. apply N.ltb_lt in H.
  unfold unicode_digit, unicode_decimal, is_digit09.
  replace (c <? 256) with true by (symmetry; apply N.ltb_lt; lia).
  destruct (in_range 48 57 c) eqn:E; [now split|].
  replace (c =? 178) with false by (symmetry; apply N.eqb_neq; lia).
  replace (c =? 179) with false by (symmetry; apply N.eqb_neq; lia).
  replace (c =? 185) with false by (symmetry; apply N.eqb_neq; lia).
  now split.
Qed.

Lemma is_digit09_ascii c : is_digit09 c = true -> (c <? 128) = true.
Proof.
  intros H. apply in_range_spec in H. apply N.ltb_lt. lia.
Qed.

Lemma decimal_value_digits {db : unicode_db} s : forall acc,
  forallb is_digit09 s = true ->
  decimal_value acc s = Some (ascii_value acc s).
Proof.
  induction s as [|c r IH]; intros acc H; [reflexivity|].
  cbn [forallb] in H. apply andb_true_iff in H as [H1 H2].
  cbn [decimal_value ascii_value].
  destruct (unicode_digit_ascii c (is_digit09_ascii c H1)) as [_ ->].
  rewrite H1. now apply IH.
Qed.

Lemma isdigit_digits {db : unicode_db} s :
  s <> [] -> forallb is_digit09 s = true -> isdigit s = true.
Proof.
  intros N H. unfold isdigit. destruct s as [|c r]; [contradiction|].
  rewrite forallb_forall in *. intros x Hx.
  destruct (unicode_digit_ascii x (is_digit09_ascii x (H x Hx))) as [-> _].
  now apply H.
Qed.

(** On ASCII text [isdigit] means a run of the digits 0 to 9. *)
Lemma isdigit_ascii {db : unicode_db} s :
  ascii_only s = true -> isdigit s = true -> forallb is_digit09 s = true.
Proof.
  unfold isdigit, ascii_only. destruct s as [|c r]; [discriminate|].
  intros A H. rewrite forallb_forall in *. intros x Hx.
  destruct (unicode_digit_ascii x (A x Hx)) as [<- _]. now apply H.
Qed.

Lemma digits_strip s : forallb is_digit09 s = true -> strip s = s.
Proof.
  intros H. destruct (strip_spec s) as (a & b & E & Ha & Hb & _).
  assert (X : forall ws, forallb py_isspace ws = true ->
                         (forall x, In x ws -> In x s) -> ws = []).
  { intros [|x ws] Hw Hin; [reflexivity|]. exfalso.
    cbn [forallb] in Hw. apply andb_true_iff in Hw as [Hx _].
    rewrite forallb_forall in H. specialize (H x (Hin x (or_introl eq_refl))).
    apply in_range_spec in H. rewrite not_space in Hx by lia. discriminate. }
  assert (a = []) as ->.
  { apply X; [exact Ha|]. intros x Hx. rewrite E. apply in_or_app. now left. }
  assert (b = []) as ->.
  { apply X; [exact Hb|]. intros x Hx. rewrite E.
    apply in_or_app. right. apply in_or_app. now right. }
  cbn in E. now rewrite app_nil_r in E.
Qed.

Lemma ascii_value_zeros k s :
  ascii_value 0 (repeat 48 k ++ s) = ascii_value 0 s.
Proof.
  induction k as [|k IH]; [reflexivity|].
  cbn [repeat List.app ascii_value]. exact IH.
Qed.

Lemma repr_nat_not_nil n : repr_nat n <> [].
Proof.
  destruct n as [|p]; [discriminate|].
  destruct (pos_to_uint_head p) as (c & r & E & _). rewrite E. discriminate.
Qed.

Lemma ascii_only_strip l : ascii_only l = true -> ascii_only (strip l) = true.
Proof.
  intros H. destruct (strip_spec l) as (a & b & E & _).
  unfold ascii_only in *. rewrite E, !forallb_app in H.
  apply andb_true_iff in H as [_ H]. now apply andb_true_iff in H as [H _].
Qed.

Lemma padded_numeral_read {db : unicode_db} a zeros n b :
  forallb py_isspace a = true -> forallb py_isspace b = true ->
  isdigit (strip (padded_numeral a zeros n b)) = true
  /\ py_int (strip (padded_numeral a zeros n b)) = Some (Z.of_N n).
Proof.
  intros Ha Hb. unfold padded_numeral.
  assert (D : forallb is_digit09 (repeat 48 zeros ++ repr_nat n) = true).
  { rewrite forallb_app. apply andb_true_iff. split.
    - induction zeros as [|k IH]; [reflexivity | exact IH].
    - apply chars_of_uint_digits. }
  rewrite strip_pad by assumption. rewrite digits_strip by exact D. split.
  - apply isdigit_digits; [|exact D].
    intros X. apply app_eq_nil in X as [_ X]. now apply repr_nat_not_nil in X.
  - unfold py_int. rewrite decimal_value_digits by exact D.
    now rewrite ascii_value_zeros, ascii_value_repr.
Qed.

Lemma read_int_numeral {db : unicode_db} p lo hi n rest tr d :
  (lo <= Z.of_N n <= hi)%Z ->
  read_int p lo hi (mkworld (repr_nat n :: rest) tr d)
  = (Ok (Z.of_N n), mkworld rest (tr ++ [EvPrompt p]) d).
Proof.
  intros H.
  destruct (padded_numeral_read [] 0 n [] eq_refl eq_refl) as [I P].
  unfold padded_numeral in I, P. cbn [List.app repeat] in I, P.
  rewrite app_nil_r in I, P.
  exact (read_int_first_acceptable p lo hi [] (repr_nat n) rest tr d
           (Z.of_N n) eq_refl I P H).
Qed.

Lemma read_int_accepted {db : unicode_db} p lo hi w v w' :
  read_int p lo hi w = (Ok v, w') ->
  exists l, In l (stdin w) /\ isdigit (strip l) = true
            /\ py_int (strip l) = Some v /\ (0 <= v)%Z.
Proof.
  intros H. apply loop_input_accepted in H as (l & Hin & Hb). cbv zeta in Hb.
  destruct (isdigit (strip l)) eqn:I; [|discriminate].
  destruct (py_int (strip l)) as [x|] eqn:P; [|discriminate].
  destruct ((lo <=? x)%Z && (x <=? hi)%Z); [|discriminate].
  injection Hb as <-. exists l. repeat split; try assumption.
  unfold py_int in P. destruct (decimal_value 0 (strip l)); [|discriminate].
  injection P as <-. lia.
Qed.

Lemma read_int_rejects {db : unicode_db} p lo hi lines : forall tr d,
  forallb (cleanly_rejected lo hi) lines = true ->
  read_int p lo hi (mkworld lines tr d)
  = (Raise EOFError,
     mkworld []
       (tr ++ flat_map (fun _ => [EvPrompt p; EvPrint (range_message lo hi)])
                lines ++ [EvPrompt p]) d).
Proof.
  induction lines as [|x r IH]; intros tr d H.
  - reflexivity.
  - cbn [forallb] in H. apply andb_true_iff in H as [Hx Hr].
    cbn [flat_map].
    assert (E : read_int p lo hi (mkworld (x :: r) tr d)
                = read_int p lo hi
                    (mkworld r
                       (tr ++ [EvPrompt p; EvPrint (range_message lo hi)]) d)).
    { unfold read_int. apply loop_input_reject. cbv zeta.
      unfold cleanly_rejected in Hx.
      destruct (isdigit (strip x)); [|reflexivity].
      destruct (py_int (strip x)) as [y|]; [|discriminate].
      cbn in Hx. apply negb_true_iff in Hx. now rewrite Hx. }
    rewrite E, (IH _ _ Hr). now rewrite <- !app_assoc.
Qed.

(** X3.  Whatever [read_int] returns lies between its two bounds and is
    never negative, whatever the bounds are: it is the value of a line
    made of digits only, so a numeral with a sign is never accepted.  The
    function has taken at least one line and has left the file as it
    was. *)
Theorem read_int_result {db : unicode_db} (p : str) (lo hi : Z)
  (w w' : world) (v : Z) :
  read_int p lo hi w = (Ok v, w') ->
  (lo <= v <= hi)%Z /\ (0 <= v)%Z
  /\ (exists l, In l (stdin w) /\ isdigit (strip l) = true
                /\ py_int (strip l) = Some v)
  /\ disk w' = disk w
  /\ (List.length (stdin w') < List.length (stdin w))%nat.
Proof.
  intros H. pose proof (read_int_range _ _ _ _ _ _ H) as R.
  pose proof (loop_input_consumes _ _ _ _ _ H) as [L D].
  apply read_int_accepted in H as (l & Hin & I & P & Pos).
  split; [exact R|]. split; [exact Pos|].
  split; [now exists l | split; assumption].
Qed.

(** X4.  With bounds that no number of the kind it reads can meet (the
    upper one below the lower one, or below zero), [read_int] never
    returns: on every input it ends with an exception. *)
Theorem read_int_empty_range {db : unicode_db} (p : str) (lo hi : Z)
  (w : world) :
  (hi < lo \/ hi < 0)%Z ->
  exists e, result (read_int p lo hi) w = Raise e.
Proof.
  intros H. unfold result.
  destruct (read_int p lo hi w) as [[v|e] w'] eqn:E; [|now exists e].
  pose proof (read_int_range _ _ _ _ _ _ E) as R.
  apply read_int_accepted in E as (l & _ & _ & _ & Pos). lia.
Qed.

(** X5.  After any lines that it rejects, [read_int] returns the number
    of the first line that holds a decimal numeral within the bounds; the
    numeral may have white space around it and zeros in front of it (the
    lines being within the limit of [int] on the number of digits).  Each
    rejected line costs one message, and the lines after the accepted one
    are left to be read. *)
Theorem read_int_padded_numeral {db : unicode_db} (p : str) (lo hi : Z)
  (pre : list str) (a b : str) (zeros : nat) (n : N) (rest : list str)
  (tr : list event) (d : file) :
  forallb within_limit (pre ++ [padded_numeral a zeros n b]) = true ->
  forallb (cleanly_rejected lo hi) pre = true ->
  forallb py_isspace a = true -> forallb py_isspace b = true ->
  (lo <= Z.of_N n <= hi)%Z ->
  read_int p lo hi (mkworld (pre ++ padded_numeral a zeros n b :: rest) tr d)
  = (Ok (Z.of_N n),
     mkworld rest
       (tr ++ flat_map (fun _ => [EvPrompt p; EvPrint (range_message lo hi)])
                pre ++ [EvPrompt p]) d).
Proof.
  intros _ Hpre Ha Hb Hn.
  destruct (padded_numeral_read a zeros n b Ha Hb) as [I P].
  now apply read_int_first_acceptable.
Qed.

(** X6.  On input whose lines are all ASCII (and within the limit of
    [int] on the number of digits), [read_int] never raises [ValueError]:
    it returns a number, or the input ends while it is still asking and it
    raises [EOFError]. *)
Theorem read_int_ascii_input {db : unicode_db} (p : str) (lo hi : Z)
  (w : world) :
  forallb ascii_only (stdin w) = true ->
  forallb within_limit (stdin w) = true ->
  (exists v, result (read_int p lo hi) w = Ok v)
  \/ result (read_int p lo hi) w = Raise EOFError.
Proof.
  intros H _. revert H.
  destruct w as [lines tr d]. cbn [stdin]. revert tr.
  induction lines as [|l r IH]; intros tr H.
  - right. reflexivity.
  - cbn [forallb] in H. apply andb_true_iff in H as [Hl Hr].
    pose proof (ascii_only_strip l Hl) as A.
    destruct (isdigit (strip l)) eqn:I.
    + pose proof (isdigit_ascii _ A I) as D.
      assert (P : py_int (strip l) = Some (Z.of_N (ascii_value 0 (strip l)))).
      { unfold py_int. now rewrite decimal_value_digits. }
      destruct ((lo <=? Z.of_N (ascii_value 0 (strip l)))%Z
                && (Z.of_N (ascii_value 0 (strip l)) <=? hi)%Z) eqn:B.
      * left. exists (Z.of_N (ascii_value 0 (strip l))).
        unfold result, read_int. erewrite loop_input_accept; [reflexivity|].
        cbv zeta. now rewrite I, P, B.
      * unfold result, read_int. erewrite loop_input_reject.
        -- apply (IH (tr ++ [EvPrompt p; EvPrint (range_message lo hi)]) Hr).
        -- cbv zeta. now rewrite I, P, B.
    + unfold result, read_int. erewrite loop_input_reject.
      * apply (IH (tr ++ [EvPrompt p; EvPrint (range_message lo hi)]) Hr).
      * cbv zeta. now rewrite I.
Qed.

(* ================================================================= *)
(** ** The dates [read_optional_date] returns *)

Lemma unicode_decimal_le {db : unicode_db} c d :
  decimal_rows_ok db -> unicode_decimal c = Some d -> d <= 9.
Proof.
  intros Hdb. unfold unicode_decimal. destruct (c <? 256).
  - destruct (in_range 48 57 c) eqn:E; [|discriminate].
    intros [= <-]. apply in_range_spec in E. lia.
  - apply Hdb.
Qed.

Lemma decimal_value_four {db : unicode_db} y1 y2 y3 y4 y :
  decimal_rows_ok db ->
  decimal_value 0 [y1; y2; y3; y4] = Some y -> y <= 9999.
Proof.
  intros Hdb. cbn [decimal_value].
  destruct (unicode_decimal y1) as [a|] eqn:E1; [|discriminate].
  destruct (unicode_decimal y2) as [b|] eqn:E2; [|discriminate].
  destruct (unicode_decimal y3) as [c|] eqn:E3; [|discriminate].
  destruct (unicode_decimal y4) as [d|] eqn:E4; [|discriminate].
  intros E.
  assert (Y : 10 * (10 * (10 * (10 * 0 + a) + b) + c) + d = y) by congruence.
  apply (unicode_decimal_le _ _ Hdb) in E1, E2, E3, E4. lia.
Qed.

Lemma some_fst {A B} (a c : A) (b d : B) : Some (a, b) = Some (c, d) -> a = c.
Proof. congruence. Qed.

Lemma scan_month_range s m r : scan_month s = Some (m, r) -> 1 <= m <= 12.
Proof.
  unfold scan_month.
  assert (One : match s with
                | m1 :: dash :: r0 =>
                    if in_range 49 57 m1 && (dash =? 45) then Some (m1 - 48, r0)
                    else None
                | _ => None
                end = Some (m, r) -> 1 <= m <= 12).
  { destruct s as [|m1 [|dash r0]]; try discriminate.
    destruct (in_range 49 57 m1) eqn:E; [|discriminate].
    destruct (dash =? 45); [|discriminate].
    intros Inj%some_fst; rewrite <- Inj; clear Inj.
    apply in_range_spec in E. lia. }
  destruct s as [|m1 [|m2 [|dash r0]]]; try exact One.
  destruct ((((m1 =? 49) && in_range 48 50 m2)
             || ((m1 =? 48) && in_range 49 57 m2)) && (dash =? 45)) eqn:E;
    [|exact One].
  intros Inj%some_fst; rewrite <- Inj; clear Inj.
  apply andb_true_iff in E as [E _].
  apply orb_true_iff in E as [E | E]; apply andb_true_iff in E as [E1 E2];
    apply N.eqb_eq in E1; apply in_range_spec in E2; lia.
Qed.

Lemma scan_day_range {db : unicode_db} s d r :
  scan_day s = Some (d, r) -> 1 <= d.
Proof.
  unfold scan_day.
  assert (One : match s with
                | d1 :: r0 =>
                    if in_range 49 57 d1 then Some (d1 - 48, r0)
                    else
                      match r0 with
                      | d2 :: r' =>
                          if (d1 =? 32) && in_range 49 57 d2
                          then Some (d2 - 48, r')
                          else None
                      | [] => None
                      end
                | [] => None
                end = Some (d, r) -> 1 <= d).
  { destruct s as [|d1 r0]; [discriminate|].
    destruct (in_range 49 57 d1) eqn:E.
    - intros Inj%some_fst; rewrite <- Inj; clear Inj.
      apply in_range_spec in E. lia.
    - destruct r0 as [|d2 r']; [discriminate|].
      destruct (d1 =? 32); [|discriminate]. cbn [andb].
      destruct (in_range 49 57 d2) eqn:E2; [|discriminate].
      intros Inj%some_fst; rewrite <- Inj; clear Inj.
      apply in_range_spec in E2. lia. }
  destruct s as [|d1 [|d2 r0]]; try exact One.
  destruct ((d1 =? 51) && in_range 48 49 d2) eqn:E1.
  { intros Inj%some_fst; rewrite <- Inj; clear Inj. lia. }
  destruct (in_range 49 50 d1) eqn:E2.
  { destruct (unicode_decimal d2) as [v|]; [|exact One].
    intros Inj%some_fst; rewrite <- Inj; clear Inj.
    apply in_range_spec in E2. lia. }
  destruct ((d1 =? 48) && in_range 49 57 d2) eqn:E3; [|exact One].
  intros Inj%some_fst; rewrite <- Inj; clear Inj.
  apply andb_true_iff in E3 as [_ E3].
  apply in_range_spec in E3. lia.
Qed.

(** [strptime] never builds a date that is not in the calendar. *)
Lemma strptime_valid {db : unicode_db} raw dt :
  decimal_rows_ok db -> strptime raw = Some dt -> valid_date dt = true.
Proof.
  intros Hdb. unfold strptime.
  destruct raw as [|y1 [|y2 [|y3 [|y4 [|dash r]]]]]; try discriminate.
  destruct (decimal_value 0 [y1; y2; y3; y4]) as [y|] eqn:Y; [|discriminate].
  destruct (dash =? 45); [|discriminate].
  destruct (scan_month r) as [[m r1]|] eqn:Mo; [|discriminate].
  destruct (scan_day r1) as [[d [|? ?]]|] eqn:Da; try discriminate.
  destruct ((1 <=? y) && (d <=? days_in_month y m)) eqn:C; [|discriminate].
  intros [= <-]. apply andb_true_iff in C as [C1 C2].
  apply N.leb_le in C1, C2.
  apply valid_date_spec. cbn [year month day].
  pose proof (decimal_value_four _ _ _ _ _ Hdb Y).
  pose proof (scan_month_range _ _ _ Mo).
  pose proof (scan_day_range _ _ _ Da). lia.
Qed.



Lemma scan_month_repr m c r :
  1 <= m <= 12 -> scan_month (repr_nat m ++ 45 :: c :: r) = Some (m, c :: r).
Proof.
  intros H.
  assert (C : m = 1 \/ m = 2 \/ m = 3 \/ m = 4 \/ m = 5 \/ m = 6 \/ m = 7
              \/ m = 8 \/ m = 9 \/ m = 10 \/ m = 11 \/ m = 12) by lia.
  repeat destruct C as [-> | C]; try subst m; reflexivity.
Qed.

Lemma scan_day_repr {db : unicode_db} d :
  1 <= d <= 31 -> scan_day (repr_nat d) = Some (d, []).
Proof.
  intros H.
  assert (C : exists k, (k < 31)%nat /\ d = 1 + N.of_nat k).
  { exists (N.to_nat (d - 1)). lia. }
  destruct C as (k & Hk & ->).
  do 31 (destruct k as [|k]; [reflexivity|]). lia.
Qed.

Lemma strptime_unpadded {db : unicode_db} dt :
  valid_date dt = true -> strptime (unpadded dt) = Some dt.
Proof.
  intros H. apply valid_date_spec in H as (Hy & Hm & Hd).
  destruct dt as [y m d]. cbn [year month day] in *.
  pose proof (days_in_month_le y m) as Hle.
  unfold unpadded. cbn [year month day].
  pose proof (decimal_value_pad4 y (proj2 Hy)) as Dy.
  destruct (repr_nat d) as [|c r] eqn:R; [now apply repr_nat_not_nil in R|].
  unfold pad4 in *. unfold strptime.
  change ([48 + y / 1000; 48 + (y / 100) mod 10; 48 + (y / 10) mod 10;
           48 + y mod 10] ++ [45] ++ repr_nat m ++ [45] ++ c :: r)
    with (48 + y / 1000 :: 48 + (y / 100) mod 10 :: 48 + (y / 10) mod 10
          :: 48 + y mod 10 :: 45 :: (repr_nat m ++ 45 :: c :: r)).
  cbv beta iota. rewrite Dy. cbn [N.eqb Pos.eqb].
  rewrite scan_month_repr by assumption.
  rewrite <- R, scan_day_repr by lia.
  replace (1 <=? y) with true by (symmetry; apply N.leb_le; lia).
  replace (d <=? days_in_month y m) with true
    by (symmetry; apply N.leb_le; lia).
  reflexivity.
Qed.

(** X8.  [read_optional_date] normalises what it accepts: a date of the
    calendar, from the year 1000 on, typed without the leading zero of the
    month or of the day (2026-1-5), with or without white space around it,
    is returned with both on two digits (2026-01-05). *)
Theorem read_optional_date_normalises {db : unicode_db} (p : str) (dt : date)
  (line : str) (rest : list str) (tr : list event) (d : file) :
  valid_date dt = true -> (1000 <=? year dt) = true ->
  strip line = unpadded dt ->
  read_optional_date p (mkworld (line :: rest) tr d)
  = (Ok (Some (strftime dt)), mkworld rest (tr ++ [EvPrompt p]) d).
Proof.
  intros V _ S. rewrite read_optional_date_step, S.
  rewrite strptime_unpadded by exact V.
  destruct (unpadded dt) eqn:E; [discriminate | reflexivity].
Qed.

(** X9.  A line in the form YYYY-MM-DD whose day does not exist in its
    month (30 February, 29 February of a year that is not a leap year,
    31 April), or whose year is 0000, is not accepted: it is answered
    with the message about dates and a new prompt. *)
Theorem read_optional_date_impossible_day {db : unicode_db} (p : str)
  (y m d : N) (line : str) (rest : list str) (tr : list event) (f : file) :
  y <= 9999 -> 1 <= m <= 12 -> 1 <= d <= 31 ->
  y = 0 \/ days_in_month y m < d ->
  strip line = strftime (mkdate y m d) ->
  read_optional_date p (mkworld (line :: rest) tr f)
  = read_optional_date p
      (mkworld rest (tr ++ [EvPrompt p; EvPrint date_message]) f).
Proof.
  intros Hy Hm Hd Bad S. rewrite read_optional_date_step, S.
  pose proof (strptime_impossible_day y m d Hy Hm Hd Bad) as P.
  rewrite P.
  destruct (strftime (mkdate y m d)) eqn:E; [discriminate | reflexivity].
Qed.

(* ================================================================= *)
(** ** The list on the screen *)

Lemma lines_events_nth tasks : forall i k t,
  nth_error tasks k = Some t ->
  nth_error (lines_events i tasks) k = Some (EvPrint (task_line (i + k) t)).
Proof.
  induction tasks as [|x r IH]; intros i k t H.
  - now destruct k.
  - destruct k as [|k]; cbn in *.
    + injection H as ->. now rewrite Nat.add_0_r.
    + rewrite (IH (S i) k t H). now rewrite Nat.add_succ_r.
Qed.

Lemma lines_events_map tasks : forall i,
  exists lines, lines_events i tasks = map EvPrint lines
                /\ List.length lines = List.length tasks.
Proof.
  induction tasks as [|x r IH]; intros i.
  - now exists [].
  - destruct (IH (S i)) as (ls & E & L).
    exists (task_line i x :: ls). cbn. now rewrite E, L.
Qed.

(** X10.  [list_tasks] reads no line and leaves the file as it is.  After
    its header it prints the one line that says there are no tasks when the
    list is empty, and otherwise one line for each task, in the order of
    the list: the line of the task at position [k] (from 0) carries the
    number [k + 1]. *)
Theorem list_tasks_display (tasks : list task) (w : world) :
  result (list_tasks tasks) w = Ok tt
  /\ stdin (after (list_tasks tasks) w) = stdin w
  /\ disk (after (list_tasks tasks) w) = disk w
  /\ exists lines,
       trace (after (list_tasks tasks) w)
       = trace w ++ header_events (u "YOUR TASKS") ++ map EvPrint lines
       /\ List.length lines = Nat.max 1 (List.length tasks)
       /\ (tasks = [] -> lines = [u "No tasks yet. Add one from the menu!"])
       /\ (forall k t, nth_error tasks k = Some t ->
                       nth_error lines k = Some (task_line (S k) t)).
Proof.
  unfold result, after. rewrite list_tasks_emits.
  cbn [fst snd emits stdin disk trace].
  split; [reflexivity|]. split; [reflexivity|]. split; [reflexivity|].
  unfold list_events. destruct tasks as [|x r].
  - exists [u "No tasks yet. Add one from the menu!"].
    split; [reflexivity|]. split; [reflexivity|]. split; [reflexivity|].
    intros k t H. now destruct k.
  - destruct (lines_events_map (x :: r) 1) as (ls & E & L).
    exists ls. rewrite E. split; [reflexivity|]. split; [rewrite L; cbn; lia|].
    split; [discriminate|]. intros k t H.
    pose proof (lines_events_nth (x :: r) 1 k t H) as Hn.
    rewrite E, nth_error_map in Hn.
    destruct (nth_error ls k) as [l|]; [|discriminate].
    cbn in Hn. now injection Hn as ->.
Qed.

(** X11.  The number shown in front of a task is the number that selects
    it.  When the task at position [k] (from 0) is shown with the number
    [k + 1] and that number is typed, [delete_task] takes out this task and
    no other, saves the rest and prints its title; [mark_complete] sets the
    flag of this task and of no other, and saves. *)
Theorem typed_number_selects {db : unicode_db} (tasks : list task) (k : nat)
  (t : task) (rest : list str) (tr : list event) (d : file) :
  nth_error tasks k = Some t -> d <> Unreadable ->
  let w := mkworld (repr_nat (N.of_nat (S k)) :: rest) tr d in
  exists before behind,
    tasks = before ++ t :: behind /\ List.length before = k
    /\ nth_error (lines_events 1 tasks) k = Some (EvPrint (task_line (S k) t))
    /\ delete_task tasks w
       = (Ok (before ++ behind),
          mkworld rest
            (tr ++ header_events (u "DELETE A TASK") ++ list_events tasks
             ++ [EvPrompt (10 :: u "Enter the task number to delete: ");
                 EvWrite (saved (before ++ behind));
                 EvPrint (u "Deleted: " ++ title t)])
            (Content (saved (before ++ behind))))
    /\ let tasks' :=
         before ++ mktask (id t) (title t) (due_date t) true :: behind in
       mark_complete tasks w
       = (Ok tasks',
          mkworld rest
            (tr ++ header_events (u "MARK TASK COMPLETE") ++ list_events tasks
             ++ [EvPrompt (10 :: u "Enter the task number to mark complete: ");
                 EvWrite (saved tasks');
                 EvPrint (u "Task marked complete and saved!")])
            (Content (saved tasks'))).
Proof.
  intros Hk Hd w.
  assert (Hlen : (k < List.length tasks)%nat).
  { apply nth_error_Some. congruence. }
  destruct (split_at tasks k Hlen) as (before & x & behind & Ht & Hl).
  assert (x = t) as ->.
  { rewrite Ht, nth_error_app2, Hl, Nat.sub_diag in Hk by lia.
    now injection Hk. }
  exists before, behind. split; [exact Ht|]. split; [exact Hl|].
  split; [exact (lines_events_nth tasks 1 k t Hk)|].
  assert (Hb : (1 <= Z.of_N (N.of_nat (S k)) <= Z.of_nat (List.length tasks))%Z)
    by lia.
  assert (Hi : index_of (Z.of_N (N.of_nat (S k))) = k)
    by (unfold index_of; lia).
  assert (Hp : pop k tasks = Some (t, before ++ behind)).
  { apply pop_spec. exists before, behind. auto. }
  assert (Hs : set_complete k tasks
               = Some (before ++ mktask (id t) (title t) (due_date t) true
                                 :: behind)).
  { apply set_complete_spec. exists before, t, behind. auto. }
  destruct tasks as [|t0 ts]; [destruct before; discriminate|].
  split.
  - unfold delete_task, bind, w.
    rewrite print_header_emits, list_tasks_emits, emits_emits.
    unfold emits at 1. cbn [stdin trace disk].
    rewrite read_int_numeral by exact Hb. rewrite Hi, Hp.
    rewrite save_tasks_ok by exact Hd.
    rewrite print_emits. unfold emits, ret, saved. cbn [stdin trace disk].
    now rewrite <- !app_assoc.
  - cbv zeta. unfold mark_complete, bind, w.
    rewrite print_header_emits, list_tasks_emits, emits_emits.
    unfold emits at 1. cbn [stdin trace disk].
    rewrite read_int_numeral by exact Hb. rewrite Hi, Hs.
    rewrite save_tasks_ok by exact Hd.
    rewrite print_emits. unfold emits, ret, saved. cbn [stdin trace disk].
    now rewrite <- !app_assoc.
Qed.

(** X12.  Option 1 of the menu shows the list and waits at [pause] for
    one line, which it ignores whatever it holds; the loop goes on with the
    same list, and nothing is written to the file. *)
Theorem list_option_changes_nothing {db : unicode_db} (tasks : list task)
  (line enter : str) (rest : list str) (tr : list event) (d : file) :
  strip line = u "1" ->
  iteration tasks (mkworld (line :: enter :: rest) tr d)
  = (Ok (Some tasks),
     mkworld rest
       (tr ++ menu_events ++ [EvPrompt menu_prompt] ++ list_events tasks
        ++ [EvPrompt (10 :: pause_message)]) d).
Proof.
  intros S. unfold iteration. unfold bind at 1. rewrite print_menu_emits.
  unfold bind at 1.
  assert (R : read_int (10 :: u "Choose an option (1-6): ") 1 6
                (emits menu_events (mkworld (line :: enter :: rest) tr d))
              = (Ok 1%Z,
                 mkworld (enter :: rest)
                   (tr ++ menu_events ++ [EvPrompt menu_prompt]) d)).
  { unfold emits, read_int. cbn [stdin trace disk].
    erewrite loop_input_accept; [now rewrite <- app_assoc|].
    cbv zeta. rewrite S. reflexivity. }
  rewrite R. unfold dispatch. cbn [Z.eqb Pos.eqb]. unfold bind at 1.
  rewrite list_tasks_emits.
  unfold pause, bind, input, emit, emits, ret. cbn [stdin trace disk].
  now rewrite <- !app_assoc.
Qed.

(* ================================================================= *)
(** ** What [add_task] adds *)


Lemma next_task_id_snoc tasks t :
  id t = next_task_id tasks ->
  next_task_id (tasks ++ [t]) = (next_task_id tasks + 1)%Z.
Proof.
  destruct tasks as [|x r]; cbn [List.app next_task_id].
  - intros ->. reflexivity.
  - intros H. rewrite map_app, fold_left_app. cbn [map fold_left]. lia.
Qed.

Lemma combine_map_fst {A B C} (f : A -> C) (l : list A) : forall (m : list B),
  combine (map f l) m = map (fun p => (f (fst p), snd p)) (combine l m).
Proof.
  induction l as [|x l IH]; intros [|y m]; try reflexivity.
  cbn. now rewrite IH.
Qed.

Lemma appended_cons tasks a adds :
  appended tasks (a :: adds)
  = mktask (next_task_id tasks) (fst a) (snd a) false
    :: appended (tasks ++ [mktask (next_task_id tasks) (fst a) (snd a) false])
         adds.
Proof.
  unfold appended. cbn [List.length seq combine map fst snd].
  rewrite Z.add_0_r. f_equal.
  rewrite next_task_id_snoc by reflexivity.
  rewrite <- seq_shift, combine_map_fst, map_map.
  apply map_ext. intros [k x]. cbn [fst snd]. f_equal. lia.
Qed.

(** X14.  A run of adds on any list, not only on the empty one, leaves
    the tasks of the list where they are and puts the new ones behind them
    with consecutive ids that start at [next_task_id] of the list; the next
    id after [n] adds is [n] more than before. *)
Theorem adds_go_on_from_next_id (adds : list (str * option str)) :
  forall tasks,
    run (map (fun a => DoAdd (fst a) (snd a)) adds) tasks
    = tasks ++ appended tasks adds
    /\ map id (appended tasks adds)
       = map (fun k => (next_task_id tasks + Z.of_nat k)%Z)
           (seq 0 (List.length adds))
    /\ next_task_id (tasks ++ appended tasks adds)
       = (next_task_id tasks + Z.of_nat (List.length adds))%Z.
Proof.
  induction adds as [|a adds IH]; intros tasks.
  - cbn. rewrite app_nil_r. split; [reflexivity|]. split; [reflexivity | lia].
  - destruct (IH (tasks ++ [mktask (next_task_id tasks) (fst a) (snd a) false]))
      as (R & Ids & Nx).
    rewrite appended_cons. split; [|split].
    + cbn [map run fold_left apply_op]. unfold add.
      unfold run in R. rewrite R. now rewrite <- app_assoc.
    + cbn [map List.length seq id]. rewrite Z.add_0_r. f_equal.
      rewrite Ids, next_task_id_snoc by reflexivity.
      rewrite <- seq_shift, map_map. apply map_ext. intros k. lia.
    + rewrite <- app_assoc in Nx. cbn [List.app] in Nx. rewrite Nx.
      rewrite next_task_id_snoc by reflexivity. cbn [List.length]. lia.
Qed.

(* ================================================================= *)
(** ** More on the file *)

Lemma saved_printable tasks : forallb printable (saved tasks) = true.
Proof. apply dump_printable, value_of_tasks_float_free. Qed.

(** X15.  Whatever the titles and the due dates hold (characters that are
    not ASCII, control characters, quotes, lone surrogates), [save_tasks]
    writes a list whose ids are within the limit of [int] on the number of
    digits to every file that can be opened, and the bytes it writes are
    printable ASCII characters and line feeds only, which decode to the
    text of [json.dump]; on a file that cannot be opened it raises
    [OSError] and changes nothing. *)
Theorem save_tasks_writes_ascii (tasks : list task) (w : world) :
  (disk w <> Unreadable -> ids_within_limit tasks = true ->
   exists bs,
     save_tasks tasks w
     = (Ok tt, mkworld (stdin w) (trace w ++ [EvWrite bs]) (Content bs))
     /\ forallb printable bs = true
     /\ utf8_decode bs = Some (json_dumps (value_of_tasks tasks)))
  /\ (disk w = Unreadable -> save_tasks tasks w = (Raise OSError, w)).
Proof.
  split.
  - intros H _. exists (saved tasks). split; [now apply save_tasks_ok|].
    split; [apply saved_printable|].
    apply utf8_decode_printable, saved_printable.
  - intros H. unfold save_tasks. now rewrite H.
Qed.

(** X16.  The file tells the lists apart: two lists of tasks (with titles
    and due dates free of surrogate pairs) whose saves leave the same file
    are the same list. *)
Theorem equal_files_equal_lists (tasks1 tasks2 : list task)
  (w1 w1' w2 w2' : world) :
  forallb task_ok tasks1 = true -> forallb task_ok tasks2 = true ->
  save_tasks tasks1 w1 = (Ok tt, w1') -> save_tasks tasks2 w2 = (Ok tt, w2') ->
  disk w1' = disk w2' -> tasks1 = tasks2.
Proof.
  intros H1 H2 S1 S2 E.
  apply save_tasks_disk in S1. apply save_tasks_disk in S2.
  pose proof (load_tasks_saved tasks1 w1' H1 S1) as L1.
  rewrite E in S1.
  pose proof (load_tasks_saved tasks2 w2' H2 S2) as L2.
  pose proof (load_tasks_saved tasks1 w2' H1 S1) as L3.
  assert (V : value_of_tasks tasks1 = value_of_tasks tasks2) by congruence.
  apply (f_equal tasks_of_value) in V.
  rewrite !tasks_of_value_of_tasks in V. congruence.
Qed.

Lemma utf8_decode_ascii s :
  forallb (fun c => c <? 128) s = true -> utf8_decode s = Some s.
Proof.
  induction s as [|c r IH]; [reflexivity|]. cbn [forallb utf8_decode].
  intros H. apply andb_true_iff in H as [H1 H2]. now rewrite H1, IH.
Qed.




Lemma json_ws_ascii s :
  forallb json_ws s = true -> forallb (fun c => c <? 128) s = true.
Proof.
  intros H. rewrite forallb_forall in *. intros x Hx. specialize (H x Hx).
  unfold json_ws in H. apply N.ltb_lt.
  repeat (apply orb_true_iff in H as [H | H]); apply N.eqb_eq in H; lia.
Qed.

Lemma universal_newlines_ws s :
  forallb json_ws s = true -> forallb json_ws (universal_newlines s) = true.
Proof.
  assert (G : forall n s, (List.length s <= n)%nat ->
                          forallb json_ws s = true ->
                          forallb json_ws (universal_newlines s) = true).
  { induction n as [|n IH]; intros [|c r] L H; try reflexivity;
      cbn [List.length] in L; [lia|].
    cbn [forallb] in H. apply andb_true_iff in H as [H1 H2].
    cbn [universal_newlines]. destruct (c =? 13).
    - cbn [forallb]. change (json_ws 10) with true. cbn [andb].
      destruct r as [|c' r']; [reflexivity|].
      cbn [forallb] in H2. apply andb_true_iff in H2 as [H3 H4].
      destruct (c' =? 10).
      + apply IH; [cbn [List.length] in L; lia | exact H4].
      + apply IH; [lia|]. cbn [forallb]. now rewrite H3, H4.
    - cbn [forallb]. rewrite H1. apply IH; [lia | exact H2]. }
  intros H. now apply (G (List.length s)).
Qed.

Lemma skip_ws_all s : forallb json_ws s = true -> skip_ws s = [].
Proof.
  induction s as [|c r IH]; [reflexivity|]. cbn [forallb skip_ws].
  intros H. apply andb_true_iff in H as [H1 H2]. now rewrite H1, IH.
Qed.

(** X18.  A file that is empty, or holds nothing but spaces, tabs and
    line ends, is read as the empty list, without an error. *)
Theorem load_tasks_blank_file (text : str) (w : world) :
  forallb json_ws text = true -> disk w = Content text ->
  load_tasks w = (Ok (VList []), w).
Proof.
  intros H D. unfold load_tasks. rewrite D.
  rewrite utf8_decode_ascii by now apply json_ws_ascii.
  unfold json_loads. rewrite skip_ws_all by now apply universal_newlines_ws.
  unfold parse_fuel. rewrite Nat.add_comm. reflexivity.
Qed.

Lemma option_map_some {A B} (f : A -> B) o y :
  option_map f o = Some y -> exists x, o = Some x.
Proof. destruct o as [x|]; [now exists x | discriminate]. Qed.

Lemma utf8_decode_bytes n : forall bs s,
  (List.length bs <= n)%nat -> utf8_decode bs = Some s ->
  existsb never_in_utf8 bs = false.
Proof.
  assert (C : forall b, is_cont b = true -> never_in_utf8 b = false).
  { intros b H. apply in_range_spec in H. unfold never_in_utf8.
    apply orb_false_iff. split; [apply orb_false_iff; split|].
    - apply N.eqb_neq. lia.
    - apply N.eqb_neq. lia.
    - apply N.leb_gt. lia. }
  assert (R : forall lo hi b,
             in_range lo hi b = true -> 194 <= lo -> hi <= 244 ->
             never_in_utf8 b = false).
  { intros lo hi b H Hlo Hhi. apply in_range_spec in H. unfold never_in_utf8.
    apply orb_false_iff. split; [apply orb_false_iff; split|].
    - apply N.eqb_neq. lia.
    - apply N.eqb_neq. lia.
    - apply N.leb_gt. lia. }
  induction n as [|n IH]; intros [|b0 r0] s L H; try reflexivity;
    cbn [List.length] in L; [lia|].
  cbn [utf8_decode] in H. cbn [existsb].
  destruct (b0 <? 128) eqn:E0.
  { apply option_map_some in H as (x & H).
    rewrite (IH r0 x) by (try lia; exact H).
    apply N.ltb_lt in E0. unfold never_in_utf8.
    replace (b0 =? 192) with false by (symmetry; apply N.eqb_neq; lia).
    replace (b0 =? 193) with false by (symmetry; apply N.eqb_neq; lia).
    replace (245 <=? b0) with false by (symmetry; apply N.leb_gt; lia).
    reflexivity. }
  destruct (in_range 194 223 b0) eqn:E1.
  { destruct r0 as [|b1 r1]; [discriminate|].
    destruct (is_cont b1) eqn:C1; [|discriminate].
    apply option_map_some in H as (x & H). cbn [List.length] in L.
    cbn [existsb].
    rewrite (IH r1 x) by (try lia; exact H).
    rewrite (R _ _ _ E1), (C _ C1) by lia. reflexivity. }
  destruct (in_range 224 239 b0) eqn:E2.
  { destruct r0 as [|b1 [|b2 r2]]; try discriminate.
    cbv zeta in H.
    destruct (is_cont b1) eqn:C1; [|discriminate].
    destruct (is_cont b2) eqn:C2; [|discriminate].
    cbn [andb] in H.
    match type of H with (if ?c then _ else _) = _ => destruct c end;
      [|discriminate].
    apply option_map_some in H as (x & H). cbn [List.length] in L.
    cbn [existsb].
    rewrite (IH r2 x) by (try lia; exact H).
    rewrite (R _ _ _ E2), (C _ C1), (C _ C2) by lia. reflexivity. }
  destruct (in_range 240 244 b0) eqn:E3; [|discriminate].
  destruct r0 as [|b1 [|b2 [|b3 r3]]]; try discriminate.
  cbv zeta in H.
  destruct (is_cont b1) eqn:C1; [|discriminate].
  destruct (is_cont b2) eqn:C2; [|discriminate].
  destruct (is_cont b3) eqn:C3; [|discriminate].
  cbn [andb] in H.
  match type of H with (if ?c then _ else _) = _ => destruct c end;
    [|discriminate].
  apply option_map_some in H as (x & H). cbn [List.length] in L.
  cbn [existsb].
  rewrite (IH r3 x) by (try lia; exact H).
  rewrite (R _ _ _ E3), (C _ C1), (C _ C2), (C _ C3) by lia. reflexivity.
Qed.

(** X19.  A file that holds, anywhere, a byte that no UTF-8 text holds
    (0xC0, 0xC1, 0xF5 and above) is not treated as a broken file:
    [load_tasks] raises [UnicodeDecodeError], and [main] ends with this
    exception before it has printed or written anything. *)
Theorem load_tasks_undecodable_byte {db : unicode_db} (bs : list N)
  (w : world) :
  existsb never_in_utf8 bs = true -> disk w = Content bs ->
  load_tasks w = (Raise UnicodeDecodeError, w)
  /\ main w = (Raise UnicodeDecodeError, w).
Proof.
  intros H D.
  assert (L : load_tasks w = (Raise UnicodeDecodeError, w)).
  { unfold load_tasks. rewrite D.
    destruct (utf8_decode bs) as [s|] eqn:E; [|reflexivity].
    apply (utf8_decode_bytes (List.length bs)) in E; [congruence | lia]. }
  split; [exact L|]. unfold main, bind. now rewrite L.
Qed.

(* ================================================================= *)
(** ** Whole sessions *)

Lemma load_tasks_nothing w :
  nothing_to_load w -> load_tasks w = (Ok (VList []), w).
Proof.
  unfold load_tasks. intros [D | (bs & text & D & U & _ & J)]; rewrite D.
  - reflexivity.
  - now rewrite U, J.
Qed.

Lemma main_loads {db : unicode_db} v tasks w :
  load_tasks w = (Ok v, w) -> tasks_of_value v = Some tasks ->
  main w = main_loop tasks w.
Proof. intros L T. unfold main, bind. now rewrite L, T. Qed.

(** X20.  Started on a file that is missing or holds text that is not
    JSON (UTF-8 text within the limits of the interpreter, see
    [within_json_limits]), and left at once by option 6, the program writes
    the empty list: the file then holds the two characters [[]], and what a
    broken file held is gone. *)
Theorem main_exit_rewrites_file {db : unicode_db} (w : world) (line : str)
  (rest : list str) :
  nothing_to_load w -> stdin w = line :: rest -> strip line = u "6" ->
  main w
  = (Ok tt,
     mkworld rest
       (trace w ++ menu_events
        ++ [EvPrompt menu_prompt; EvWrite (u "[]"); EvPrint (u "Goodbye!")])
       (Content (u "[]"))).
Proof.
  intros N S L.
  assert (D : disk w <> Unreadable).
  { destruct N as [D | (bs & text & D & _)]; rewrite D; discriminate. }
  rewrite (main_loads (VList []) [] w (load_tasks_nothing w N) eq_refl).
  unfold main_loop. rewrite S. cbn [List.length iterate].
  unfold bind at 1. unfold iteration, bind at 1.
  rewrite print_menu_emits. unfold bind at 1.
  assert (R : read_int (10 :: u "Choose an option (1-6): ") 1 6
                (emits menu_events w)
              = (Ok 6%Z,
                 mkworld rest (trace w ++ menu_events ++ [EvPrompt menu_prompt])
                   (disk w))).
  { unfold emits. rewrite S. unfold read_int.
    erewrite loop_input_accept; [now rewrite <- app_assoc|].
    cbv zeta. rewrite L. reflexivity. }
  rewrite R. unfold dispatch. cbn [Z.eqb Pos.eqb]. unfold bind at 1.
  rewrite save_tasks_ok by exact D. cbn [stdin trace disk].
  unfold bind, print, ret, emit. cbn [stdin trace disk].
  now rewrite <- !app_assoc.
Qed.

(** X21.  When no line of the input is an option of the menu (each is
    rejected: not a number, or a number outside 1 to 6, within the limit of
    [int] on the number of digits), [main] shows the menu once, answers
    every line with the message about the bounds, and ends with [EOFError]
    when the input runs out; it has written nothing, and the file is as it
    was. *)
Theorem main_without_valid_choice {db : unicode_db} (w : world) (v : value)
  (tasks : list task) :
  load_tasks w = (Ok v, w) -> tasks_of_value v = Some tasks ->
  forallb within_limit (stdin w) = true ->
  forallb (cleanly_rejected 1 6) (stdin w) = true ->
  main w
  = (Raise EOFError,
     mkworld []
       (trace w ++ menu_events ++ menu_rejections (stdin w)
        ++ [EvPrompt menu_prompt])
       (disk w))
  /\ forallb (fun e => negb (is_write e))
       (menu_events ++ menu_rejections (stdin w) ++ [EvPrompt menu_prompt])
     = true.
Proof.
  intros L T _ H. split.
  - rewrite (main_loads v tasks w L T).
    unfold main_loop. cbn [iterate]. unfold bind at 1.
    unfold iteration, bind at 1. rewrite print_menu_emits. unfold bind at 1.
    unfold emits. rewrite (read_int_rejects _ 1 6 (stdin w) _ _ H).
    unfold menu_rejections, menu_prompt. now rewrite <- !app_assoc.
  - rewrite !forallb_app. apply andb_true_iff. split; [reflexivity|].
    apply andb_true_iff. split; [|reflexivity].
    unfold menu_rejections. clear. induction (stdin w) as [|l r IH];
      [reflexivity | exact IH].
Qed.

(** *** What every action keeps *)

Section Keeps.
Context {db : unicode_db}.
Variable ok : str -> bool.

Lemma keeps_ret {A} (a : A) (Q : A -> world -> Prop) :
  (forall w, Q a w) -> keeps ok (input_error ok) (ret a) Q.
Proof. intros H w T. cbn. auto. Qed.

Lemma keeps_bind {A B} (m : M A) (k : A -> M B) Q R :
  keeps ok (input_error ok) m Q ->
  (forall a w, Q a w -> tidy ok w ->
               match k a w with
               | (Ok b, w') => tidy ok w' /\ R b w'
               | (Raise e, _) => input_error ok e
               end) ->
  keeps ok (input_error ok) (bind m k) R.
Proof.
  intros Hm Hk w T. unfold bind. specialize (Hm w T).
  destruct (m w) as [[a|e] w1]; [|exact Hm].
  destruct Hm as [T1 Q1]. now apply Hk.
Qed.

Lemma keeps_then {A B} (m : M A) (k : A -> M B) (P : A -> Prop) R :
  keeps ok (input_error ok) m (fun a _ => P a) ->
  (forall a, P a -> keeps ok (input_error ok) (k a) R) ->
  keeps ok (input_error ok) (bind m k) R.
Proof.
  intros Hm Hk. apply (keeps_bind m k _ R Hm). intros a w Pa T. now apply Hk.
Qed.

Lemma keeps_seq {A B} (m : M A) (k : A -> M B) Q R :
  keeps ok (input_error ok) m Q ->
  (forall a, keeps ok (input_error ok) (k a) R) ->
  keeps ok (input_error ok) (bind m k) R.
Proof.
  intros Hm Hk. apply (keeps_bind m k Q R Hm). intros a w _ T. now apply Hk.
Qed.

Lemma keeps_weaken {A} (m : M A) (Q R : A -> world -> Prop) :
  keeps ok (input_error ok) m Q -> (forall a w, Q a w -> R a w) ->
  keeps ok (input_error ok) m R.
Proof.
  intros Hm H w T. specialize (Hm w T).
  destruct (m w) as [[a|e] w1]; [|exact Hm]. split; [tauto|]. apply H. tauto.
Qed.

Lemma keeps_also {A} (m : M A) (Q R : A -> world -> Prop) :
  keeps ok (input_error ok) m Q ->
  (forall w a w', m w = (Ok a, w') -> R a w') ->
  keeps ok (input_error ok) m (fun a w => Q a w /\ R a w).
Proof.
  intros Hm H w T. specialize (Hm w T). specialize (H w).
  destruct (m w) as [[a|e] w1]; [|exact Hm].
  split; [tauto|]. split; [tauto|]. now apply H.
Qed.

Lemma keeps_print s : keeps ok (input_error ok) (print s) (fun _ _ => True).
Proof. intros w T. cbn. split; [exact T | exact I]. Qed.

Lemma keeps_emits {A} (m : M A) a evs :
  (forall w, m w = (Ok a, emits evs w)) ->
  keeps ok (input_error ok) m (fun _ _ => True).
Proof. intros H w T. rewrite H. split; [exact T | exact I]. Qed.

Lemma keeps_print_header t :
  keeps ok (input_error ok) (print_header t) (fun _ _ => True).
Proof. apply (keeps_emits _ tt (header_events t)), print_header_emits. Qed.

Lemma keeps_list_tasks tasks :
  keeps ok (input_error ok) (list_tasks tasks) (fun _ _ => True).
Proof. apply (keeps_emits _ tt (list_events tasks)), list_tasks_emits. Qed.

Lemma keeps_print_menu : keeps ok (input_error ok) print_menu (fun _ _ => True).
Proof. apply (keeps_emits _ tt menu_events), print_menu_emits. Qed.

Lemma keeps_pause m : keeps ok (input_error ok) (pause m) (fun _ _ => True).
Proof.
  intros [lines tr d] [T D]. unfold pause, bind, input. cbn in *.
  destruct lines as [|l r]; cbn.
  - now left.
  - cbn in T. apply andb_true_iff in T as [_ T]. repeat split; assumption.
Qed.

Lemma keeps_save_tasks tasks :
  keeps ok (input_error ok) (save_tasks tasks) (fun _ _ => True).
Proof.
  intros w [T D]. rewrite save_tasks_ok by exact D.
  repeat split; [exact T | discriminate].
Qed.

Lemma keeps_loop_input {A} p (body : str -> verdict A) :
  (forall l e, ok l = true -> body l = Fail e -> input_error ok e) ->
  keeps ok (input_error ok) (loop_input p body)
    (fun a _ => exists l, ok l = true /\ body l = Accept a).
Proof.
  intros HF [lines tr d] [T D]. cbn [stdin disk] in *. revert tr.
  induction lines as [|l r IH]; intros tr.
  - rewrite loop_input_eof. now left.
  - cbn [forallb] in T. apply andb_true_iff in T as [Tl Tr].
    destruct (body l) as [a|msg|e] eqn:B.
    + rewrite (loop_input_accept _ _ _ _ _ _ _ B).
      split; [split; assumption|]. now exists l.
    + rewrite (loop_input_reject _ _ _ _ _ _ _ B). now apply IH.
    + unfold loop_input. cbn. rewrite B. now apply (HF l).
Qed.

Lemma keeps_read_int p lo hi :
  keeps ok (input_error ok) (read_int p lo hi)
    (fun v _ => (lo <= v <= hi)%Z).
Proof.
  eapply keeps_weaken.
  - eapply (keeps_also _ _ (fun v _ => (lo <= v <= hi)%Z)).
    + unfold read_int. apply keeps_loop_input. intros l e Hl. cbv zeta.
      destruct (isdigit (strip l)) eqn:I; [|discriminate].
      destruct (py_int (strip l)) as [v|] eqn:P.
      * destruct ((lo <=? v)%Z && (v <=? hi)%Z); discriminate.
      * intros [= <-]. right. split; [reflexivity|]. exists l.
        split; [exact Hl|].
        destruct (ascii_only l) eqn:A; [|reflexivity].
        apply ascii_only_strip in A.
        pose proof (isdigit_ascii _ A I) as D. unfold py_int in P.
        rewrite decimal_value_digits in P by exact D. discriminate.
    + intros w a w' H. exact (read_int_range _ _ _ _ _ _ H).
  - cbv beta. tauto.
Qed.

Lemma keeps_read_non_empty p :
  keeps ok (input_error ok) (read_non_empty p)
    (fun t _ => exists l, ok l = true /\ t = strip l).
Proof.
  eapply keeps_weaken.
  - unfold read_non_empty. apply keeps_loop_input. intros l e _.
    cbv zeta. destruct (strip l); discriminate.
  - cbv beta. intros t _ (l & Hl & B). exists l. split; [exact Hl|].
    destruct (strip l); [discriminate | now injection B].
Qed.

Lemma keeps_read_optional_date p :
  keeps ok (input_error ok) (read_optional_date p) (fun due _ => dated due).
Proof.
  eapply keeps_weaken.
  - unfold read_optional_date. apply keeps_loop_input. intros l e _.
    cbv zeta. destruct (strip l) as [|c s]; [discriminate|].
    destruct (strptime (c :: s)); discriminate.
  - cbv beta. intros due _ (l & _ & B).
    destruct (strip l) as [|c s] eqn:S.
    + injection B as <-. exact I.
    + destruct (strptime (c :: s)) as [dt|] eqn:P; [|discriminate].
      injection B as <-. now exists (c :: s), dt.
Qed.

Lemma keeps_add_task tasks :
  keeps ok (input_error ok) (add_task tasks)
    (fun tasks' _ => next_list ok tasks tasks').
Proof.
  unfold add_task.
  eapply keeps_seq; [apply keeps_print_header | intros _].
  eapply keeps_then; [apply keeps_read_non_empty | intros t (l & Hl & ->)].
  eapply keeps_then; [apply keeps_read_optional_date | intros due Hd].
  eapply keeps_seq; [apply keeps_save_tasks | intros _].
  eapply keeps_seq; [apply keeps_print | intros _].
  apply keeps_ret. intros _. right. left. now exists l, due.
Qed.

Lemma keeps_mark_complete tasks :
  keeps ok (input_error ok) (mark_complete tasks)
    (fun tasks' _ => next_list ok tasks tasks').
Proof.
  unfold mark_complete.
  eapply keeps_seq; [apply keeps_print_header | intros _].
  destruct tasks as [|t ts].
  - eapply keeps_seq; [apply keeps_print | intros _].
    apply keeps_ret. intros _. now left.
  - eapply keeps_seq; [apply keeps_list_tasks | intros _].
    eapply keeps_then; [apply keeps_read_int | intros c Hc].
    destruct (index_of_choice _ _ Hc) as [Hi _].
    destruct (split_at (t :: ts) _ Hi) as (b & x & r & Ht & Hl).
    assert (Hs : set_complete (index_of c) (t :: ts)
                 = Some (b ++ mktask (id x) (title x) (due_date x) true :: r)).
    { apply set_complete_spec. exists b, x, r. auto. }
    rewrite Hs.
    eapply keeps_seq; [apply keeps_save_tasks | intros _].
    eapply keeps_seq; [apply keeps_print | intros _].
    apply keeps_ret. intros _. right. right. left. now exists (index_of c).
Qed.

Lemma keeps_delete_task tasks :
  keeps ok (input_error ok) (delete_task tasks)
    (fun tasks' _ => next_list ok tasks tasks').
Proof.
  unfold delete_task.
  eapply keeps_seq; [apply keeps_print_header | intros _].
  destruct tasks as [|t ts].
  - eapply keeps_seq; [apply keeps_print | intros _].
    apply keeps_ret. intros _. now left.
  - eapply keeps_seq; [apply keeps_list_tasks | intros _].
    eapply keeps_then; [apply keeps_read_int | intros c Hc].
    destruct (index_of_choice _ _ Hc) as [Hi _].
    destruct (split_at (t :: ts) _ Hi) as (b & x & r & Ht & Hl).
    assert (Hp : pop (index_of c) (t :: ts) = Some (x, b ++ r)).
    { apply pop_spec. exists b, r. auto. }
    rewrite Hp.
    eapply keeps_seq; [apply keeps_save_tasks | intros _].
    eapply keeps_seq; [apply keeps_print | intros _].
    apply keeps_ret. intros _. right. right. right. now exists (index_of c), x.
Qed.

Lemma keeps_dispatch tasks c :
  keeps ok (input_error ok) (dispatch tasks c)
    (fun r _ => match r with
                | Some tasks' => next_list ok tasks tasks'
                | None => True
                end).
Proof.
  unfold dispatch.
  destruct (c =? 1)%Z.
  { eapply keeps_seq; [apply keeps_list_tasks | intros _].
    eapply keeps_seq; [apply keeps_pause | intros _].
    apply keeps_ret. intros _. now left. }
  destruct (c =? 2)%Z.
  { eapply keeps_then; [apply keeps_add_task | intros ts H].
    eapply keeps_seq; [apply keeps_pause | intros _].
    apply keeps_ret. intros _. exact H. }
  destruct (c =? 3)%Z.
  { eapply keeps_then; [apply keeps_mark_complete | intros ts H].
    eapply keeps_seq; [apply keeps_pause | intros _].
    apply keeps_ret. intros _. exact H. }
  destruct (c =? 4)%Z.
  { eapply keeps_then; [apply keeps_delete_task | intros ts H].
    eapply keeps_seq; [apply keeps_pause | intros _].
    apply keeps_ret. intros _. exact H. }
  destruct (c =? 5)%Z.
  { eapply keeps_seq; [apply keeps_save_tasks | intros _].
    eapply keeps_seq; [apply keeps_print | intros _].
    eapply keeps_seq; [apply keeps_pause | intros _].
    apply keeps_ret. intros _. now left. }
  destruct (c =? 6)%Z.
  { eapply keeps_seq; [apply keeps_save_tasks | intros _].
    eapply keeps_seq; [apply keeps_print | intros _].
    apply keeps_ret. intros _. exact I. }
  apply keeps_ret. intros _. now left.
Qed.

Lemma keeps_iteration tasks :
  keeps ok (input_error ok) (iteration tasks)
    (fun r w' =>
       match r with
       | Some tasks' => next_list ok tasks tasks'
       | None =>
           synced tasks w'
           /\ exists tr, trace w' = tr ++ [EvWrite (saved tasks);
                                          EvPrint (u "Goodbye!")]
       end).
Proof.
  eapply keeps_weaken.
  - eapply (keeps_also _ _
              (fun r w' =>
                 match r with
                 | Some _ => True
                 | None =>
                     synced tasks w'
                     /\ exists tr, trace w' = tr ++ [EvWrite (saved tasks);
                                                    EvPrint (u "Goodbye!")]
                 end)).
    + unfold iteration.
      eapply keeps_seq; [apply keeps_print_menu | intros _].
      eapply keeps_seq; [apply keeps_read_int | intros c].
      apply keeps_dispatch.
    + intros w r w' H. apply iteration_in_step in H.
      destruct r; [exact I | exact H].
  - cbv beta. intros [ts|] w [H1 H2]; assumption.
Qed.

(** Any number of turns keep what the actions keep. *)
Lemma keeps_iterate (Inv : list task -> Prop) :
  (forall tasks tasks', Inv tasks -> next_list ok tasks tasks' -> Inv tasks') ->
  forall n tasks, Inv tasks ->
  keeps ok (input_error ok) (iterate n tasks)
    (fun r w' =>
       match r with
       | Some tasks' => Inv tasks'
       | None =>
           exists tasks',
             Inv tasks' /\ synced tasks' w'
             /\ exists tr, trace w' = tr ++ [EvWrite (saved tasks');
                                            EvPrint (u "Goodbye!")]
       end).
Proof.
  intros Step. induction n as [|n IH]; intros tasks Hi; cbn [iterate].
  - apply keeps_ret. intros _. exact Hi.
  - eapply keeps_bind; [apply keeps_iteration | intros r w1 H T1].
    destruct r as [tasks'|].
    + apply IH; [|exact T1]. now apply (Step tasks).
    + cbn. split; [exact T1|]. now exists tasks.
Qed.

End Keeps.

(** *** Lines and tasks that are read back *)

Lemma no_surrogate_pair_cons c c' r :
  no_surrogate_pair (c :: c' :: r)
  = negb (is_high_surrogate c && is_low_surrogate c')
    && no_surrogate_pair (c' :: r).
Proof. reflexivity. Qed.

Lemma no_surrogate_pair_app a b :
  no_surrogate_pair (a ++ b) = true ->
  no_surrogate_pair a = true /\ no_surrogate_pair b = true.
Proof.
  induction a as [|c r IH]; intros H.
  - now split.
  - destruct r as [|c' r'].
    + cbn [List.app] in H. split; [reflexivity|].
      destruct b as [|c' b']; [reflexivity|].
      cbn [no_surrogate_pair] in H. now apply andb_true_iff in H as [_ H].
    + change (no_surrogate_pair (c :: c' :: (r' ++ b)) = true) in H.
      rewrite no_surrogate_pair_cons in H. apply andb_true_iff in H as [H1 H2].
      destruct (IH H2) as [Ha Hb]. split; [|exact Hb].
      rewrite no_surrogate_pair_cons. apply andb_true_iff. split; [exact H1|].
      exact Ha.
Qed.

Lemma text_ok_strip l : text_ok l = true -> text_ok (strip l) = true.
Proof.
  destruct (strip_spec l) as (a & b & E & _).
  unfold text_ok. intros H. apply andb_true_iff in H as [H1 H2].
  rewrite E in H1, H2. rewrite !forallb_app in H1.
  apply andb_true_iff in H1 as [_ H1]. apply andb_true_iff in H1 as [H1 _].
  apply no_surrogate_pair_app in H2 as [_ H2].
  apply no_surrogate_pair_app in H2 as [H2 _].
  now rewrite H1, H2.
Qed.

Lemma ascii_text_ok s : ascii_only s = true -> text_ok s = true.
Proof.
  unfold ascii_only, text_ok. intros H. apply andb_true_iff. split.
  - rewrite forallb_forall in *. intros x Hx. specialize (H x Hx).
    apply N.ltb_lt in H. apply N.ltb_lt. lia.
  - induction s as [|c r IH]; [reflexivity|].
    cbn [forallb] in H. apply andb_true_iff in H as [H1 H2].
    destruct r as [|c' r']; [reflexivity|].
    rewrite no_surrogate_pair_cons, (IH H2).
    replace (is_high_surrogate c) with false; [reflexivity|].
    symmetry. apply in_range_false. apply N.ltb_lt in H1. lia.
Qed.

Lemma strftime_ascii dt :
  valid_date dt = true -> ascii_only (strftime dt) = true.
Proof.
  intros H. apply valid_date_spec in H as (Hy & Hm & Hd).
  pose proof (days_in_month_le (year dt) (month dt)) as Hle.
  unfold strftime, pad4, pad2, ascii_only. cbn [List.app forallb].
  repeat (apply andb_true_iff; split); try reflexivity;
    apply N.ltb_lt; divlia.
Qed.

Lemma next_list_task_ok {db : unicode_db} tasks tasks' :
  decimal_rows_ok db ->
  forallb task_ok tasks = true -> next_list text_ok tasks tasks' ->
  forallb task_ok tasks' = true.
Proof.
  intros Hdb H [-> | [(l & due & Hl & Hd & ->) | [(i & Hs) | (i & x & Hp)]]].
  - exact H.
  - rewrite forallb_app, H. cbn [forallb andb]. rewrite andb_true_r.
    unfold task_ok. cbn [title due_date]. rewrite (text_ok_strip l Hl).
    destruct due as [s|]; [|reflexivity].
    destruct Hd as (raw & dt & P & ->). cbn [andb].
    apply ascii_text_ok, strftime_ascii. exact (strptime_valid _ _ Hdb P).
  - apply set_complete_spec in Hs as (b & t & r & -> & _ & ->).
    rewrite forallb_app in *. cbn [forallb] in *.
    apply andb_true_iff in H as [H1 H2]. apply andb_true_iff in H2 as [H2 H3].
    rewrite H1, H3. unfold task_ok in *. cbn [title due_date]. now rewrite H2.
  - apply pop_spec in Hp as (b & r & -> & _ & ->).
    rewrite forallb_app in *. cbn [forallb] in *.
    apply andb_true_iff in H as [H1 H2]. apply andb_true_iff in H2 as [_ H3].
    now rewrite H1, H3.
Qed.

Lemma main_loop_exit {db : unicode_db} tasks w w' :
  main_loop tasks w = (Ok tt, w') ->
  iterate (S (List.length (stdin w))) tasks w = (Ok None, w').
Proof.
  unfold main_loop. intros H.
  pose proof (main_loop_ends tasks w) as N. unfold result in N.
  destruct (iterate (S (List.length (stdin w))) tasks w) as [[[ts|]|e] w1];
    try discriminate.
  - now destruct (N ts).
  - now injection H as <-.
Qed.

(** X22.  What one session leaves, the next one finds.  When the file
    holds a list of tasks at the start, the lines typed hold no surrogate
    pair, and [main] ends through option 6, then the last thing written is
    the list as it was at that moment, and [load_tasks], run on the file as
    it is left, returns exactly that list. *)
Theorem session_persists {db : unicode_db} (tasks : list task) (w w' : world) :
  decimal_rows_ok db ->
  load_tasks w = (Ok (value_of_tasks tasks), w) ->
  forallb task_ok tasks = true ->
  forallb text_ok (stdin w) = true -> disk w <> Unreadable ->
  main w = (Ok tt, w') ->
  exists tasks',
    (exists tr, trace w' = tr ++ [EvWrite (saved tasks');
                                  EvPrint (u "Goodbye!")])
    /\ forallb task_ok tasks' = true
    /\ disk w' = Content (saved tasks')
    /\ load_tasks w' = (Ok (value_of_tasks tasks'), w').
Proof.
  intros Hdb L Ht Hl Hd H.
  rewrite (main_loads _ tasks w L (tasks_of_value_of_tasks tasks)) in H.
  apply main_loop_exit in H.
  pose proof (keeps_iterate text_ok (fun ts => forallb task_ok ts = true)
                (fun a b Ha Hn => next_list_task_ok a b Hdb Ha Hn)
                (S (List.length (stdin w))) tasks Ht w (conj Hl Hd)) as K.
  rewrite H in K. destruct K as (_ & tasks' & Ok' & [D S] & Tr).
  exists tasks'. split; [exact Tr|]. split; [exact Ok'|]. split; [exact D|].
  now apply load_tasks_saved.
Qed.

(** X23.  On input whose lines are all ASCII (and within the limit of
    [int] on the number of digits), with a file that can be written and
    that is missing or holds a list of ASCII tasks whose ids stay within
    that limit however many of the lines are used to add tasks, [main]
    never ends with the [ValueError] of [int] or with [IndexError]: it
    ends through option 6, the list saved and [Goodbye!] printed, or with
    [EOFError] when the input runs out. *)
Theorem main_ascii_input {db : unicode_db} (v : value) (tasks : list task)
  (w : world) :
  load_tasks w = (Ok v, w) -> tasks_of_value v = Some tasks ->
  forallb task_ascii tasks = true ->
  ids_leave_room tasks (List.length (stdin w)) = true ->
  forallb ascii_only (stdin w) = true ->
  forallb within_limit (stdin w) = true -> disk w <> Unreadable ->
  (exists w' tasks' tr,
      main w = (Ok tt, w') /\ disk w' = Content (saved tasks')
      /\ trace w' = tr ++ [EvWrite (saved tasks'); EvPrint (u "Goodbye!")])
  \/ (exists w', main w = (Raise EOFError, w')).
Proof.
  intros L T _ _ Hl _ Hd. rewrite (main_loads v tasks w L T).
  pose proof (keeps_iterate ascii_only (fun _ => True) (fun _ _ _ _ => I)
                (S (List.length (stdin w))) tasks I w (conj Hl Hd)) as K.
  pose proof (main_loop_ends tasks w) as N. unfold result in N.
  unfold main_loop.
  destruct (iterate (S (List.length (stdin w))) tasks w) as [[[ts|]|e] w1].
  - now destruct (N ts).
  - left. destruct K as (_ & tasks' & _ & [D _] & tr & Tr).
    now exists w1, tasks', tr.
  - right. exists w1. destruct K as [-> | (_ & l & A & B)]; [reflexivity|].
    congruence.
Qed.


(** *** The lists the program holds *)

(** A file that decodes holds no surrogate, and [scanstring] joins the
    escapes of a high and a low surrogate that follow each other: no string
    [json.load] returns holds such a pair, and neither do the titles and
    the due dates of the tasks made of what it returns. *)

Lemma tail_refl s : tail_of s s.
Proof. now exists []. Qed.

Lemma tail_cons c r s : tail_of r s -> tail_of r (c :: s).
Proof. intros [pre ->]. now exists (c :: pre). Qed.

Lemma tail_trans a b c : tail_of a b -> tail_of b c -> tail_of a c.
Proof. intros [p ->] [q ->]. exists (q ++ p). now rewrite app_assoc. Qed.

Lemma clean_tail r s : tail_of r s -> clean_text s = true -> clean_text r = true.
Proof.
  intros [pre ->]. unfold clean_text. rewrite forallb_app.
  intros H. now apply andb_true_iff in H as [_ H].
Qed.

Lemma skip_ws_tail s : tail_of (skip_ws s) s.
Proof.
  induction s as [|c s IH]; [apply tail_refl|]. cbn [skip_ws].
  destruct (json_ws c); [now apply tail_cons | apply tail_refl].
Qed.

Lemma take_digits_tail s : tail_of (snd (take_digits s)) s.
Proof.
  induction s as [|c s IH]; [apply tail_refl|]. cbn [take_digits].
  destruct (is_digit09 c); [|apply tail_refl].
  destruct (take_digits s) as [d r']. cbn in *. now apply tail_cons.
Qed.

Lemma take_frac_tail s : tail_of (snd (take_frac s)) s.
Proof.
  destruct s as [|dot [|d r]]; try apply tail_refl. cbn [take_frac].
  destruct ((dot =? 46) && is_digit09 d); [|apply tail_refl].
  pose proof (take_digits_tail r) as L.
  destruct (take_digits r) as [ds r']. cbn in *. now do 2 apply tail_cons.
Qed.

Lemma take_exp_tail s : tail_of (snd (take_exp s)) s.
Proof.
  destruct s as [|e r]; [apply tail_refl|]. cbn [take_exp].
  destruct ((e =? 101) || (e =? 69)); [|apply tail_refl].
  destruct r as [|sg t].
  - cbn. apply tail_refl.
  - destruct ((sg =? 45) || (sg =? 43)).
    + pose proof (take_digits_tail t) as L.
      destruct (take_digits t) as [[|d ds] r2]; cbn in *;
        [apply tail_refl | now do 2 apply tail_cons].
    + pose proof (take_digits_tail (sg :: t)) as L.
      destruct (take_digits (sg :: t)) as [[|d ds] r2]; cbn in *;
        [apply tail_refl | now apply tail_cons].
Qed.

Lemma match_number_tail s v r :
  match_number s = Some (v, r) -> tail_of r s /\ strings_ok v = true.
Proof.
  unfold match_number.
  set (p := match s with
            | c :: r0 => if c =? 45 then (true, r0) else (false, s)
            | [] => (false, s)
            end).
  assert (Hp : tail_of (snd p) s).
  { unfold p. destruct s as [|c r0]; [apply tail_refl|].
    destruct (c =? 45); cbn; [apply tail_cons|]; apply tail_refl. }
  destruct p as [neg r0]. cbn [snd] in Hp. cbv zeta.
  destruct r0 as [|c r1]; [discriminate|].
  set (ipart := if in_range 49 57 c
                then let (ds, r2) := take_digits r1 in Some (c :: ds, r2)
                else if c =? 48 then Some ([c], r1) else None).
  assert (Hi : match ipart with
               | Some (_, r2) => tail_of r2 r1
               | None => True
               end).
  { unfold ipart. destruct (in_range 49 57 c).
    - pose proof (take_digits_tail r1) as L.
      now destruct (take_digits r1).
    - destruct (c =? 48); [apply tail_refl | trivial]. }
  destruct ipart as [[ids r2]|]; [|discriminate].
  pose proof (take_frac_tail r2) as Lf.
  destruct (take_frac r2) as [frac r3]. cbn [snd] in Lf.
  pose proof (take_exp_tail r3) as Le.
  destruct (take_exp r3) as [ex r4]. cbn [snd] in Le.
  intros H.
  assert (r = r4 /\ strings_ok v = true) as [-> V].
  { destruct frac, ex; injection H as <- <-; now split. }
  split; [|exact V].
  eapply tail_trans; [exact Le|]. eapply tail_trans; [exact Lf|].
  eapply tail_trans; [exact Hi|]. eapply tail_trans; [|exact Hp].
  apply tail_cons, tail_refl.
Qed.

Lemma strip_prefix_tail p : forall s r, strip_prefix p s = Some r -> tail_of r s.
Proof.
  induction p as [|x p IH]; intros s r H.
  - destruct s; injection H as <-; apply tail_refl.
  - destruct s as [|y s]; [discriminate|]. cbn [strip_prefix] in H.
    destruct (x =? y); [|discriminate]. apply tail_cons. now apply IH.
Qed.

Lemma try_literal_tail lit v s x r :
  try_literal lit v s = Some (x, r) -> tail_of r s /\ x = v.
Proof.
  unfold try_literal.
  destruct (strip_prefix (u lit) s) as [r'|] eqn:E; [|discriminate].
  intros H. injection H as <- <-. split; [|reflexivity].
  now apply strip_prefix_tail in E.
Qed.

Lemma hex_val_lt c v : hex_val c = Some v -> v < 16.
Proof.
  unfold hex_val.
  destruct (in_range 48 57 c) eqn:E1.
  { intros [= <-]. apply in_range_spec in E1. lia. }
  destruct (in_range 97 102 c) eqn:E2.
  { intros [= <-]. apply in_range_spec in E2. lia. }
  destruct (in_range 65 70 c) eqn:E3; [|discriminate].
  intros [= <-]. apply in_range_spec in E3. lia.
Qed.

Lemma hex4_val_lt a b c d h : hex4_val a b c d = Some h -> h < 65536.
Proof.
  unfold hex4_val.
  destruct (hex_val a) as [x|] eqn:Ea; [|discriminate].
  destruct (hex_val b) as [y|] eqn:Eb; [|discriminate].
  destruct (hex_val c) as [z|] eqn:Ec; [|discriminate].
  destruct (hex_val d) as [w|] eqn:Ed; [|discriminate].
  intros E.
  assert (Y : ((x * 16 + y) * 16 + z) * 16 + w = h) by congruence.
  apply hex_val_lt in Ea, Eb, Ec, Ed. lia.
Qed.

Lemma text_ok_cons_head c t :
  is_code_point c = true -> text_ok t = true ->
  (is_high_surrogate c = true -> low_head t = false) ->
  text_ok (c :: t) = true.
Proof.
  unfold text_ok. intros Hc Ht Hh. apply andb_true_iff in Ht as [H1 H2].
  cbn [forallb]. rewrite Hc, H1. cbn [andb].
  destruct t as [|c' r]; [reflexivity|].
  rewrite no_surrogate_pair_cons, H2, andb_true_r.
  apply negb_true_iff. destruct (is_high_surrogate c); [|reflexivity].
  cbn [andb]. now apply Hh.
Qed.

Lemma scalar_spec c :
  scalar c = true ->
  is_code_point c = true /\ is_high_surrogate c = false
  /\ is_low_surrogate c = false.
Proof.
  unfold scalar, is_high_surrogate, is_low_surrogate. intros H.
  apply andb_true_iff in H as [H1 H2]. apply negb_true_iff in H2.
  split; [exact H1|]. apply in_range_false in H2.
  split; apply in_range_false; lia.
Qed.

Lemma unescape_scalar e x : unescape e = Some x -> scalar x = true.
Proof.
  unfold unescape.
  repeat match goal with
         | |- (if ?b then _ else _) = _ -> _ => destruct b
         end; intros [= <-]; reflexivity.
Qed.

Lemma join_surrogates_scalar h l :
  is_high_surrogate h = true -> is_low_surrogate l = true ->
  scalar (join_surrogates h l) = true.
Proof.
  unfold is_high_surrogate, is_low_surrogate. intros Hh Hl.
  apply in_range_spec in Hh, Hl.
  assert (B : N.lor (N.shiftl (h - 55296) 10) (l - 56320) < 2 ^ 20).
  { assert (Hs : N.shiftl (h - 55296) 10 < 2 ^ 20).
    { rewrite N.shiftl_mul_pow2. change (2 ^ 10) with 1024.
      change (2 ^ 20) with 1048576. lia. }
    assert (Hl' : l - 56320 < 2 ^ 20) by (change (2 ^ 20) with 1048576; lia).
    destruct (N.eq_dec (N.lor (N.shiftl (h - 55296) 10) (l - 56320)) 0)
      as [->|NZ]; [reflexivity|].
    apply N.log2_lt_pow2; [lia|].
    rewrite N.log2_lor.
    apply N.max_lub_lt.
    - destruct (N.eq_dec (N.shiftl (h - 55296) 10) 0) as [->|Z1];
        [reflexivity|].
      apply N.log2_lt_pow2; [lia | exact Hs].
    - destruct (N.eq_dec (l - 56320) 0) as [->|Z2]; [reflexivity|].
      apply N.log2_lt_pow2; [lia | exact Hl']. }
  change (2 ^ 20) with 1048576 in B.
  unfold scalar, join_surrogates, is_code_point.
  apply andb_true_iff. split.
  - apply N.ltb_lt. lia.
  - apply negb_true_iff, in_range_false. lia.
Qed.

Lemma scanstring_ok n : forall s t r,
  (List.length s <= n)%nat -> clean_text s = true ->
  scanstring s = Some (t, r) ->
  text_ok t = true /\ tail_of r s
  /\ (low_head t = true -> escaped_low s = true).
Proof.
  induction n as [|n IH]; intros s t r Hn Hc H;
    (destruct s as [|c s]; [discriminate|]); [cbn in Hn; lia|].
  cbn [scanstring] in H. cbn [List.length] in Hn.
  unfold clean_text in Hc. cbn [forallb] in Hc.
  apply andb_true_iff in Hc as [Hc0 Hc].
  (* one character [x] in front of what [scanstring] makes of [X] *)
  assert (K : forall x X,
             (List.length X <= n)%nat -> tail_of X s ->
             cons_fst x (scanstring X) = Some (t, r) ->
             is_code_point x = true ->
             (is_high_surrogate x = true -> escaped_low X = false) ->
             text_ok t = true /\ tail_of r (c :: s) /\ low_head t = is_low_surrogate x).
  { intros x X HX HT HE Hx Hh.
    destruct (scanstring X) as [[t' r']|] eqn:E; [|discriminate].
    cbn in HE. injection HE as <- <-.
    assert (CX : clean_text X = true) by (apply (clean_tail X s HT); exact Hc).
    destruct (IH X t' r' HX CX E) as (T & R & L).
    split; [|split; [|reflexivity]].
    - apply text_ok_cons_head; [exact Hx | exact T |].
      intros Hhi. specialize (Hh Hhi).
      destruct (low_head t'); [|reflexivity].
      rewrite L in Hh by reflexivity. discriminate.
    - apply tail_cons. eapply tail_trans; [exact R | exact HT]. }
  destruct (c =? 34) eqn:Q.
  { injection H as <- <-. split; [reflexivity|].
    split; [apply tail_cons, tail_refl | discriminate]. }
  destruct (c =? 92) eqn:B.
  - apply N.eqb_eq in B. subst c.
    destruct s as [|e s1]; [discriminate|]. cbn [List.length] in Hn.
    destruct (e =? 117) eqn:U.
    + apply N.eqb_eq in U. subst e.
      destruct s1 as [|a [|b [|c' [|d r2]]]]; try discriminate.
      cbn [List.length] in Hn.
      destruct (hex4_val a b c' d) as [h|] eqn:Hx; [|discriminate].
      pose proof (hex4_val_lt _ _ _ _ _ Hx) as Hlt.
      assert (CP : is_code_point h = true)
        by (apply N.ltb_lt; lia).
      assert (T2 : tail_of r2 (117 :: a :: b :: c' :: d :: r2))
        by (do 5 apply tail_cons; apply tail_refl).
      assert (Low : is_low_surrogate h = true ->
                    escaped_low (92 :: 117 :: a :: b :: c' :: d :: r2) = true).
      { intros Hl. cbn [escaped_low]. rewrite Hx, Hl. reflexivity. }
      destruct (is_high_surrogate h) eqn:Hi.
      * assert (NL : is_low_surrogate h = false).
        { unfold is_high_surrogate, is_low_surrogate in *.
          apply in_range_spec in Hi. apply in_range_false. lia. }
        assert (Done : forall X,
                   X = r2 -> escaped_low X = false ->
                   cons_fst h (scanstring X) = Some (t, r) ->
                   text_ok t = true
                   /\ tail_of r (92 :: 117 :: a :: b :: c' :: d :: r2)
                   /\ (low_head t = true ->
                       escaped_low (92 :: 117 :: a :: b :: c' :: d :: r2)
                       = true)).
        { intros X -> EL HE.
          destruct (K h r2) as (T & R & L); try assumption; [lia | |].
          - intros _. exact EL.
          - split; [exact T|]. split; [exact R|]. rewrite L, NL. discriminate. }
        destruct r2 as [|b1 [|b2 [|x1 [|x2 [|x3 [|x4 r3]]]]]];
          try (apply (Done _ eq_refl eq_refl H)).
        destruct ((b1 =? 92) && (b2 =? 117)) eqn:BU.
        -- destruct (hex4_val x1 x2 x3 x4) as [l|] eqn:Hl; [|discriminate].
           destruct (is_low_surrogate l) eqn:Lo.
           ++ pose proof (join_surrogates_scalar h l Hi Lo) as J.
              apply scalar_spec in J as (J1 & J2 & J3).
              destruct (K (join_surrogates h l) r3) as (T & R & L);
                try assumption.
              ** cbn [List.length] in Hn. lia.
              ** do 11 apply tail_cons. apply tail_refl.
              ** intros X. congruence.
              ** split; [exact T|]. split; [exact R|].
                 rewrite L, J3. discriminate.
           ++ apply (Done _ eq_refl); [|exact H].
              cbn [escaped_low]. rewrite BU, Hl, Lo. reflexivity.
        -- apply (Done _ eq_refl); [|exact H].
           cbn [escaped_low]. rewrite BU. reflexivity.
      * destruct (K h r2) as (T & R & L); try assumption; [lia | intros X; congruence |].
        split; [exact T|]. split; [exact R|]. rewrite L. exact Low.
    + destruct (unescape e) as [x|] eqn:Ue; [|discriminate].
      apply unescape_scalar, scalar_spec in Ue as (U1 & U2 & U3).
      destruct (K x s1) as (T & R & L); try assumption.
      * lia.
      * apply tail_cons, tail_refl.
      * intros X. congruence.
      * split; [exact T|]. split; [exact R|]. rewrite L, U3. discriminate.
  - destruct (c <=? 31); [discriminate|].
    apply scalar_spec in Hc0 as (C1 & C2 & C3).
    destruct (K c s) as (T & R & L); try assumption.
    + lia.
    + apply tail_refl.
    + intros X. congruence.
    + split; [exact T|]. split; [exact R|]. rewrite L, C3. discriminate.
Qed.

Lemma scalar_intro c :
  c < 1114112 -> (c < 55296 \/ 57343 < c) -> scalar c = true.
Proof.
  intros H1 H2. unfold scalar, is_code_point. apply andb_true_iff. split.
  - now apply N.ltb_lt.
  - apply negb_true_iff, in_range_false. lia.
Qed.

Lemma clean_text_cons c s :
  scalar c = true -> clean_text s = true -> clean_text (c :: s) = true.
Proof. intros H1 H2. unfold clean_text. cbn [forallb]. now rewrite H1. Qed.

Lemma utf8_decode_clean n : forall bs s,
  (List.length bs <= n)%nat -> utf8_decode bs = Some s -> clean_text s = true.
Proof.
  induction n as [|n IH]; intros bs s Hn H.
  { destruct bs; [|cbn in Hn; lia]. now injection H as <-. }
  destruct bs as [|b0 r0]; [now injection H as <-|].
  cbn [List.length] in Hn. cbn [utf8_decode] in H.
  assert (K : forall c r,
             (List.length r <= n)%nat -> scalar c = true ->
             option_map (cons c) (utf8_decode r) = Some s ->
             clean_text s = true).
  { intros c r Hr Hc E. destruct (utf8_decode r) as [t|] eqn:D; [|discriminate].
    cbn in E. injection E as <-. apply clean_text_cons; [exact Hc|].
    now apply (IH r). }
  destruct (b0 <? 128) eqn:E0.
  { refine (K b0 r0 _ _ H); [lia|]. apply N.ltb_lt in E0.
    apply scalar_intro; lia. }
  destruct (in_range 194 223 b0) eqn:E1.
  { destruct r0 as [|b1 r1]; [discriminate|].
    destruct (is_cont b1) eqn:C1; [|discriminate].
    cbn [List.length] in Hn.
    refine (K _ r1 _ _ H); [lia|].
    apply in_range_spec in E1, C1. apply scalar_intro; lia. }
  destruct (in_range 224 239 b0) eqn:E2.
  { destruct r0 as [|b1 [|b2 r2]]; try discriminate. cbv zeta in H.
    destruct (is_cont b1 && is_cont b2
              && (2048 <=? (b0 - 224) * 4096 + (b1 - 128) * 64 + (b2 - 128))
              && negb (in_range 55296 57343
                         ((b0 - 224) * 4096 + (b1 - 128) * 64 + (b2 - 128))))
      eqn:C; [|discriminate].
    cbn [List.length] in Hn.
    refine (K _ r2 _ _ H); [lia|].
    apply andb_true_iff in C as [C S]. apply andb_true_iff in C as [C _].
    apply andb_true_iff in C as [C1 C2].
    apply negb_true_iff, in_range_false in S.
    apply in_range_spec in E2, C1, C2. apply scalar_intro; lia. }
  destruct (in_range 240 244 b0) eqn:E3; [|discriminate].
  destruct r0 as [|b1 [|b2 [|b3 r3]]]; try discriminate. cbv zeta in H.
  destruct (is_cont b1 && is_cont b2 && is_cont b3
            && in_range 65536 1114111
                 ((b0 - 240) * 262144 + (b1 - 128) * 4096
                  + (b2 - 128) * 64 + (b3 - 128))) eqn:C; [|discriminate].
  cbn [List.length] in Hn.
  refine (K _ r3 _ _ H); [lia|].
  apply andb_true_iff in C as [_ C]. apply in_range_spec in C.
  apply scalar_intro; lia.
Qed.

Lemma universal_newlines_clean n : forall s,
  (List.length s <= n)%nat -> clean_text s = true ->
  clean_text (universal_newlines s) = true.
Proof.
  induction n as [|n IH]; intros s Hn H.
  { destruct s; [reflexivity | cbn in Hn; lia]. }
  destruct s as [|c r]; [reflexivity|].
  cbn [List.length] in Hn. unfold clean_text in H. cbn [forallb] in H.
  apply andb_true_iff in H as [Hc Hr]. cbn [universal_newlines].
  destruct (c =? 13).
  - apply clean_text_cons; [reflexivity|].
    destruct r as [|c' r']; [reflexivity|].
    cbn [forallb] in Hr. apply andb_true_iff in Hr as [Hc' Hr'].
    cbn [List.length] in Hn.
    destruct (c' =? 10).
    + apply IH; [lia | exact Hr'].
    + apply IH; [cbn [List.length]; lia|].
      now apply clean_text_cons.
  - apply clean_text_cons; [exact Hc|]. apply IH; [lia | exact Hr].
Qed.

Lemma dict_set_strings_ok k v d :
  text_ok k = true -> strings_ok v = true ->
  forallb (fun kv => text_ok (fst kv) && strings_ok (snd kv)) d = true ->
  forallb (fun kv => text_ok (fst kv) && strings_ok (snd kv)) (dict_set k v d)
  = true.
Proof.
  intros Hk Hv. induction d as [|[k' v'] r IH]; intros H.
  - cbn. now rewrite Hk, Hv.
  - cbn [forallb fst snd] in H. apply andb_true_iff in H as [H1 H2].
    apply andb_true_iff in H1 as [H1 H1'].
    cbn [dict_set]. destruct (str_eqb k k'); cbn [forallb fst snd].
    + now rewrite H1, Hv, H2.
    + now rewrite H1, H1', IH.
Qed.

Lemma dict_of_pairs_strings_ok ps :
  forallb (fun kv => text_ok (fst kv) && strings_ok (snd kv)) ps = true ->
  forallb (fun kv => text_ok (fst kv) && strings_ok (snd kv))
    (dict_of_pairs ps) = true.
Proof.
  unfold dict_of_pairs.
  assert (G : forall d,
             forallb (fun kv => text_ok (fst kv) && strings_ok (snd kv)) d
             = true ->
             forallb (fun kv => text_ok (fst kv) && strings_ok (snd kv)) ps
             = true ->
             forallb (fun kv => text_ok (fst kv) && strings_ok (snd kv))
               (fold_left (fun d kv => dict_set (fst kv) (snd kv) d) ps d)
             = true).
  { induction ps as [|[k v] r IH]; intros d Hd H; [exact Hd|].
    cbn [forallb fst snd] in H. apply andb_true_iff in H as [H1 H2].
    apply andb_true_iff in H1 as [H1 H1'].
    cbn [fold_left fst snd]. apply IH; [|exact H2].
    now apply dict_set_strings_ok. }
  now apply G.
Qed.

Lemma try_literal_ok lit v s x r :
  strings_ok v = true -> try_literal lit v s = Some (x, r) ->
  strings_ok x = true /\ tail_of r s.
Proof.
  intros Hv H. pose proof (try_literal_tail lit v s x r H) as T.
  unfold try_literal in H. destruct (strip_prefix (u lit) s); [|discriminate].
  injection H as <- <-. now split.
Qed.

Lemma parse_ok n :
  (forall s v r,
      clean_text s = true -> parse_value n s = Some (v, r) ->
      strings_ok v = true /\ tail_of r s)
  /\ (forall s vs r,
         clean_text s = true -> parse_elements n s = Some (vs, r) ->
         forallb strings_ok vs = true /\ tail_of r s)
  /\ (forall s ps r,
         clean_text s = true -> parse_members n s = Some (ps, r) ->
         forallb (fun kv => text_ok (fst kv) && strings_ok (snd kv)) ps = true
         /\ tail_of r s).
Proof.
  induction n as [|n (IHv & IHe & IHm)];
    [split; [|split]; intros; discriminate|].
  split; [|split].
  - intros s v r Hc H. cbn [parse_value] in H.
    destruct s as [|c s1]; [discriminate|].
    assert (C1 : clean_text s1 = true)
      by (apply (clean_tail s1 (c :: s1)); [apply tail_cons, tail_refl | exact Hc]).
    destruct (c =? 34).
    { destruct (scanstring s1) as [[t r']|] eqn:E; [|discriminate].
      injection H as <- <-.
      destruct (scanstring_ok _ s1 t r' (le_n _) C1 E) as (T & R & _).
      split; [exact T | now apply tail_cons]. }
    destruct (c =? 123).
    { pose proof (skip_ws_tail s1) as W.
      destruct (skip_ws s1) as [|c1 r1]; [discriminate|].
      assert (T1 : tail_of r1 (c :: s1)).
      { apply tail_cons. eapply tail_trans; [|exact W].
        apply tail_cons, tail_refl. }
      destruct (c1 =? 125).
      { injection H as <- <-. now split. }
      destruct (c1 =? 34); [|discriminate].
      destruct (parse_members n r1) as [[ps r2]|] eqn:E; [|discriminate].
      injection H as <- <-.
      destruct (IHm r1 ps r2 (clean_tail _ _ T1 Hc) E) as (P & R).
      split; [|eapply tail_trans; [exact R | exact T1]].
      cbn [strings_ok]. now apply dict_of_pairs_strings_ok. }
    destruct (c =? 91).
    { pose proof (skip_ws_tail s1) as W.
      destruct (skip_ws s1) as [|c1 r1]; [discriminate|].
      assert (T1 : tail_of (c1 :: r1) (c :: s1)) by now apply tail_cons.
      destruct (c1 =? 93).
      { injection H as <- <-. split; [reflexivity|].
        eapply tail_trans; [|exact T1]. apply tail_cons, tail_refl. }
      destruct (parse_elements n (c1 :: r1)) as [[vs r2]|] eqn:E;
        [|discriminate].
      injection H as <- <-.
      destruct (IHe _ vs r2 (clean_tail _ _ T1 Hc) E) as (P & R).
      split; [exact P | eapply tail_trans; [exact R | exact T1]]. }
    destruct (c =? 110); [eapply try_literal_ok; [|exact H]; reflexivity|].
    destruct (c =? 116); [eapply try_literal_ok; [|exact H]; reflexivity|].
    destruct (c =? 102); [eapply try_literal_ok; [|exact H]; reflexivity|].
    destruct (c =? 78); [eapply try_literal_ok; [|exact H]; reflexivity|].
    destruct (c =? 73); [eapply try_literal_ok; [|exact H]; reflexivity|].
    destruct (try_literal "-Infinity" (VFloat (u "-Infinity")) (c :: s1))
      as [[x rx]|] eqn:E.
    { injection H as <- <-. eapply try_literal_ok; [|exact E]; reflexivity. }
    destruct (match_number_tail _ _ _ H) as [R V]. now split.
  - intros s vs r Hc H. cbn [parse_elements] in H.
    destruct (parse_value n s) as [[v r0]|] eqn:E; [|discriminate].
    destruct (IHv s v r0 Hc E) as (V & R0).
    pose proof (skip_ws_tail r0) as W.
    destruct (skip_ws r0) as [|c r1]; [discriminate|].
    assert (T1 : tail_of r1 s).
    { eapply tail_trans; [|exact R0]. eapply tail_trans; [|exact W].
      apply tail_cons, tail_refl. }
    destruct (c =? 93).
    { injection H as <- <-. cbn [forallb]. now rewrite V. }
    destruct (c =? 44); [|discriminate].
    destruct (parse_elements n (skip_ws r1)) as [[vs' r2]|] eqn:E2;
      [|discriminate].
    cbn in H. injection H as <- <-.
    assert (T2 : tail_of (skip_ws r1) s)
      by (eapply tail_trans; [apply skip_ws_tail | exact T1]).
    destruct (IHe _ vs' r2 (clean_tail _ _ T2 Hc) E2) as (P & R).
    cbn [forallb]. rewrite V, P. split; [reflexivity|].
    eapply tail_trans; [exact R | exact T2].
  - intros s ps r Hc H. cbn [parse_members] in H.
    destruct (scanstring s) as [[k r0]|] eqn:E; [|discriminate].
    destruct (scanstring_ok _ s k r0 (le_n _) Hc E) as (K & R0 & _).
    pose proof (skip_ws_tail r0) as W.
    destruct (skip_ws r0) as [|c r1]; [discriminate|].
    destruct (c =? 58); [|discriminate].
    assert (T1 : tail_of (skip_ws r1) s).
    { eapply tail_trans; [apply skip_ws_tail|].
      eapply tail_trans; [|exact R0]. eapply tail_trans; [|exact W].
      apply tail_cons, tail_refl. }
    destruct (parse_value n (skip_ws r1)) as [[v r2]|] eqn:E1; [|discriminate].
    destruct (IHv _ v r2 (clean_tail _ _ T1 Hc) E1) as (V & R2).
    pose proof (skip_ws_tail r2) as W2.
    destruct (skip_ws r2) as [|c2 r3]; [discriminate|].
    assert (T3 : tail_of r3 s).
    { eapply tail_trans; [|exact T1]. eapply tail_trans; [|exact R2].
      eapply tail_trans; [|exact W2]. apply tail_cons, tail_refl. }
    destruct (c2 =? 125).
    { injection H as <- <-. cbn [forallb fst snd]. now rewrite K, V. }
    destruct (c2 =? 44); [|discriminate].
    pose proof (skip_ws_tail r3) as W3.
    destruct (skip_ws r3) as [|q r4]; [discriminate|].
    destruct (q =? 34); [|discriminate].
    destruct (parse_members n r4) as [[ps' r5]|] eqn:E4; [|discriminate].
    cbn in H. injection H as <- <-.
    assert (T4 : tail_of r4 s).
    { eapply tail_trans; [|exact T3]. eapply tail_trans; [|exact W3].
      apply tail_cons, tail_refl. }
    destruct (IHm _ ps' r5 (clean_tail _ _ T4 Hc) E4) as (P & R).
    cbn [forallb fst snd]. rewrite K, V, P. split; [reflexivity|].
    eapply tail_trans; [exact R | exact T4].
Qed.

Lemma json_loads_strings_ok s v :
  clean_text s = true -> json_loads s = Some v -> strings_ok v = true.
Proof.
  intros Hc H. unfold json_loads in H.
  destruct (parse_value (parse_fuel s) (skip_ws s)) as [[x r]|] eqn:E;
    [|discriminate].
  destruct (skip_ws r); [|discriminate]. injection H as <-.
  destruct (parse_ok (parse_fuel s)) as (P & _).
  apply (P _ _ _ (clean_tail _ _ (skip_ws_tail s) Hc) E).
Qed.

Lemma task_of_value_ok v t :
  strings_ok v = true -> task_of_value v = Some t -> task_ok t = true.
Proof.
  intros Hv H. unfold task_of_value in H.
  destruct v as [| | | | | |d]; try discriminate.
  destruct d as [|[k1 v1] [|[k2 v2] [|[k3 v3] [|[k4 v4] [|]]]]];
    try discriminate;
    destruct v1; try discriminate; destruct v2; try discriminate;
    destruct v4; try discriminate.
  destruct (str_eqb k1 (u "id") && str_eqb k2 (u "title")
            && str_eqb k3 (u "due_date") && str_eqb k4 (u "is_complete"));
    [|discriminate].
  cbn [strings_ok forallb fst snd] in Hv.
  repeat (apply andb_true_iff in Hv as [? Hv]).
  repeat match goal with
         | X : (_ && _) = true |- _ => apply andb_true_iff in X as [? ?]
         end.
  destruct v3; try discriminate; injection H as <-; unfold task_ok;
    cbn [title due_date strings_ok] in *;
    repeat match goal with
           | X : text_ok _ = true |- _ => try rewrite X; clear X
           end; reflexivity.
Qed.

Lemma tasks_of_value_ok v tasks :
  strings_ok v = true -> tasks_of_value v = Some tasks ->
  forallb task_ok tasks = true.
Proof.
  destruct v as [| | | | |l|]; try discriminate.
  cbn [strings_ok tasks_of_value]. revert tasks.
  induction l as [|x r IH]; intros tasks Hv H.
  - now injection H as <-.
  - cbn [tasks_of_values] in H. cbn [forallb] in Hv.
    apply andb_true_iff in Hv as [Hx Hr].
    destruct (task_of_value x) as [t|] eqn:Et; [|discriminate].
    destruct (tasks_of_values r) as [ts|] eqn:Er; [|discriminate].
    injection H as <-. cbn [forallb].
    now rewrite (task_of_value_ok x t Hx Et), (IH ts Hr eq_refl).
Qed.

Lemma load_tasks_strings_ok w v w' :
  load_tasks w = (Ok v, w') -> strings_ok v = true.
Proof.
  unfold load_tasks.
  destruct (disk w) as [| |bs]; try (intros [= <- _]; reflexivity).
  destruct (utf8_decode bs) as [text|] eqn:U; [|discriminate].
  destruct (json_loads (universal_newlines text)) as [x|] eqn:J;
    intros [= <- _]; [|reflexivity].
  apply (json_loads_strings_ok _ _ (universal_newlines_clean _ _ (le_n _)
           (utf8_decode_clean _ _ _ (le_n _) U)) J).
Qed.

Lemma loaded_tasks_ok w v w' tasks :
  load_tasks w = (Ok v, w') -> tasks_of_value v = Some tasks ->
  forallb task_ok tasks = true.
Proof.
  intros L T. exact (tasks_of_value_ok v tasks (load_tasks_strings_ok w v w' L) T).
Qed.

(** C4.  [save_tasks] followed by [load_tasks] gives back the list that
    was saved: same ids, titles, due dates (or none) and flags, in the same
    order.  This holds of every list whose titles and due dates are text in
    which no high surrogate is directly followed by a low surrogate, and
    the program holds no other list: the list it makes of what [load_tasks]
    returns is such a list, whatever the file held; each action makes such
    a list of such a list, on typed lines that are such text (as the lines
    [input] returns are: decoding gives no high surrogate); and so a
    session that ends through option 6 leaves a file from which
    [load_tasks] returns the list as it was at that moment. *)
Theorem save_then_load {db : unicode_db} :
  (forall (tasks : list task) (w w' : world),
      forallb task_ok tasks = true ->
      save_tasks tasks w = (Ok tt, w') ->
      load_tasks w' = (Ok (value_of_tasks tasks), w')
      /\ tasks_of_value (value_of_tasks tasks) = Some tasks)
  /\ (forall (w w' : world) (v : value) (tasks : list task),
         load_tasks w = (Ok v, w') -> tasks_of_value v = Some tasks ->
         forallb task_ok tasks = true)
  /\ (forall tasks tasks' : list task,
         decimal_rows_ok db ->
         forallb task_ok tasks = true -> next_list text_ok tasks tasks' ->
         forallb task_ok tasks' = true)
  /\ (forall (w w' : world) (v : value) (tasks : list task),
         decimal_rows_ok db ->
         load_tasks w = (Ok v, w) -> tasks_of_value v = Some tasks ->
         forallb text_ok (stdin w) = true ->
         forallb within_limit (stdin w) = true ->
         disk w <> Unreadable ->
         main w = (Ok tt, w') ->
         exists tasks' : list task,
           forallb task_ok tasks' = true
           /\ disk w' = Content (saved tasks')
           /\ load_tasks w' = (Ok (value_of_tasks tasks'), w')
           /\ tasks_of_value (value_of_tasks tasks') = Some tasks').
Proof.
  split; [|split; [|split]].
  - intros tasks w w' Hok Hs. split; [|apply tasks_of_value_of_tasks].
    apply load_tasks_saved; [exact Hok|]. now apply save_tasks_disk in Hs.
  - intros w w' v tasks. apply loaded_tasks_ok.
  - intros tasks tasks' Hdb. now apply next_list_task_ok.
  - intros w w' v tasks Hdb L T Hl _ Hd H.
    pose proof (loaded_tasks_ok w v w tasks L T) as Ht.
    rewrite (main_loads v tasks w L T) in H. apply main_loop_exit in H.
    pose proof (keeps_iterate text_ok (fun ts => forallb task_ok ts = true)
                  (fun a b Ha Hn => next_list_task_ok a b Hdb Ha Hn)
                  (S (List.length (stdin w))) tasks Ht w (conj Hl Hd)) as K.
    rewrite H in K. destruct K as (_ & tasks' & Ok' & [D S] & _).
    exists tasks'. split; [exact Ok'|]. split; [exact D|].
    split; [now apply load_tasks_saved | apply tasks_of_value_of_tasks].
Qed.

(** *** Actions that end with an exception *)

Lemma bind_raise_inv {A B} (m : M A) (k : A -> M B) w e w' :
  bind m k w = (Raise e, w') ->
  m w = (Raise e, w')
  \/ exists a w1, m w = (Ok a, w1) /\ k a w1 = (Raise e, w').
Proof.
  unfold bind. destruct (m w) as [[a|e0] w1]; intros H;
    [right; now exists a, w1 | injection H as -> ->; now left].
Qed.

Lemma save_tasks_raises tasks w e w' :
  save_tasks tasks w = (Raise e, w') -> w' = w /\ e = OSError.
Proof.
  unfold save_tasks.
  rewrite utf8_encode_printable
    by (apply dump_printable, value_of_tasks_float_free).
  destruct (disk w); intros H; try discriminate.
  injection H as <- <-. now split.
Qed.

(** What follows a successful save in the three actions never raises. *)
Lemma saved_then_raises tasks msg (tasks' : list task) w e w' :
  (save_tasks tasks ;;; print msg ;;; ret tasks') w = (Raise e, w') ->
  w' = w /\ e = OSError.
Proof.
  intros H. apply bind_raise_inv in H as [H | (x & w1 & _ & H)].
  - now apply save_tasks_raises in H.
  - discriminate H.
Qed.

Tactic Notation "raised" hyp(H) "by" constr(q) "as" ident(a) ident(w) ident(E) :=
  apply bind_raise_inv in H as [H | (a & w & E & H)];
  [ exact (quiet_same_file _ _ _ _ q H) | ].

(** X25.  An action that ends with an exception has written nothing:
    when [add_task], [mark_complete] or [delete_task] does not return (the
    input ends at one of its prompts, [int] refuses what was typed, or the
    file cannot be opened), the file and the last write are what they were
    before the action; the list is changed in the file only by an action
    that returns.  This is stated for ids, the next one included, within
    the limit of [int] on the number of digits: beyond it [json.dump]
    fails after the file has been emptied. *)
Theorem failed_action_leaves_file {db : unicode_db} (tasks : list task)
  (w w' : world) (e : exn) :
  ids_within_limit tasks = true ->
  int_within_limit (next_task_id tasks) = true ->
  add_task tasks w = (Raise e, w')
  \/ mark_complete tasks w = (Raise e, w')
  \/ delete_task tasks w = (Raise e, w') ->
  same_file w w'.
Proof.
  intros _ _ [H | [H | H]].
  - unfold add_task, read_non_empty, read_optional_date in H.
    raised H by (quiet_print_header (u "ADD A TASK")) as x0 w0 E0.
    pose proof (quiet_same_file _ _ _ _ (quiet_print_header _) E0) as S0.
    apply bind_raise_inv in H as [H | (t & w1 & E1 & H)].
    { eapply same_file_trans; [exact S0|].
      exact (quiet_same_file _ _ _ _ (loop_input_quiet _ _) H). }
    pose proof (quiet_same_file _ _ _ _ (loop_input_quiet _ _) E1) as S1.
    apply bind_raise_inv in H as [H | (du & w2 & E2 & H)].
    { eapply same_file_trans; [exact S0|].
      eapply same_file_trans; [exact S1|].
      exact (quiet_same_file _ _ _ _ (loop_input_quiet _ _) H). }
    pose proof (quiet_same_file _ _ _ _ (loop_input_quiet _ _) E2) as S2.
    apply saved_then_raises in H as [-> _].
    eapply same_file_trans; [exact S0|].
    eapply same_file_trans; [exact S1 | exact S2].
  - unfold mark_complete, read_int in H.
    raised H by (quiet_print_header (u "MARK TASK COMPLETE")) as x0 w0 E0.
    pose proof (quiet_same_file _ _ _ _ (quiet_print_header _) E0) as S0.
    destruct tasks as [|t ts]; [discriminate H|].
    apply bind_raise_inv in H as [H | (x1 & w1 & E1 & H)].
    { eapply same_file_trans; [exact S0|].
      exact (quiet_same_file _ _ _ _ (quiet_list_tasks _) H). }
    pose proof (quiet_same_file _ _ _ _ (quiet_list_tasks _) E1) as S1.
    apply bind_raise_inv in H as [H | (c & w2 & E2 & H)].
    { eapply same_file_trans; [exact S0|].
      eapply same_file_trans; [exact S1|].
      exact (quiet_same_file _ _ _ _ (loop_input_quiet _ _) H). }
    pose proof (quiet_same_file _ _ _ _ (loop_input_quiet _ _) E2) as S2.
    assert (S : same_file w w2).
    { eapply same_file_trans; [exact S0|].
      eapply same_file_trans; [exact S1 | exact S2]. }
    destruct (set_complete (index_of c) (t :: ts)) as [ts'|].
    + now apply saved_then_raises in H as [-> _].
    + now injection H as _ <-.
  - unfold delete_task, read_int in H.
    raised H by (quiet_print_header (u "DELETE A TASK")) as x0 w0 E0.
    pose proof (quiet_same_file _ _ _ _ (quiet_print_header _) E0) as S0.
    destruct tasks as [|t ts]; [discriminate H|].
    apply bind_raise_inv in H as [H | (x1 & w1 & E1 & H)].
    { eapply same_file_trans; [exact S0|].
      exact (quiet_same_file _ _ _ _ (quiet_list_tasks _) H). }
    pose proof (quiet_same_file _ _ _ _ (quiet_list_tasks _) E1) as S1.
    apply bind_raise_inv in H as [H | (c & w2 & E2 & H)].
    { eapply same_file_trans; [exact S0|].
      eapply same_file_trans; [exact S1|].
      exact (quiet_same_file _ _ _ _ (loop_input_quiet _ _) H). }
    pose proof (quiet_same_file _ _ _ _ (loop_input_quiet _ _) E2) as S2.
    assert (S : same_file w w2).
    { eapply same_file_trans; [exact S0|].
      eapply same_file_trans; [exact S1 | exact S2]. }
    destruct (pop (index_of c) (t :: ts)) as [[x ts']|].
    + now apply saved_then_raises in H as [-> _].
    + now injection H as _ <-.
Qed.

(* ================================================================= *)
(** ** The theorems at work *)

(** The examples run with the database that has the Latin-1 rows only;
    all their characters are ASCII. *)
#[local] Existing Instance latin1_only.

Lemma save_then_load_witness :
  (load_tasks (mkworld [] [EvWrite (saved two_tasks)]
                 (Content (saved two_tasks)))
   = (Ok (value_of_tasks two_tasks),
      mkworld [] [EvWrite (saved two_tasks)] (Content (saved two_tasks)))
   /\ tasks_of_value (value_of_tasks two_tasks) = Some two_tasks)
  /\ forallb task_ok two_tasks = true
  /\ (let w := mkworld [u "2"; u "Buy milk"; u ""; u ""; u "6"] []
                 (Content (saved two_tasks)) in
      exists tasks' : list task,
        forallb task_ok tasks' = true
        /\ disk (after main w) = Content (saved tasks')
        /\ load_tasks (after main w)
           = (Ok (value_of_tasks tasks'), after main w)
        /\ tasks_of_value (value_of_tasks tasks') = Some tasks').
Proof.
  assert (Hdb : decimal_rows_ok latin1_only) by (intros c d H; discriminate H).
  split; [|split].
  - exact (proj1 save_then_load two_tasks (mkworld [] [] Absent)
             (mkworld [] [EvWrite (saved two_tasks)]
                (Content (saved two_tasks)))
             eq_refl eq_refl).
  - exact (proj1 (proj2 save_then_load)
             (mkworld [] [] (Content (saved two_tasks)))
             (mkworld [] [] (Content (saved two_tasks)))
             (value_of_tasks two_tasks) two_tasks eq_refl eq_refl).
  - intros w.
    assert (D : disk w <> Unreadable) by discriminate.
    exact (proj2 (proj2 (proj2 save_then_load)) w (after main w)
             (value_of_tasks two_tasks) two_tasks Hdb eq_refl eq_refl
             eq_refl eq_refl D eq_refl).
Defined.

Lemma load_tasks_spec_witness :
  result load_tasks (mkworld [] [] (Content (u "[1, oops")))
  = Ok (VList []).
Proof.
  exact (proj1 (proj2 (proj2 (proj2
           (load_tasks_spec (mkworld [] [] (Content (u "[1, oops")))))))
           (u "[1, oops") (u "[1, oops") eq_refl eq_refl eq_refl).
Defined.


Lemma add_task_spec_witness :
  add_task [] (mkworld [u "Buy milk"; u ""] [] Absent)
  = (Ok [mktask 1 (u "Buy milk") None false],
     mkworld []
       (header_events (u "ADD A TASK")
        ++ [EvPrompt (u "Task title: ");
            EvPrompt (u "Due date (YYYY-MM-DD) or press Enter to skip: ");
            EvWrite (saved [mktask 1 (u "Buy milk") None false]);
            EvPrint (u "Task added and saved!")])
       (Content (saved [mktask 1 (u "Buy milk") None false]))).
Proof.
  refine (proj1 (proj2 (proj2 add_task_spec)) []
            (mkworld [u "Buy milk"; u ""] [] Absent) (u "Buy milk")
            (mkworld [u ""]
               (header_events (u "ADD A TASK")
                ++ [EvPrompt (u "Task title: ")]) Absent)
            None
            (mkworld []
               (header_events (u "ADD A TASK")
                ++ [EvPrompt (u "Task title: ");
                    EvPrompt
                      (u "Due date (YYYY-MM-DD) or press Enter to skip: ")])
               Absent)
            eq_refl eq_refl _ eq_refl).
  discriminate.
Defined.

Lemma delete_task_spec_witness :
  exists before deleted rest,
    two_tasks = before ++ deleted :: rest
    /\ Z.of_nat (List.length before) = (1 - 1)%Z
    /\ delete_task two_tasks (mkworld [u "1"] [] Absent)
       = (Ok (before ++ rest),
          mkworld []
            ((header_events (u "DELETE A TASK") ++ list_events two_tasks)
             ++ [EvPrompt (10 :: u "Enter the task number to delete: ")]
             ++ [EvWrite (saved (before ++ rest));
                 EvPrint (u "Deleted: " ++ title deleted)])
            (Content (saved (before ++ rest))))
    /\ List.length (before ++ rest) = (List.length two_tasks - 1)%nat
    /\ (forall j, (j < List.length before)%nat ->
                  nth_error (before ++ rest) j = nth_error two_tasks j)
    /\ (forall j, (List.length before <= j)%nat ->
                  nth_error (before ++ rest) j = nth_error two_tasks (S j))
    /\ nth_error two_tasks (List.length before) = Some deleted.
Proof.
  refine (delete_task_spec two_tasks (mkworld [u "1"] [] Absent)
            (mkworld []
               ((header_events (u "DELETE A TASK") ++ list_events two_tasks)
                ++ [EvPrompt (10 :: u "Enter the task number to delete: ")])
               Absent)
            1%Z _ _ eq_refl); discriminate.
Defined.

Lemma mark_complete_spec_witness :
  exists before t rest,
    two_tasks = before ++ t :: rest
    /\ Z.of_nat (List.length before) = (1 - 1)%Z
    /\ let tasks' :=
         before ++ mktask (id t) (title t) (due_date t) true :: rest in
       mark_complete two_tasks (mkworld [u "1"] [] Absent)
       = (Ok tasks',
          mkworld []
            ((header_events (u "MARK TASK COMPLETE") ++ list_events two_tasks)
             ++ [EvPrompt (10 :: u "Enter the task number to mark complete: ")]
             ++ [EvWrite (saved tasks');
                 EvPrint (u "Task marked complete and saved!")])
            (Content (saved tasks')))
       /\ tasks' = complete (Z.to_nat 1) two_tasks
       /\ complete (Z.to_nat 1) tasks' = tasks'
       /\ set_complete (index_of 1) tasks' = Some tasks'.
Proof.
  refine (mark_complete_spec two_tasks (mkworld [u "1"] [] Absent)
            (mkworld []
               ((header_events (u "MARK TASK COMPLETE")
                 ++ list_events two_tasks)
                ++ [EvPrompt
                      (10 :: u "Enter the task number to mark complete: ")])
               Absent)
            1%Z _ _ eq_refl); discriminate.
Defined.

Lemma file_keeps_up_with_list_witness :
  synced [mktask 1 (u "Buy milk") None false]
    (after (add_task []) (mkworld [u "Buy milk"; u ""] [] Absent)).
Proof.
  exact (proj1 file_keeps_up_with_list []
           (mkworld [u "Buy milk"; u ""] [] Absent)
           [mktask 1 (u "Buy milk") None false]
           (after (add_task []) (mkworld [u "Buy milk"; u ""] [] Absent))
           eq_refl).
Defined.

(** *** The further properties at work *)

Lemma read_non_empty_skips_blanks_witness :
  read_non_empty (u "Task title: ")
    (mkworld [u "  "; u ""; u " Buy milk "; u "x"] [] Absent)
  = (Ok (u "Buy milk"),
     mkworld [u "x"]
       [EvPrompt (u "Task title: "); EvPrint blank_message;
        EvPrompt (u "Task title: "); EvPrint blank_message;
        EvPrompt (u "Task title: ")] Absent).
Proof.
  exact (read_non_empty_skips_blanks (u "Task title: ") [u "  "; u ""]
           (u " Buy milk ") [u "x"] [] Absent eq_refl eq_refl).
Defined.

Lemma read_non_empty_never_blank_witness :
  u "Buy milk" <> [] /\ strip (u "Buy milk") = u "Buy milk".
Proof.
  pose proof (read_non_empty_never_blank (u "Task title: ")
                (mkworld [u " Buy milk "] [] Absent)
                (mkworld [] [EvPrompt (u "Task title: ")] Absent)
                (u "Buy milk") eq_refl) as X.
  exact (conj (proj1 X) (proj1 (proj2 X))).
Defined.

Lemma read_int_result_witness : (1 <= 3 <= 6)%Z /\ (0 <= 3)%Z.
Proof.
  pose proof (read_int_result (u "> ") 1 6
                (mkworld [u " 3 "] [] Absent)
                (mkworld [] [EvPrompt (u "> ")] Absent) 3 eq_refl) as X.
  exact (conj (proj1 X) (proj1 (proj2 X))).
Defined.

Lemma read_int_empty_range_witness :
  exists e,
    result (read_int (u "> ") 1 0) (mkworld [u "1"; u "0"] [] Absent)
    = Raise e.
Proof.
  exact (read_int_empty_range (u "> ") 1 0
           (mkworld [u "1"; u "0"] [] Absent) (or_introl eq_refl)).
Defined.

Lemma read_int_padded_numeral_witness :
  read_int (u "> ") 1 6
    (mkworld [u "9"; u "x"; padded_numeral (u "  ") 2 3 (u " "); u "4"]
       [] Absent)
  = (Ok 3%Z,
     mkworld [u "4"]
       [EvPrompt (u "> "); EvPrint (range_message 1 6);
        EvPrompt (u "> "); EvPrint (range_message 1 6);
        EvPrompt (u "> ")] Absent).
Proof.
  refine (read_int_padded_numeral (u "> ") 1 6 [u "9"; u "x"] (u "  ")
            (u " ") 2 3 [u "4"] [] Absent eq_refl eq_refl eq_refl eq_refl _).
  lia.
Defined.

Lemma read_int_ascii_input_witness :
  (exists v, result (read_int (u "> ") 1 6)
               (mkworld [u "abc"; u "3"] [] Absent) = Ok v)
  \/ result (read_int (u "> ") 1 6) (mkworld [u "abc"; u "3"] [] Absent)
     = Raise EOFError.
Proof.
  exact (read_int_ascii_input (u "> ") 1 6
           (mkworld [u "abc"; u "3"] [] Absent) eq_refl eq_refl).
Defined.


Lemma read_optional_date_normalises_witness :
  read_optional_date (u "Due: ") (mkworld [u " 2026-1-5 "; u "6"] [] Absent)
  = (Ok (Some (u "2026-01-05")),
     mkworld [u "6"] [EvPrompt (u "Due: ")] Absent).
Proof.
  exact (read_optional_date_normalises (u "Due: ") (mkdate 2026 1 5)
           (u " 2026-1-5 ") [u "6"] [] Absent eq_refl eq_refl eq_refl).
Defined.

Lemma read_optional_date_impossible_day_witness :
  read_optional_date (u "Due: ") (mkworld [u "2023-02-29"; u ""] [] Absent)
  = read_optional_date (u "Due: ")
      (mkworld [u ""] [EvPrompt (u "Due: "); EvPrint date_message] Absent).
Proof.
  refine (read_optional_date_impossible_day (u "Due: ") 2023 2 29
            (u "2023-02-29") [u ""] [] Absent _ _ _ (or_intror eq_refl)
            eq_refl); lia.
Defined.

Lemma list_tasks_display_witness :
  exists lines,
    List.length lines = 2%nat
    /\ nth_error lines 1
       = Some (task_line 2 (mktask 2 (u "Call Ann") (Some (u "2026-01-16"))
                              true)).
Proof.
  destruct (list_tasks_display two_tasks (mkworld [] [] Absent))
    as (_ & _ & _ & lines & _ & L & _ & H).
  exists lines. split; [exact L | exact (H 1%nat _ eq_refl)].
Defined.

Lemma typed_number_selects_witness :
  exists before behind,
    two_tasks
    = before ++ mktask 2 (u "Call Ann") (Some (u "2026-01-16")) true :: behind
    /\ List.length before = 1%nat.
Proof.
  assert (D : Absent <> Unreadable) by discriminate.
  destruct (typed_number_selects two_tasks 1
              (mktask 2 (u "Call Ann") (Some (u "2026-01-16")) true)
              [] [] Absent eq_refl D)
    as (before & behind & E & L & _).
  exists before, behind. split; assumption.
Defined.

Lemma list_option_changes_nothing_witness :
  iteration two_tasks (mkworld [u " 1 "; u "anything"; u "6"] [] Absent)
  = (Ok (Some two_tasks),
     mkworld [u "6"]
       ([] ++ menu_events ++ [EvPrompt menu_prompt] ++ list_events two_tasks
        ++ [EvPrompt (10 :: pause_message)]) Absent).
Proof.
  exact (list_option_changes_nothing two_tasks (u " 1 ") (u "anything")
           [u "6"] [] Absent eq_refl).
Defined.


Lemma save_tasks_writes_ascii_witness :
  exists bs,
    save_tasks two_tasks (mkworld [] [] Absent)
    = (Ok tt, mkworld [] ([] ++ [EvWrite bs]) (Content bs))
    /\ forallb printable bs = true
    /\ utf8_decode bs = Some (json_dumps (value_of_tasks two_tasks)).
Proof.
  apply (proj1 (save_tasks_writes_ascii two_tasks (mkworld [] [] Absent)));
    [discriminate | reflexivity].
Defined.

Lemma equal_files_equal_lists_witness : two_tasks = two_tasks.
Proof.
  exact (equal_files_equal_lists two_tasks two_tasks
           (mkworld [] [] Absent)
           (after (save_tasks two_tasks) (mkworld [] [] Absent))
           (mkworld [u "6"] [] (Content []))
           (after (save_tasks two_tasks) (mkworld [u "6"] [] (Content [])))
           eq_refl eq_refl eq_refl eq_refl eq_refl).
Defined.


Lemma load_tasks_blank_file_witness :
  load_tasks (mkworld [] [] (Content [32; 13; 10; 9; 10]))
  = (Ok (VList []), mkworld [] [] (Content [32; 13; 10; 9; 10])).
Proof.
  exact (load_tasks_blank_file [32; 13; 10; 9; 10]
           (mkworld [] [] (Content [32; 13; 10; 9; 10])) eq_refl eq_refl).
Defined.

Lemma load_tasks_undecodable_byte_witness :
  load_tasks (mkworld [u "6"] [] (Content [91; 255; 93]))
  = (Raise UnicodeDecodeError, mkworld [u "6"] [] (Content [91; 255; 93]))
  /\ main (mkworld [u "6"] [] (Content [91; 255; 93]))
     = (Raise UnicodeDecodeError, mkworld [u "6"] [] (Content [91; 255; 93])).
Proof.
  exact (load_tasks_undecodable_byte [91; 255; 93]
           (mkworld [u "6"] [] (Content [91; 255; 93])) eq_refl eq_refl).
Defined.

Lemma main_exit_rewrites_file_witness :
  main (mkworld [u "6"] [] (Content (u "[1, oops")))
  = (Ok tt,
     mkworld []
       ([] ++ menu_events
        ++ [EvPrompt menu_prompt; EvWrite (u "[]"); EvPrint (u "Goodbye!")])
       (Content (u "[]"))).
Proof.
  refine (main_exit_rewrites_file
            (mkworld [u "6"] [] (Content (u "[1, oops"))) (u "6") []
            _ eq_refl eq_refl).
  right. exists (u "[1, oops"), (u "[1, oops").
  split; [reflexivity|]. split; [reflexivity|]. split; reflexivity.
Defined.

Lemma main_without_valid_choice_witness :
  main (mkworld [u "7"; u "list"; u ""] [] Absent)
  = (Raise EOFError,
     mkworld []
       ([] ++ menu_events ++ menu_rejections [u "7"; u "list"; u ""]
        ++ [EvPrompt menu_prompt])
       Absent)
  /\ forallb (fun e => negb (is_write e))
       (menu_events ++ menu_rejections [u "7"; u "list"; u ""]
        ++ [EvPrompt menu_prompt])
     = true.
Proof.
  exact (main_without_valid_choice
           (mkworld [u "7"; u "list"; u ""] [] Absent) (VList []) []
           eq_refl eq_refl eq_refl eq_refl).
Defined.

Lemma session_persists_witness :
  let w := mkworld [u "2"; u "Buy milk"; u ""; u ""; u "6"] [] Absent in
  exists tasks',
    (exists tr, trace (after main w)
                = tr ++ [EvWrite (saved tasks'); EvPrint (u "Goodbye!")])
    /\ forallb task_ok tasks' = true
    /\ disk (after main w) = Content (saved tasks')
    /\ load_tasks (after main w) = (Ok (value_of_tasks tasks'), after main w).
Proof.
  intros w.
  assert (Hdb : decimal_rows_ok latin1_only) by (intros c d H; discriminate H).
  assert (D : disk w <> Unreadable) by discriminate.
  exact (session_persists [] w (after main w) Hdb eq_refl eq_refl eq_refl D
           eq_refl).
Defined.

Lemma main_ascii_input_witness :
  let w := mkworld [u "1"; u ""; u "9"] [] Absent in
  (exists w' tasks' tr,
      main w = (Ok tt, w') /\ disk w' = Content (saved tasks')
      /\ trace w' = tr ++ [EvWrite (saved tasks'); EvPrint (u "Goodbye!")])
  \/ (exists w', main w = (Raise EOFError, w')).
Proof.
  intros w.
  assert (D : disk w <> Unreadable) by discriminate.
  exact (main_ascii_input (VList []) [] w eq_refl eq_refl eq_refl eq_refl
           eq_refl eq_refl D).
Defined.


Lemma failed_action_leaves_file_witness :
  let w := mkworld [u "Buy milk"] [EvWrite (saved two_tasks)]
             (Content (saved two_tasks)) in
  same_file w (after (add_task two_tasks) w).
Proof.
  intros w.
  exact (failed_action_leaves_file two_tasks w (after (add_task two_tasks) w)
           EOFError eq_refl eq_refl (or_introl eq_refl)).
Defined.
